(** * Rotation experiment: trial sequencing, response handling, ADE analysis

    A shallow embedding of the Python sources

    - [experiments/experience_pygame_3d.py] (module [Experiment]),
    - [experiments/analyze_ade.py]          (module [AnalyzeAde]),
    - [draw_first_stimulus.py]              (module [Labeler]),
    - [experiments/experience2.py]          (module [Experience2]),
    - [experiments/experience3.py]          (module [Experience3]),

    together with the properties of the written specification that concern
    them.

    Conventions of the embedding.

    - A Python value that comes out of [json.load] is a [pyval]; a JSON
      object is a [dict], an association list in insertion order.
    - Python floats are idealised as real numbers ([R]) in the session and
      in the analyses: rounding, overflow and NaN are not modelled there. The
      disparity computation is given on binary64 floats as well (module
      [Binary64]), where they are.
    - A Python exception is a value of [exn]; code that may raise returns a
      [result].
    - Library calls whose result the program does not determine
      ([random.shuffle], [json.load], [json.dumps], [scipy.stats.linregress],
      [scipy.stats.pearsonr], [np.mean], [np.std], [time.time]) are
      parameters of the sections that use them, or data carried by the input
      events. Where the text of a file is read back, [json.load] is the
      decoder of module [Json] over the scanner of one value. *)

From Stdlib Require Import Reals Lra ZArith SpecFloat.
From stdpp Require Import base tactics option list strings pretty.

Local Set Warnings "-register-all".

(** ** Python values *)

Inductive pyval : Type :=
| PNone
| PBool (b : bool)
| PInt (n : Z)
| PFloat (x : R)
| PStr (s : string)
| PList (l : list pyval)
| PDict (d : list (string * pyval)).

Abbreviation dict := (list (string * pyval)).

(** Truth value of a Python object, as used by [not x] and [if x]. *)
Definition truthy (v : pyval) : bool :=
  match v with
  | PNone => false
  | PBool b => b
  | PInt n => negb (n =? 0)%Z
  | PFloat x => if Req_dec_T x 0 then false else true
  | PStr s => negb (String.eqb s "")
  | PList l => match l with [] => false | _ => true end
  | PDict d => match d with [] => false | _ => true end
  end.

(** [not v] *)
Definition py_not (v : pyval) : pyval := PBool (negb (truthy v)).

(** [v is not None] *)
Definition is_not_None (v : pyval) : bool :=
  match v with PNone => false | _ => true end.

(** ** Exceptions and results *)

Inductive exn : Type :=
| KeyError (key : string)
| TypeError
| IndexError
| AttributeError
| UnboundLocalError (name : string)
| FileNotFoundError
| JSONDecodeError
| ValueError
| ZeroDivisionError
| SystemExit
| Unmodelled.   (* not a Python exception: a path the embedding leaves out *)

Inductive result (A : Type) : Type :=
| Ok (a : A)
| Raise (e : exn).
Arguments Ok {A} a.
Arguments Raise {A} e.

Definition rbind {A B} (m : result A) (k : A → result B) : result B :=
  match m with
  | Ok a => k a
  | Raise e => Raise e
  end.

Notation "'try' x := m 'in' k" := (rbind m (fun x => k))
  (at level 10, x pattern, m at level 100, k at level 200,
   format "'[v' 'try'  x  :=  m  'in' '/' k ']'").

(** ** Dictionaries *)

(** The binding of [k] in [d], if any. *)
Fixpoint dict_lookup (k : string) (d : dict) : option pyval :=
  match d with
  | [] => None
  | (k', v) :: d' => if String.eqb k k' then Some v else dict_lookup k d'
  end.

(** [d.get(k, default)] *)
Definition dict_get (d : dict) (k : string) (default : pyval) : pyval :=
  match dict_lookup k d with
  | Some v => v
  | None => default
  end.

(** [d[k]] on a dictionary *)
Definition dict_getitem (d : dict) (k : string) : result pyval :=
  match dict_lookup k d with
  | Some v => Ok v
  | None => Raise (KeyError k)
  end.

(** [v[k]] with a string key on an arbitrary value: a dictionary is looked
    up, every other JSON value raises [TypeError]. *)
Definition py_getitem (v : pyval) (k : string) : result pyval :=
  match v with
  | PDict d => dict_getitem d k
  | _ => Raise TypeError
  end.

(** [d[k] = v]: an existing key keeps its position, a new key goes last. *)
Fixpoint dict_setitem (k : string) (v : pyval) (d : dict) : dict :=
  match d with
  | [] => [(k, v)]
  | (k', v') :: d' =>
      if String.eqb k k' then (k, v) :: d' else (k', v') :: dict_setitem k v d'
  end.

(** ** Text *)

Definition newline : string := String (Ascii.ascii_of_nat 10) EmptyString.

(** ** Files *)

(** The files the programs read and write: the text stored under a path,
    [None] where no file exists. *)
Definition filesystem : Type := string → option string.

(** [open(path, 'r')] followed by reading the whole file. *)
Definition read_file (fs : filesystem) (path : string) : result string :=
  match fs path with
  | Some text => Ok text
  | None => Raise FileNotFoundError
  end.

(** [open(path, 'w')], writing [text], closing. *)
Definition write_file (fs : filesystem) (path text : string) : filesystem :=
  λ p, if String.eqb p path then Some text else fs p.

(** ** JSON texts *)

(** The part of the [json] library that reads the text of an array, after
    [json/decoder.py]: the decoder skips whitespace, reads one value and
    accepts only whitespace after it. *)
Module Json.

(** The character a one-character text holds. *)

Definition char (s : string) : Ascii.ascii :=
  match s with
  | String c _ => c
  | EmptyString => Ascii.zero
  end.

(** The characters the decoder skips between two tokens: space, tab, line
    feed, carriage return. *)
Definition whitespace (c : Ascii.ascii) : bool :=
  Ascii.eqb c (char " ") || Ascii.eqb c (Ascii.ascii_of_nat 9)
  || Ascii.eqb c (Ascii.ascii_of_nat 10) || Ascii.eqb c (Ascii.ascii_of_nat 13).

Fixpoint skip_whitespace (s : string) : string :=
  match s with
  | String c s' => if whitespace c then skip_whitespace s' else s
  | EmptyString => s
  end.

Section Decoder.

(** [scan_once]: the value that starts at the front of a text, and the text
    that follows it; [None] where no value starts. *)
Variable scan_once : string → option (pyval * string).

(** [JSONArray], the text after the opening bracket. The loop reads one
    value per turn and a comma or the closing bracket after it; [fuel]
    bounds the turns, and a scanner that does not use up the text it is
    given runs out of it. *)
Fixpoint array_items (fuel : nat) (s : string) : result (list pyval * string) :=
  match fuel with
  | 0 => Raise Unmodelled
  | S fuel =>
      match scan_once s with
      | None => Raise JSONDecodeError
      | Some (value, s) =>
          match skip_whitespace s with
          | String c rest =>
              if Ascii.eqb c (char "]") then Ok ([value], rest)
              else if Ascii.eqb c (char ",") then
                try (values, rest) := array_items fuel (skip_whitespace rest) in
                Ok (value :: values, rest)
              else Raise JSONDecodeError
          | EmptyString => Raise JSONDecodeError
          end
      end
  end.

Definition JSONArray (s : string) : result (list pyval * string) :=
  match skip_whitespace s with
  | String c rest =>
      if Ascii.eqb c (char "]") then Ok ([], rest)
      else array_items (String.length (String c rest)) (String c rest)
  | EmptyString => Raise JSONDecodeError
  end.

(** [json.load] on the text of a file: one value between optional
    whitespace; text after the value is an error. An array at the top level
    is read by [JSONArray], anything else by the scanner. *)
Definition load (text : string) : result pyval :=
  try (obj, rest) :=
    (match skip_whitespace text with
     | String c s =>
         if Ascii.eqb c (char "[") then
           try (values, rest) := JSONArray s in
           Ok (PList values, rest)
         else
           match scan_once (String c s) with
           | Some found => Ok found
           | None => Raise JSONDecodeError
           end
     | EmptyString => Raise JSONDecodeError
     end) in
  match skip_whitespace rest with
  | EmptyString => Ok obj
  | String _ _ => Raise JSONDecodeError
  end.

(** [scanstring], for the strings that need no escape: a quote ends the
    string; a backslash and the control characters are not read here. *)
Definition scanstring_char (c : Ascii.ascii) : bool :=
  negb (Ascii.eqb c (Ascii.ascii_of_nat 34)) && negb (Ascii.eqb c (char "\"))
  && (32 <=? Ascii.nat_of_ascii c)%nat.

Fixpoint scanstring (s : string) : option (string * string) :=
  match s with
  | String c s' =>
      if Ascii.eqb c (Ascii.ascii_of_nat 34) then Some (EmptyString, s')
      else if scanstring_char c then
        match scanstring s' with
        | Some (chars, rest) => Some (String c chars, rest)
        | None => None
        end
      else None
  | EmptyString => None
  end.

(** [JSONObject], the text after the opening brace. [object_pairs] starts
    after the opening quote of a key; [dict(pairs)] keeps the last value of
    a key that occurs twice. *)
Fixpoint object_pairs (fuel : nat) (s : string) : option (list (string * pyval) * string) :=
  match fuel with
  | 0 => None
  | S fuel =>
      match scanstring s with
      | None => None
      | Some (key, s) =>
          match skip_whitespace s with
          | String c s =>
              if Ascii.eqb c (char ":") then
                match scan_once (skip_whitespace s) with
                | None => None
                | Some (value, s) =>
                    match skip_whitespace s with
                    | String c s =>
                        if Ascii.eqb c (char "}") then Some ([(key, value)], s)
                        else if Ascii.eqb c (char ",") then
                          match skip_whitespace s with
                          | String c s =>
                              if Ascii.eqb c (Ascii.ascii_of_nat 34) then
                                match object_pairs fuel s with
                                | Some (pairs, rest) => Some ((key, value) :: pairs, rest)
                                | None => None
                                end
                              else None
                          | EmptyString => None
                          end
                        else None
                    | EmptyString => None
                    end
                end
              else None
          | EmptyString => None
          end
      end
  end.

Definition JSONObject (s : string) : option (pyval * string) :=
  match skip_whitespace s with
  | String c rest =>
      if Ascii.eqb c (char "}") then Some (PDict [], rest)
      else if Ascii.eqb c (Ascii.ascii_of_nat 34) then
        match object_pairs (String.length rest) rest with
        | Some (pairs, rest) =>
            Some (PDict (foldl (λ d pair, dict_setitem pair.1 pair.2 d) [] pairs), rest)
        | None => None
        end
      else None
  | EmptyString => None
  end.

End Decoder.

(** Integers: an optional minus sign, then 0 or digits that do not start
    with 0. A fraction or an exponent makes a float, which is not read
    here. *)
Definition digit (c : Ascii.ascii) : option Z :=
  let n := Z.of_nat (Ascii.nat_of_ascii c) in
  if (48 <=? n)%Z && (n <=? 57)%Z then Some (n - 48)%Z else None.

Fixpoint scan_digits (acc : Z) (s : string) : Z * string :=
  match s with
  | String c s' =>
      match digit c with
      | Some d => scan_digits (acc * 10 + d) s'
      | None => (acc, s)
      end
  | EmptyString => (acc, s)
  end.

Definition scan_integer (s : string) : option (Z * string) :=
  match s with
  | String c s' =>
      match digit c with
      | Some 0%Z => Some (0%Z, s')
      | Some _ => Some (scan_digits 0 s)
      | None => None
      end
  | EmptyString => None
  end.

Definition scan_number (s : string) : option (pyval * string) :=
  let signed :=
    match s with
    | String c s' =>
        if Ascii.eqb c (char "-") then
          match scan_integer s' with
          | Some (n, rest) => Some ((- n)%Z, rest)
          | None => None
          end
        else scan_integer s
    | EmptyString => None
    end in
  match signed with
  | Some (n, rest) =>
      match rest with
      | String c _ =>
          if Ascii.eqb c (char ".") || Ascii.eqb c (char "e") || Ascii.eqb c (char "E") then None
          else Some (PInt n, rest)
      | EmptyString => Some (PInt n, rest)
      end
  | None => None
  end.

Fixpoint strip_prefix (p s : string) : option string :=
  match p with
  | EmptyString => Some s
  | String a p' =>
      match s with
      | String b s' => if Ascii.eqb a b then strip_prefix p' s' else None
      | EmptyString => None
      end
  end.

(** A scanner of the values built from [null], [true], [false], integers,
    strings without escapes, arrays and objects. *)
Fixpoint scan_value (fuel : nat) (s : string) : option (pyval * string) :=
  match fuel with
  | 0 => None
  | S fuel =>
      match s with
      | String c s' =>
          if Ascii.eqb c (Ascii.ascii_of_nat 34) then
            match scanstring s' with
            | Some (chars, rest) => Some (PStr chars, rest)
            | None => None
            end
          else if Ascii.eqb c (char "{") then JSONObject (scan_value fuel) s'
          else if Ascii.eqb c (char "[") then
            match JSONArray (scan_value fuel) s' with
            | Ok (values, rest) => Some (PList values, rest)
            | Raise _ => None
            end
          else
            match strip_prefix "null" s, strip_prefix "true" s, strip_prefix "false" s with
            | Some rest, _, _ => Some (PNone, rest)
            | _, Some rest, _ => Some (PBool true, rest)
            | _, _, Some rest => Some (PBool false, rest)
            | _, _, _ => scan_number s
            end
      | EmptyString => None
      end
  end.

Definition scan_once (s : string) : option (pyval * string) :=
  scan_value (String.length s) s.

End Json.

(** * experiments/experience_pygame_3d.py *)

Module Experiment.

(** ** Result of one trial *)

(** The dataclass [TrialResult]. The annotations of the dataclass are not
    enforced by Python: [stimulus_id], [is_mirror], [is_correct] and
    [initial_angle] receive whatever the stimulus record holds, so they are
    [pyval]s here. *)
Module TrialResult.
Record t : Type := {
  trial_number : nat;
  stimulus_id : pyval;
  is_mirror : pyval;
  user_response : bool;          (* True = different, False = same *)
  response_time : R;
  is_correct : pyval;
  rotation_enabled : bool;
  disparity : R;
  initial_angle : pyval
}.
End TrialResult.

(** ** Loading *)

Section Load.

(** [json.load] on the text of a file; a text that is not JSON raises
    [JSONDecodeError]. *)
Variable json_load : string → result pyval.

(** [full_path] is the path after [os.path.join(script_dir, json_path)]. *)
Definition load_stimuli (fs : filesystem) (full_path : string) : result pyval :=
  try text := read_file fs full_path in
  try data := json_load text in
  Ok data.

End Load.

(** ** Angular disparity *)

Definition calculate_angular_disparity
    (initial_angle_y : pyval) (user_rot_x user_rot_y : R) : R :=
  let total_rotation := sqrt (user_rot_x * user_rot_x + user_rot_y * user_rot_y) in
  total_rotation.

(** The same function on the floats Python computes with: IEEE 754 binary64
    numbers, every operation rounded to nearest, ties to even. *)
Module Binary64.

Definition float : Type := spec_float.

(** [x * y] and [x + y] on floats; neither raises. *)
Definition float_mul (x y : float) : float := SFmul 53 1024 x y.
Definition float_add (x y : float) : float := SFadd 53 1024 x y.

(** [math.sqrt(x)]: a [ValueError] (math domain error) on an argument
    below zero; [-0.0], [inf] and [nan] are returned as they are. *)
Definition math_sqrt (x : float) : result float :=
  match x with
  | S754_finite true _ _ | S754_infinity true => Raise ValueError
  | _ => Ok (SFsqrt 53 1024 x)
  end.

(** [x >= 0] *)
Definition float_ge_0 (x : float) : bool := SFleb (S754_zero false) x.

Definition is_nan (x : float) : bool :=
  match x with S754_nan => true | _ => false end.

(** [x == 0]: true of [0.0] and of [-0.0]. *)
Definition float_eq_0 (x : float) : bool := SFeqb x (S754_zero false).

(** Lines 108-126 *)
Definition calculate_angular_disparity
    (initial_angle_y : pyval) (user_rot_x user_rot_y : float) : result float :=
  try total_rotation :=
    math_sqrt (float_add (float_mul user_rot_x user_rot_x)
                         (float_mul user_rot_y user_rot_y)) in
  Ok total_rotation.

End Binary64.

(** ** Trial plan *)

(** One entry of the list built by [generate_trial_set]: a dictionary with
    the three keys ['stimulus'], ['rotation_enabled'], ['is_mirror']. *)
Module Trial.
Record t : Type := {
  stimulus : dict;
  rotation_enabled : bool;
  is_mirror : pyval
}.
End Trial.

(** [s.get('is_mirror') is not None] *)
Definition has_label (s : dict) : bool :=
  is_not_None (dict_get s "is_mirror" PNone).

Section TrialSet.

(** [random.shuffle]: the list it leaves behind is some rearrangement of
    the list it was given. *)
Variable shuffle : list dict → list dict.

Definition generate_trial_set
    (stimuli : list dict) (n_with_rotation n_without_rotation : nat)
    : list Trial.t :=
  let valid_stimuli := filter (λ s, has_label s) stimuli in
  let valid_stimuli :=
    if bool_decide (length valid_stimuli < n_with_rotation + n_without_rotation)
    then take (n_with_rotation + n_without_rotation) stimuli
    else valid_stimuli in
  let valid_stimuli := shuffle valid_stimuli in
  imap (λ i stimulus,
          let rotation_enabled := bool_decide (i < n_with_rotation) in
          {| Trial.stimulus := stimulus;
             Trial.rotation_enabled := rotation_enabled;
             Trial.is_mirror := dict_get stimulus "is_mirror" (PBool false) |})
       (take (n_with_rotation + n_without_rotation) valid_stimuli).

End TrialSet.

(** ** The session loop of [run_experiment_3d] *)

Inductive key : Type := K_ESCAPE | K_s | K_d | K_other.

#[global] Instance key_eq_dec : EqDecision key.
Proof. solve_decision. Defined.

(** The pygame events the loop looks at. A [KEYDOWN] carries the two values
    [time.time()] returns while the key is handled: [now] when the response
    is taken, [now'] when the clock of the next trial is started. *)
Inductive event : Type :=
| QUIT
| KEYDOWN (k : key) (now now' : R)
| MOUSEBUTTONDOWN (button : Z) (pos : Z * Z)
| MOUSEBUTTONUP (button : Z)
| MOUSEMOTION (pos : Z * Z)
| OTHER.

(** The local variables of [run_experiment_3d]. [rotation] is bound by the
    rendering code at the end of a frame and is unbound ([None]) before the
    first frame has been drawn. *)
Record state : Type := {
  trials : list Trial.t;
  current_trial : nat;
  results : list TrialResult.t;
  start_time : R;
  response_rot_x : R;
  response_rot_y : R;
  mouse_dragging : bool;
  last_mouse_pos : option (Z * Z);
  current_trial_data : Trial.t;
  rotation_enabled : bool;
  running : bool;
  rotation : option pyval
}.

(** How the handling of one event leaves the [for event in ...] loop. *)
Inductive control : Type := Continue | Break.

(** Reading a local variable that may be unbound. *)
Definition local (name : string) (v : option pyval) : result pyval :=
  match v with
  | Some x => Ok x
  | None => Raise (UnboundLocalError name)
  end.

(** Lines 276-291: the state before the first frame. *)
Definition start_experiment (trials : list Trial.t) (now : R) : result state :=
  match trials !! 0 with
  | None => Raise IndexError
  | Some current_trial_data =>
      Ok {| trials := trials;
            current_trial := 0;
            results := [];
            start_time := now;
            response_rot_x := 0;
            response_rot_y := 0;
            mouse_dragging := false;
            last_mouse_pos := None;
            current_trial_data := current_trial_data;
            rotation_enabled := Trial.rotation_enabled current_trial_data;
            running := true;
            rotation := None |}
  end.

(** [running = False] *)
Definition stop (st : state) : state :=
  {| trials := trials st;
     current_trial := current_trial st;
     results := results st;
     start_time := start_time st;
     response_rot_x := response_rot_x st;
     response_rot_y := response_rot_y st;
     mouse_dragging := mouse_dragging st;
     last_mouse_pos := last_mouse_pos st;
     current_trial_data := current_trial_data st;
     rotation_enabled := rotation_enabled st;
     running := false;
     rotation := rotation st |}.

(** Lines 321-336 and 355-370 (the same text in both branches): append the
    result, then "passer au prochain essai". *)
Definition record_and_advance (r : TrialResult.t) (now' : R) (st : state)
    : result (state * control) :=
  let results := results st ++ [r] in
  let current_trial := current_trial st + 1 in
  if bool_decide (length (trials st) ≤ current_trial) then
    Ok ({| trials := trials st;
           current_trial := current_trial;
           results := results;
           start_time := start_time st;
           response_rot_x := response_rot_x st;
           response_rot_y := response_rot_y st;
           mouse_dragging := mouse_dragging st;
           last_mouse_pos := last_mouse_pos st;
           current_trial_data := current_trial_data st;
           rotation_enabled := rotation_enabled st;
           running := false;
           rotation := rotation st |}, Break)
  else
    match trials st !! current_trial with
    | None => Raise IndexError
    | Some current_trial_data =>
        Ok ({| trials := trials st;
               current_trial := current_trial;
               results := results;
               start_time := now';
               response_rot_x := 0;
               response_rot_y := 0;
               mouse_dragging := mouse_dragging st;
               last_mouse_pos := last_mouse_pos st;
               current_trial_data := current_trial_data;
               rotation_enabled := Trial.rotation_enabled current_trial_data;
               running := running st;
               rotation := rotation st |}, Continue)
    end.

(** Lines 304-336: key S, the answer "same". *)
Definition on_key_s (now now' : R) (st : state) : result (state * control) :=
  let response_time := (now - start_time st)%R in
  let stimulus := Trial.stimulus (current_trial_data st) in
  let is_correct := py_not (Trial.is_mirror (current_trial_data st)) in
  try stimulus_id := dict_getitem stimulus "id" in
  try rotation := local "rotation" (rotation st) in
  try rotation_y := py_getitem rotation "y" in
  let result :=
    {| TrialResult.trial_number := current_trial st + 1;
       TrialResult.stimulus_id := stimulus_id;
       TrialResult.is_mirror := Trial.is_mirror (current_trial_data st);
       TrialResult.user_response := false;
       TrialResult.response_time := response_time;
       TrialResult.is_correct := is_correct;
       TrialResult.rotation_enabled := rotation_enabled st;
       TrialResult.disparity :=
         calculate_angular_disparity rotation_y
           (response_rot_x st) (response_rot_y st);
       TrialResult.initial_angle := dict_get stimulus "angle" (PFloat 0) |} in
  record_and_advance result now' st.

(** Lines 338-370: key D, the answer "different". *)
Definition on_key_d (now now' : R) (st : state) : result (state * control) :=
  let response_time := (now - start_time st)%R in
  let stimulus := Trial.stimulus (current_trial_data st) in
  let is_correct := Trial.is_mirror (current_trial_data st) in
  try stimulus_id := dict_getitem stimulus "id" in
  try rotation := local "rotation" (rotation st) in
  try rotation_y := py_getitem rotation "y" in
  let result :=
    {| TrialResult.trial_number := current_trial st + 1;
       TrialResult.stimulus_id := stimulus_id;
       TrialResult.is_mirror := Trial.is_mirror (current_trial_data st);
       TrialResult.user_response := true;
       TrialResult.response_time := response_time;
       TrialResult.is_correct := is_correct;
       TrialResult.rotation_enabled := rotation_enabled st;
       TrialResult.disparity :=
         calculate_angular_disparity rotation_y
           (response_rot_x st) (response_rot_y st);
       TrialResult.initial_angle := dict_get stimulus "angle" (PFloat 0) |} in
  record_and_advance result now' st.

(** Lines 372-375 *)
Definition on_mouse_button_down (button : Z) (pos : Z * Z) (st : state) : state :=
  if bool_decide (button = 1%Z) && rotation_enabled st then
    {| trials := trials st;
       current_trial := current_trial st;
       results := results st;
       start_time := start_time st;
       response_rot_x := response_rot_x st;
       response_rot_y := response_rot_y st;
       mouse_dragging := true;
       last_mouse_pos := Some pos;
       current_trial_data := current_trial_data st;
       rotation_enabled := rotation_enabled st;
       running := running st;
       rotation := rotation st |}
  else st.

(** Lines 376-378 *)
Definition on_mouse_button_up (button : Z) (st : state) : state :=
  if bool_decide (button = 1%Z) then
    {| trials := trials st;
       current_trial := current_trial st;
       results := results st;
       start_time := start_time st;
       response_rot_x := response_rot_x st;
       response_rot_y := response_rot_y st;
       mouse_dragging := false;
       last_mouse_pos := last_mouse_pos st;
       current_trial_data := current_trial_data st;
       rotation_enabled := rotation_enabled st;
       running := running st;
       rotation := rotation st |}
  else st.

(** Lines 379-387. Subscripting [last_mouse_pos] while it is still [None]
    raises [TypeError]. *)
Definition on_mouse_motion (pos : Z * Z) (st : state) : result state :=
  if mouse_dragging st && rotation_enabled st then
    match last_mouse_pos st with
    | None => Raise TypeError
    | Some last =>
        let dx := (pos.1 - last.1)%Z in
        let dy := (pos.2 - last.2)%Z in
        Ok {| trials := trials st;
              current_trial := current_trial st;
              results := results st;
              start_time := start_time st;
              response_rot_x := (response_rot_x st + IZR dy * 0.5)%R;
              response_rot_y := (response_rot_y st + IZR dx * 0.5)%R;
              mouse_dragging := mouse_dragging st;
              last_mouse_pos := Some pos;
              current_trial_data := current_trial_data st;
              rotation_enabled := rotation_enabled st;
              running := running st;
              rotation := rotation st |}
    end
  else Ok st.

(** Lines 299-387: the body of [for event in pygame.event.get()]. *)
Definition handle_event (e : event) (st : state) : result (state * control) :=
  match e with
  | QUIT => Ok (stop st, Continue)
  | KEYDOWN K_ESCAPE _ _ => Ok (stop st, Continue)
  | KEYDOWN K_s now now' => on_key_s now now' st
  | KEYDOWN K_d now now' => on_key_d now now' st
  | KEYDOWN K_other _ _ => Ok (st, Continue)
  | MOUSEBUTTONDOWN button pos => Ok (on_mouse_button_down button pos st, Continue)
  | MOUSEBUTTONUP button => Ok (on_mouse_button_up button st, Continue)
  | MOUSEMOTION pos => try st' := on_mouse_motion pos st in Ok (st', Continue)
  | OTHER => Ok (st, Continue)
  end.

(** Line 298: the [for] loop over the events of one frame; [break] drops the
    events that are left. *)
Fixpoint process_events (events : list event) (st : state) : result state :=
  match events with
  | [] => Ok st
  | e :: events' =>
      try (st', c) := handle_event e st in
      match c with
      | Break => Ok st'
      | Continue => process_events events' st'
      end
  end.

(** Line 407: [stimulus.get('rotation', {'x': 0, 'y': 0, 'z': 0})] *)
Definition stimulus_rotation (stimulus : dict) : pyval :=
  dict_get stimulus "rotation" (PDict [("x", PInt 0); ("y", PInt 0); ("z", PInt 0)]).

(** Lines 406-407: the rendering code binds [rotation]. *)
Definition bind_rotation (st : state) : state :=
  let stimulus := Trial.stimulus (current_trial_data st) in
  {| trials := trials st;
     current_trial := current_trial st;
     results := results st;
     start_time := start_time st;
     response_rot_x := response_rot_x st;
     response_rot_y := response_rot_y st;
     mouse_dragging := mouse_dragging st;
     last_mouse_pos := last_mouse_pos st;
     current_trial_data := current_trial_data st;
     rotation_enabled := rotation_enabled st;
     running := running st;
     rotation := Some (stimulus_rotation stimulus) |}.

Section Loop.

(** [draw_figure_from_data(figure_data, rotation, additional_rot_x,
    additional_rot_y)] issues OpenGL calls and changes no variable of the
    session; it raises when the figure or the rotation lacks what it reads. *)
Variable draw_figure_from_data : pyval → pyval → R → R → result unit.

(** Lines 389-424: the rendering at the end of a frame. *)
Definition render (st : state) : result state :=
  let stimulus := Trial.stimulus (current_trial_data st) in
  let rotation := stimulus_rotation stimulus in
  let st := bind_rotation st in
  try figure_left := dict_getitem stimulus "figure_left" in
  try _ := draw_figure_from_data figure_left rotation 0 0 in
  try figure_right := dict_getitem stimulus "figure_right" in
  try _ :=
    (if rotation_enabled st then
       draw_figure_from_data figure_right rotation
         (response_rot_x st) (response_rot_y st)
     else draw_figure_from_data figure_right rotation 0 0) in
  Ok st.

(** Lines 294-424: [while running], one list of events per frame. The
    session is over when [running] is false; when the frames given run out
    first, the state reached is returned as it is. *)
Fixpoint main_loop (frames : list (list event)) (st : state) : result state :=
  match frames with
  | [] => Ok st
  | events :: frames' =>
      if running st then
        try st := process_events events st in
        try st := render st in
        main_loop frames' st
      else Ok st
  end.

End Loop.

(** ** Automatic ADE analysis *)

Section Ade.

(** [scipy.stats.linregress(x, y)]: slope, intercept, r, p, standard error;
    it raises on input it cannot fit. The angles are the [initial_angle]
    values of the results, the times their [response_time]s. *)
Variable linregress : list pyval → list R → result (R * R * R * R * R).

(** The local variables of [make_plot] that hold the two fits. *)
Record plot_fits : Type := {
  slope_c : R; intercept_c : R; r_c : R; p_c : R;
  slope_i : R; intercept_i : R; r_i : R; p_i : R
}.

(** Lines 163-205. The entries of [results_dict] carry the fields of
    [TrialResult] under the same names, so a [TrialResult.t] stands for the
    dictionary. The matplotlib calls are not modelled. *)
Definition make_plot (data : list TrialResult.t) : result plot_fits :=
  let correct := filter (λ r, truthy (TrialResult.is_correct r)) data in
  let incorrect := filter (λ r, negb (truthy (TrialResult.is_correct r))) data in
  let correct_angles := TrialResult.initial_angle <$> correct in
  let correct_times := TrialResult.response_time <$> correct in
  let incorrect_angles := TrialResult.initial_angle <$> incorrect in
  let incorrect_times := TrialResult.response_time <$> incorrect in
  try (slope_c, intercept_c, r_c, p_c) :=
    (if bool_decide (2 ≤ length correct_angles) then
       try (slope, intercept, r, p, _) := linregress correct_angles correct_times in
       Ok (slope, intercept, r, p)
     else Ok (0, 0, 0, 1)%R) in
  try (slope_i, intercept_i, r_i, p_i) :=
    (if bool_decide (2 ≤ length incorrect_angles) then
       try (slope, intercept, r, p, _) := linregress incorrect_angles incorrect_times in
       Ok (slope, intercept, r, p)
     else Ok (0, 0, 0, 1)%R) in
  Ok {| slope_c := slope_c; intercept_c := intercept_c; r_c := r_c; p_c := p_c;
        slope_i := slope_i; intercept_i := intercept_i; r_i := r_i; p_i := p_i |}.

(** Lines 153-213. The value is the pair of fits of the plots that were
    made: first "Avec rotation", then "Sans rotation"; [None] for a plot
    that was skipped. *)
Definition analyze_ade_automatically (results_dict : list TrialResult.t)
    : result (option plot_fits * option plot_fits) :=
  match results_dict with
  | [] => Ok (None, None)
  | _ =>
      let rotables := filter (λ r, TrialResult.rotation_enabled r) results_dict in
      let non_rotables :=
        filter (λ r, negb (TrialResult.rotation_enabled r)) results_dict in
      try plot1 :=
        (match rotables with
         | [] => Ok None
         | _ => try fits := make_plot rotables in Ok (Some fits)
         end) in
      try plot2 :=
        (match non_rotables with
         | [] => Ok None
         | _ => try fits := make_plot non_rotables in Ok (Some fits)
         end) in
      Ok (plot1, plot2)
  end.

End Ade.

(** ** Summary of the session *)

(** What [show_results] prints: the totals, then for each rotation condition
    that has a result the number of correct results, the number of results
    and the percentage, then the two means. *)
Record summary : Type := {
  total : nat;
  correct : nat;
  accuracy : R;
  with_rotation : option (nat * nat * R);
  without_rotation : option (nat * nat * R);
  avg_time : R;
  avg_disparity : R
}.

(** [sum(1 for r in results if r.is_correct)] *)
Definition count_correct (results : list TrialResult.t) : nat :=
  length (filter (λ r, truthy (TrialResult.is_correct r)) results).

(** [sum(x for ...)]: Python's [sum] adds from the left, starting at 0. *)
Definition py_sum (xs : list R) : R := foldl Rplus 0%R xs.

(** Lines 238-244, the same text for both conditions. *)
Definition show_condition (group : list TrialResult.t) : option (nat * nat * R) :=
  match group with
  | [] => None
  | _ =>
      let correct_g := count_correct group in
      Some (correct_g, length group,
            (INR correct_g / INR (length group) * 100)%R)
  end.

(** Lines 216-252. The early [return] gives [None]. *)
Definition show_results (results : list TrialResult.t) : option summary :=
  match results with
  | [] => None
  | _ =>
      let total := length results in
      let correct := count_correct results in
      let accuracy :=
        if bool_decide (0 < total) then (INR correct / INR total * 100)%R
        else 0%R in
      let with_rotation :=
        filter (λ r, TrialResult.rotation_enabled r) results in
      let without_rotation :=
        filter (λ r, negb (TrialResult.rotation_enabled r)) results in
      let avg_time :=
        (py_sum (TrialResult.response_time <$> results) / INR (length results))%R in
      let avg_disparity :=
        (py_sum (TrialResult.disparity <$> results) / INR (length results))%R in
      Some {| total := total;
              correct := correct;
              accuracy := accuracy;
              with_rotation := show_condition with_rotation;
              without_rotation := show_condition without_rotation;
              avg_time := avg_time;
              avg_disparity := avg_disparity |}
  end.

End Experiment.

(** * experiments/analyze_ade.py *)

Module AnalyzeAde.

(** One record of [experiment_results.json], with the keys the analysis
    reads. *)
Record row : Type := {
  is_correct : pyval;
  initial_angle : pyval;
  response_time : pyval
}.

(** The statistics [analyze_ade] holds for one of its two partitions. *)
Record stats : Type := {
  r : R; p : R;
  slope : R; intercept : R; r_reg : R; p_reg : R; std_err : R
}.

Section Analysis.

(** [scipy.stats.pearsonr] and [scipy.stats.linregress]; both raise on
    input they cannot handle. *)
Variable pearsonr : list pyval → list pyval → result (R * R).
Variable linregress : list pyval → list pyval → result (R * R * R * R * R).

Definition calculate_correlation (x y : list pyval) : result (R * R) :=
  if bool_decide (length x < 2) then Ok (0, 1)%R
  else
    try (r, p) := pearsonr x y in
    Ok (r, p).

(** Lines 39-71 of [analyze_ade]; what follows them draws and prints the
    values computed here. The early [return] gives [None]. *)
Definition analyze_ade (results : list row) : result (option (stats * stats)) :=
  match results with
  | [] => Ok None
  | _ =>
      let correct_results := filter (λ r, truthy (is_correct r)) results in
      let incorrect_results := filter (λ r, negb (truthy (is_correct r))) results in
      let correct_angles := initial_angle <$> correct_results in
      let correct_times := response_time <$> correct_results in
      let incorrect_angles := initial_angle <$> incorrect_results in
      let incorrect_times := response_time <$> incorrect_results in
      try correct :=
        (if bool_decide (2 ≤ length correct_angles) then
           try (r_correct, p_correct) :=
             calculate_correlation correct_angles correct_times in
           try (slope_correct, intercept_correct, r_correct_reg, p_correct_reg,
                std_err_correct) := linregress correct_angles correct_times in
           Ok {| r := r_correct; p := p_correct;
                 slope := slope_correct; intercept := intercept_correct;
                 r_reg := r_correct_reg; p_reg := p_correct_reg;
                 std_err := std_err_correct |}
         else
           Ok {| r := 0; p := 1;
                 slope := 0; intercept := 0; r_reg := 0; p_reg := 1;
                 std_err := 0 |}) in
      try incorrect :=
        (if bool_decide (2 ≤ length incorrect_angles) then
           try (r_incorrect, p_incorrect) :=
             calculate_correlation incorrect_angles incorrect_times in
           try (slope_incorrect, intercept_incorrect, r_incorrect_reg,
                p_incorrect_reg, std_err_incorrect) :=
             linregress incorrect_angles incorrect_times in
           Ok {| r := r_incorrect; p := p_incorrect;
                 slope := slope_incorrect; intercept := intercept_incorrect;
                 r_reg := r_incorrect_reg; p_reg := p_incorrect_reg;
                 std_err := std_err_incorrect |}
         else
           Ok {| r := 0; p := 1;
                 slope := 0; intercept := 0; r_reg := 0; p_reg := 1;
                 std_err := 0 |}) in
      Ok (Some (correct, incorrect))
  end.

End Analysis.

(** ** The results file *)

(** [for r in v]: the elements of a list, the keys of a dictionary, the
    characters of a string; nothing else that JSON holds can be iterated. *)
Definition py_iter (v : pyval) : result (list pyval) :=
  match v with
  | PList l => Ok l
  | PDict d => Ok ((λ kv, PStr kv.1) <$> d)
  | PStr s => Ok ((λ c, PStr (String c EmptyString)) <$> String.list_ascii_of_string s)
  | _ => Raise TypeError
  end.

(** [[r for r in results if r['is_correct']]] for [keep = true], and
    [[r for r in results if not r['is_correct']]] for [keep = false]. *)
Fixpoint select (keep : bool) (results : list pyval) : result (list pyval) :=
  match results with
  | [] => Ok []
  | r :: results' =>
      try flag := py_getitem r "is_correct" in
      try rest := select keep results' in
      Ok (if Bool.eqb (truthy flag) keep then r :: rest else rest)
  end.

(** [[r[key] for r in rows]] *)
Fixpoint column (key : string) (rows : list pyval) : result (list pyval) :=
  match rows with
  | [] => Ok []
  | r :: rows' =>
      try v := py_getitem r key in
      try vs := column key rows' in
      Ok (v :: vs)
  end.

Section ResultsFile.

Variable json_load : string → result pyval.
Variable pearsonr : list pyval → list pyval → result (R * R).
Variable linregress : list pyval → list pyval → result (R * R * R * R * R).

(** Lines 15-28; [full_path] is the path after [os.path.join]. A missing
    file gives [None]. *)
Definition load_results (fs : filesystem) (full_path : string) : result pyval :=
  match fs full_path with
  | None => Ok PNone
  | Some text =>
      try data := json_load text in
      Ok data
  end.

(** Lines 39-71 of [analyze_ade] on the value [json.load] returned, the
    records still being Python objects. *)
Definition analyze_ade_json (results : pyval) : result (option (stats * stats)) :=
  if negb (truthy results) then Ok None
  else
    try records := py_iter results in
    try correct_results := select true records in
    try incorrect_results := select false records in
    try correct_angles := column "initial_angle" correct_results in
    try correct_times := column "response_time" correct_results in
    try incorrect_angles := column "initial_angle" incorrect_results in
    try incorrect_times := column "response_time" incorrect_results in
    try correct :=
      (if bool_decide (2 ≤ length correct_angles) then
         try (r_correct, p_correct) :=
           calculate_correlation pearsonr correct_angles correct_times in
         try (slope_correct, intercept_correct, r_correct_reg, p_correct_reg,
              std_err_correct) := linregress correct_angles correct_times in
         Ok {| r := r_correct; p := p_correct;
               slope := slope_correct; intercept := intercept_correct;
               r_reg := r_correct_reg; p_reg := p_correct_reg;
               std_err := std_err_correct |}
       else
         Ok {| r := 0; p := 1;
               slope := 0; intercept := 0; r_reg := 0; p_reg := 1;
               std_err := 0 |}) in
    try incorrect :=
      (if bool_decide (2 ≤ length incorrect_angles) then
         try (r_incorrect, p_incorrect) :=
           calculate_correlation pearsonr incorrect_angles incorrect_times in
         try (slope_incorrect, intercept_incorrect, r_incorrect_reg,
              p_incorrect_reg, std_err_incorrect) :=
           linregress incorrect_angles incorrect_times in
         Ok {| r := r_incorrect; p := p_incorrect;
               slope := slope_incorrect; intercept := intercept_incorrect;
               r_reg := r_incorrect_reg; p_reg := p_incorrect_reg;
               std_err := std_err_incorrect |}
       else
         Ok {| r := 0; p := 1;
               slope := 0; intercept := 0; r_reg := 0; p_reg := 1;
               std_err := 0 |}) in
    Ok (Some (correct, incorrect)).

(** Lines 173-181: [main]. The value is what the analysis computed, [None]
    when [main] only prints how to produce the results. *)
Definition main (fs : filesystem) (full_path : string)
    : result (option (stats * stats)) :=
  try results := load_results fs full_path in
  if truthy results then analyze_ade_json results
  else Ok None.

End ResultsFile.

End AnalyzeAde.

(** * draw_first_stimulus.py *)

Module Labeler.

Definition json_path : string := "stimuli_data.json".

Section Codec.

(** [json.load] on the text of a file, and [json.dumps(obj, separators=
    (',', ':'))]. *)
Variable json_load : string → result pyval.
Variable json_dumps : pyval → string.

Definition load_all_stimuli (fs : filesystem) (json_path : string) : result pyval :=
  try text := read_file fs json_path in
  try data := json_load text in
  if negb (truthy data) then Raise ValueError
  else Ok data.

(** The module-level variables of the script, and the files it works on. *)
Record state : Type := {
  all_stimuli : list pyval;
  current_index : nat;
  right_rotation_x : R;
  right_rotation_y : R;
  mouse_dragging : bool;
  last_mouse_pos : option (Z * Z);
  disk : filesystem
}.

(** Lines 69-77: the text the [with open(json_path, 'w')] block writes. *)
Definition file_lines (data : list pyval) : list string :=
  imap (λ i obj,
          let obj_str := json_dumps obj in
          obj_str
          +:+ (if bool_decide (i < length data - 1) then "," else "")
          +:+ newline)
       data.

Definition file_text (data : list pyval) : string :=
  ("[" +:+ newline) +:+ String.concat "" (file_lines data) +:+ "]".

(** Lines 61-79. [data[current_index] = ...] is an item assignment: on a
    list it needs the index to exist; numbers, strings, booleans and [None]
    do not support it. A JSON object in the file would accept it under an
    integer key, which a [dict] here cannot hold: that path is left out. *)
Definition save_stimulus_to_json (st : state) : result state :=
  try text := read_file (disk st) json_path in
  try data := json_load text in
  try stimulus :=
    (match all_stimuli st !! current_index st with
     | Some s => Ok s
     | None => Raise IndexError
     end) in
  try data :=
    (match data with
     | PList l =>
         if bool_decide (current_index st < length l)
         then Ok (<[current_index st := stimulus]> l)
         else Raise IndexError
     | PDict _ => Raise Unmodelled
     | _ => Raise TypeError
     end) in
  Ok {| all_stimuli := all_stimuli st;
        current_index := current_index st;
        right_rotation_x := right_rotation_x st;
        right_rotation_y := right_rotation_y st;
        mouse_dragging := mouse_dragging st;
        last_mouse_pos := last_mouse_pos st;
        disk := write_file (disk st) json_path (file_text data) |}.

(** [all_stimuli[current_index]['is_mirror'] = value] *)
Definition set_is_mirror (value : bool) (st : state) : result state :=
  match all_stimuli st !! current_index st with
  | None => Raise IndexError
  | Some (PDict d) =>
      Ok {| all_stimuli :=
              <[current_index st := PDict (dict_setitem "is_mirror" (PBool value) d)]>
                (all_stimuli st);
            current_index := current_index st;
            right_rotation_x := right_rotation_x st;
            right_rotation_y := right_rotation_y st;
            mouse_dragging := mouse_dragging st;
            last_mouse_pos := last_mouse_pos st;
            disk := disk st |}
  | Some _ => Raise TypeError
  end.

(** Lines 122-126: key S, "same". *)
Definition on_key_s (st : state) : result state :=
  try st := set_is_mirror false st in
  save_stimulus_to_json st.

(** Lines 127-131: key D, "different". *)
Definition on_key_d (st : state) : result state :=
  try st := set_is_mirror true st in
  save_stimulus_to_json st.

Inductive key : Type := K_RIGHT | K_LEFT | K_s | K_d | K_other.

Inductive event : Type :=
| QUIT
| KEYDOWN (k : key)
| MOUSEBUTTONDOWN (button : Z) (pos : Z * Z)
| MOUSEBUTTONUP (button : Z)
| MOUSEMOTION (pos : Z * Z)
| OTHER.

(** Lines 108-121: the arrow keys move to stimulus [index] of the
    collection, given as a Python integer taken modulo its length, reset the
    rotation of the right figure and print the ['id'] and the ['angle'] of
    the stimulus. *)
Definition go_to (index : Z) (st : state) : result state :=
  let len := Z.of_nat (length (all_stimuli st)) in
  if bool_decide (len = 0%Z) then Raise ZeroDivisionError
  else
    let current_index := Z.to_nat (index `mod` len) in
    try stimulus :=
      (match all_stimuli st !! current_index with
       | Some s => Ok s
       | None => Raise IndexError
       end) in
    try _ := py_getitem stimulus "id" in
    try _ := py_getitem stimulus "angle" in
    Ok {| all_stimuli := all_stimuli st;
          current_index := current_index;
          right_rotation_x := 0;
          right_rotation_y := 0;
          mouse_dragging := mouse_dragging st;
          last_mouse_pos := last_mouse_pos st;
          disk := disk st |}.

(** Lines 139-148 *)
Definition on_mouse_motion (pos : Z * Z) (st : state) : result state :=
  if mouse_dragging st then
    match last_mouse_pos st with
    | None => Raise TypeError
    | Some last =>
        let dx := (pos.1 - last.1)%Z in
        let dy := (pos.2 - last.2)%Z in
        Ok {| all_stimuli := all_stimuli st;
              current_index := current_index st;
              right_rotation_x := (right_rotation_x st + IZR dy * 0.5)%R;
              right_rotation_y := (right_rotation_y st + IZR dx * 0.5)%R;
              mouse_dragging := mouse_dragging st;
              last_mouse_pos := Some pos;
              disk := disk st |}
    end
  else Ok st.

(** Lines 103-148: the body of [for event in pygame.event.get()]. [QUIT]
    ends the program through [quit()]. *)
Definition handle_event (e : event) (st : state) : result state :=
  match e with
  | QUIT => Raise SystemExit
  | KEYDOWN K_RIGHT => go_to (Z.of_nat (current_index st) + 1) st
  | KEYDOWN K_LEFT => go_to (Z.of_nat (current_index st) - 1) st
  | KEYDOWN K_s => on_key_s st
  | KEYDOWN K_d => on_key_d st
  | KEYDOWN K_other => Ok st
  | MOUSEBUTTONDOWN button pos =>
      if bool_decide (button = 1%Z) then
        Ok {| all_stimuli := all_stimuli st;
              current_index := current_index st;
              right_rotation_x := right_rotation_x st;
              right_rotation_y := right_rotation_y st;
              mouse_dragging := true;
              last_mouse_pos := Some pos;
              disk := disk st |}
      else Ok st
  | MOUSEBUTTONUP button =>
      if bool_decide (button = 1%Z) then
        Ok {| all_stimuli := all_stimuli st;
              current_index := current_index st;
              right_rotation_x := right_rotation_x st;
              right_rotation_y := right_rotation_y st;
              mouse_dragging := false;
              last_mouse_pos := last_mouse_pos st;
              disk := disk st |}
      else Ok st
  | MOUSEMOTION pos => on_mouse_motion pos st
  | OTHER => Ok st
  end.

End Codec.

End Labeler.

(** * experiments/experience2.py *)

Module Experience2.

Record convergence : Type := {
  canonical_same : R;
  std_same : R;
  canonical_different : R;
  std_different : R
}.

(** [[t[-25:] for t in trajectoires if len(t) >= 25]] *)
Definition finales (trajectoires : list (list R)) : list (list R) :=
  (λ t, drop (length t - 25) t) <$> filter (λ t, 25 ≤ length t) trajectoires.

Section Convergence.

(** [np.mean] and [np.std] of a sequence of numbers. *)
Variable np_mean : list R → R.
Variable np_std : list R → R.

(** Lines 47-79 *)
Definition analyser_convergence
    (trajectoires_same trajectoires_different : list (list R)) : convergence :=
  let finales_same := finales trajectoires_same in
  let finales_different := finales trajectoires_different in
  let '(moyenne_same, std_same) :=
    match finales_same with
    | [] => (0, 0)%R
    | _ => (np_mean (np_mean <$> finales_same),
            np_std (np_mean <$> finales_same))
    end in
  let '(moyenne_different, std_different) :=
    match finales_different with
    | [] => (0, 0)%R
    | _ => (np_mean (np_mean <$> finales_different),
            np_std (np_mean <$> finales_different))
    end in
  {| canonical_same := moyenne_same;
     std_same := std_same;
     canonical_different := moyenne_different;
     std_different := std_different |}.

End Convergence.

End Experience2.

(** * experiments/experience3.py *)

Module Experience3.

(** The statistics of one bin. *)
Record bin_stats : Type := {
  temps_mentale : R;
  temps_physique : R;
  erreur_mentale : R;
  erreur_physique : R;
  n : nat
}.

Definition bins : list Z := [0; 30; 60; 90; 120; 150; 180]%Z.

Definition labels : list string :=
  ["0-30°"; "30-60°"; "60-90°"; "90-120°"; "120-150°"; "150-180°"].

(** One entry of [(disparites >= bin_min) & (disparites < bin_max)]; the
    comparison of a float with an integer bound is exact. *)
Definition in_bin (bin_min bin_max : Z) (d : R) : bool :=
  (if Rle_dec (IZR bin_min) d then true else false)
  && (if Rlt_dec d (IZR bin_max) then true else false).

(** [array[mask]]: the entries of the array where the mask is true; numpy
    raises [IndexError] when the mask does not have the length of the
    array. *)
Definition masked (mask : list bool) (array : list R) : result (list R) :=
  if bool_decide (length mask = length array)
  then Ok (snd <$> filter (λ entry : bool * R, entry.1) (zip mask array))
  else Raise IndexError.

Section Bins.

(** [np.mean] of a selection that is not empty. *)
Variable np_mean : list R → R.

(** Lines 86-92: the dictionary of one bin. The arrays are numpy arrays of
    numbers, the errors being 0 or 1. *)
Definition stats_bin (mask : list bool)
    (temps_mentale temps_physique erreurs_mentale erreurs_physique : list R)
    : result bin_stats :=
  let any := existsb (λ b : bool, b) mask in
  try temps_m :=
    (if any then try xs := masked mask temps_mentale in Ok (np_mean xs)
     else Ok 0%R) in
  try temps_p :=
    (if any then try xs := masked mask temps_physique in Ok (np_mean xs)
     else Ok 0%R) in
  try erreur_m :=
    (if any then try xs := masked mask erreurs_mentale in Ok (np_mean xs * 100)%R
     else Ok 0%R) in
  try erreur_p :=
    (if any then try xs := masked mask erreurs_physique in Ok (np_mean xs * 100)%R
     else Ok 0%R) in
  Ok {| temps_mentale := temps_m;
        temps_physique := temps_p;
        erreur_mentale := erreur_m;
        erreur_physique := erreur_p;
        n := length (filter (λ b : bool, b) mask) |}.

(** Lines 83-92: the loop over the bins, from bin [i] on. *)
Fixpoint par_bin (i : nat) (edges : list (Z * Z))
    (disparites temps_mentale temps_physique erreurs_mentale erreurs_physique
       : list R)
    : result (list (string * bin_stats)) :=
  match edges with
  | [] => Ok []
  | (bin_min, bin_max) :: edges' =>
      let mask := in_bin bin_min bin_max <$> disparites in
      try stats :=
        stats_bin mask temps_mentale temps_physique
          erreurs_mentale erreurs_physique in
      try label :=
        (match labels !! i with
         | Some label => Ok label
         | None => Raise IndexError
         end) in
      try rest :=
        par_bin (S i) edges' disparites temps_mentale temps_physique
          erreurs_mentale erreurs_physique in
      Ok ((label, stats) :: rest)
  end.

(** Lines 63-94; the dictionary returned, in the order of its keys. *)
Definition analyser_par_disparite
    (disparites temps_mentale temps_physique erreurs_mentale erreurs_physique
       : list R)
    : result (list (string * bin_stats)) :=
  par_bin 0 (zip (take (length bins - 1) bins) (drop 1 bins))
    disparites temps_mentale temps_physique erreurs_mentale erreurs_physique.

End Bins.

End Experience3.

(** * Properties *)

Import Experiment.

(** ** Dictionaries *)

Lemma dict_lookup_setitem_eq k v d : dict_lookup k (dict_setitem k v d) = Some v.
Proof.
  induction d as [|[k' v'] d IH]; simpl.
  - by rewrite String.eqb_refl.
  - destruct (String.eqb k k') eqn:E; simpl.
    + by rewrite String.eqb_refl.
    + by rewrite E.
Qed.

Lemma dict_lookup_setitem_ne k k' v d :
  k ≠ k' → dict_lookup k' (dict_setitem k v d) = dict_lookup k' d.
Proof.
  intros Hne. induction d as [|[k0 v0] d IH]; simpl.
  - destruct (String.eqb_spec k' k); congruence.
  - destruct (String.eqb_spec k k0) as [->|]; simpl.
    + destruct (String.eqb_spec k' k0); congruence.
    + by rewrite IH.
Qed.

(** ** Angular disparity *)

Lemma sum_squares_nonneg (x y : R) : (0 <= x * x + y * y)%R.
Proof. nra. Qed.

Lemma sum_squares_zero (x y : R) : (x * x + y * y = 0)%R ↔ x = 0%R ∧ y = 0%R.
Proof. split; [intros H; split; nra | intros [-> ->]; lra]. Qed.

(** On the real numbers [calculate_angular_disparity] is the Euclidean norm
    [sqrt (rot_x² + rot_y²)] of the two accumulators: never negative, 0
    exactly when both accumulators are 0, and without influence of the
    initial-angle argument. *)
Theorem calculate_angular_disparity_norm (initial_angle_y : pyval) (rot_x rot_y : R) :
  calculate_angular_disparity initial_angle_y rot_x rot_y
    = sqrt (rot_x ^ 2 + rot_y ^ 2)
  ∧ (0 <= calculate_angular_disparity initial_angle_y rot_x rot_y)%R
  ∧ (calculate_angular_disparity initial_angle_y rot_x rot_y = 0%R
     ↔ rot_x = 0%R ∧ rot_y = 0%R)
  ∧ (∀ other_angle,
       calculate_angular_disparity other_angle rot_x rot_y
       = calculate_angular_disparity initial_angle_y rot_x rot_y).
Proof.
  unfold calculate_angular_disparity. split; [|split; [|split]].
  - f_equal. ring.
  - apply sqrt_pos.
  - split.
    + intros Hzero. apply sum_squares_zero.
      apply sqrt_eq_0; [apply sum_squares_nonneg | exact Hzero].
    + intros [-> ->]. replace (0 * 0 + 0 * 0)%R with 0%R by ring. apply sqrt_0.
  - reflexivity.
Qed.

Example disparity_3_4 : calculate_angular_disparity PNone 3 4 = 5%R.
Proof.
  unfold calculate_angular_disparity.
  replace (3 * 3 + 4 * 4)%R with (5 * 5)%R by lra.
  apply sqrt_square. lra.
Qed.

(** *** On binary64 floats *)

(** A float that is not [nan] and does not carry the minus sign. *)
Definition not_negative (x : Binary64.float) : Prop :=
  match x with
  | S754_zero s | S754_infinity s | S754_finite s _ _ => s = false
  | S754_nan => False
  end.

Lemma shr_1_nonneg mrs : (0 ≤ shr_m mrs)%Z → (0 ≤ shr_m (shr_1 mrs))%Z.
Proof.
  destruct mrs as [m r s]. simpl.
  destruct m as [|[p|p|]|[p|p|]]; simpl; lia.
Qed.

Lemma iter_pos_shr_1_nonneg p mrs :
  (0 ≤ shr_m mrs)%Z → (0 ≤ shr_m (SpecFloat.iter_pos shr_1 p mrs))%Z.
Proof.
  revert mrs. induction p as [p IH|p IH|]; intros mrs Hm; simpl.
  - apply IH, IH. by apply shr_1_nonneg.
  - by apply IH, IH.
  - by apply shr_1_nonneg.
Qed.

Lemma shr_fexp_nonneg m e l :
  (0 ≤ m)%Z → (0 ≤ shr_m (shr_fexp 53 1024 m e l).1)%Z.
Proof.
  intros Hm. unfold shr_fexp, shr.
  assert (0 ≤ shr_m (shr_record_of_loc m l))%Z as Hrecord
    by (destruct l as [|[]]; simpl; lia).
  destruct (fexp 53 1024 (Zdigits2 m + e) - e)%Z; simpl; try done.
  by apply iter_pos_shr_1_nonneg.
Qed.

Lemma round_nearest_even_nonneg m l : (0 ≤ m)%Z → (0 ≤ round_nearest_even m l)%Z.
Proof.
  intros Hm. destruct l as [|[]]; simpl; try lia.
  destruct (Z.even m); lia.
Qed.

(** Rounding a mantissa that is not negative gives a float with the sign
    asked for, never [nan]. *)
Lemma binary_round_aux_sign s m e l :
  (0 ≤ m)%Z →
  match binary_round_aux 53 1024 s m e l with
  | S754_zero s' | S754_infinity s' | S754_finite s' _ _ => s' = s
  | S754_nan => False
  end.
Proof.
  intros Hm. unfold binary_round_aux.
  pose proof (shr_fexp_nonneg m e l Hm) as H1.
  destruct (shr_fexp 53 1024 m e l) as [mrs' e']. simpl in H1.
  pose proof (shr_fexp_nonneg _ e' loc_Exact
                (round_nearest_even_nonneg _ (loc_of_shr_record mrs') H1)) as H2.
  destruct (shr_fexp 53 1024 _ e' loc_Exact) as [mrs'' e'']. simpl in H2.
  destruct (shr_m mrs'') as [|p|p]; [done| |lia].
  by destruct (e'' <=? 1024 - 53)%Z.
Qed.

Lemma float_mul_self_not_negative (x : Binary64.float) :
  Binary64.is_nan x = false → not_negative (Binary64.float_mul x x).
Proof.
  destruct x as [s|s| |s m e]; simpl; intros Hnan; try done.
  - by destruct s.
  - by destruct s.
  - pose proof (binary_round_aux_sign (xorb s s) (Z.pos (m * m)) (e + e)
                  loc_Exact ltac:(lia)) as Hsign.
    unfold not_negative.
    destruct (binary_round_aux 53 1024 _ _ _ _); try done;
      rewrite Hsign; by destruct s.
Qed.

Lemma float_add_not_negative (x y : Binary64.float) :
  not_negative x → not_negative y → not_negative (Binary64.float_add x y).
Proof.
  destruct x as [sx|sx| |sx mx ex], y as [sy|sy| |sy my ey]; simpl;
    try done; try (by intros -> ->).
  intros -> ->. unfold binary_normalize. simpl.
  unfold binary_round.
  destruct (shl_align _ _ _) as [mz ez].
  pose proof (binary_round_aux_sign false (Z.pos mz) ez loc_Exact ltac:(lia))
    as Hsign.
  by destruct (binary_round_aux 53 1024 _ _ _ _).
Qed.

Lemma SFsqrt_core_binary_nonneg m e :
  (0 ≤ (SFsqrt_core_binary 53 1024 (Z.pos m) e).1.1)%Z.
Proof.
  unfold SFsqrt_core_binary.
  match goal with
  | |- context [Z.sqrtrem ?n] =>
      assert (0 ≤ n)%Z as Hn;
      [|pose proof (Z.sqrtrem_spec n Hn) as Hspec;
        destruct (Z.sqrtrem n) as [q r]; simpl; lia]
  end.
  destruct (e - 2 * _)%Z as [|p|p]; [lia| |lia].
  apply Z.shiftl_nonneg. lia.
Qed.

Lemma math_sqrt_not_negative (x : Binary64.float) :
  not_negative x →
  Binary64.math_sqrt x = Ok (SFsqrt 53 1024 x) ∧ not_negative (SFsqrt 53 1024 x).
Proof.
  destruct x as [s|s| |s m e]; simpl; try done; intros ->; try done.
  split; [done|].
  pose proof (SFsqrt_core_binary_nonneg m e) as Hq.
  destruct (SFsqrt_core_binary 53 1024 (Z.pos m) e) as [[mz ez] lz].
  simpl in Hq.
  pose proof (binary_round_aux_sign false mz ez lz Hq) as Hsign.
  by destruct (binary_round_aux 53 1024 _ _ _ _).
Qed.

Lemma not_negative_ge_0 (x : Binary64.float) :
  not_negative x → Binary64.float_ge_0 x = true.
Proof. destruct x as [s|s| |s m e]; simpl; try done; by intros ->. Qed.

(** Two to the power [e], for [e] from -1022 to 1023. *)
Definition two_to_the (e : Z) : Binary64.float :=
  S754_finite false (2 ^ 52) (e - 52).

(** C5, on the floats of the program. [calculate_angular_disparity] never
    raises and returns the float square root of the float sum of the two
    float squares, whatever the initial-angle argument is. The result is
    [nan] exactly when an accumulator is [nan]; otherwise it is [>= 0]. It
    is 0 when both accumulators are 0. *)
Theorem calculate_angular_disparity_binary64
    (initial_angle_y : pyval) (rot_x rot_y : Binary64.float) :
  ∃ disparity,
    Binary64.calculate_angular_disparity initial_angle_y rot_x rot_y
    = Ok disparity
    ∧ disparity
      = SFsqrt 53 1024
          (Binary64.float_add (Binary64.float_mul rot_x rot_x)
                              (Binary64.float_mul rot_y rot_y))
    ∧ (∀ other_angle,
         Binary64.calculate_angular_disparity other_angle rot_x rot_y
         = Ok disparity)
    ∧ (Binary64.is_nan disparity = true
       ↔ Binary64.is_nan rot_x = true ∨ Binary64.is_nan rot_y = true)
    ∧ (Binary64.is_nan rot_x = false → Binary64.is_nan rot_y = false →
         Binary64.float_ge_0 disparity = true)
    ∧ (Binary64.float_eq_0 rot_x = true → Binary64.float_eq_0 rot_y = true →
         disparity = S754_zero false).
Proof.
  unfold Binary64.calculate_angular_disparity.
  destruct (Binary64.is_nan rot_x) eqn:Hx.
  { destruct rot_x; try done. simpl.
    eexists. split; [reflexivity|]. split; [done|]. split; [done|].
    split; [by split; [left|]|]. split; [done|]. done. }
  destruct (Binary64.is_nan rot_y) eqn:Hy.
  { destruct rot_y; try done.
    assert (Binary64.float_add (Binary64.float_mul rot_x rot_x)
              (Binary64.float_mul S754_nan S754_nan) = S754_nan) as ->
      by (simpl; by destruct (Binary64.float_mul rot_x rot_x)).
    simpl. eexists. split; [reflexivity|]. split; [done|]. split; [done|].
    split; [by split; [right|]|]. split; [done|].
    intros _ Hzero. done. }
  pose proof (float_add_not_negative _ _
                (float_mul_self_not_negative _ Hx)
                (float_mul_self_not_negative _ Hy)) as Hsum.
  destruct (math_sqrt_not_negative _ Hsum) as [-> Hroot]. cbn [rbind].
  eexists. split; [reflexivity|]. split; [done|]. split; [done|].
  split; [|split].
  - split; [|by intros [?|?]].
    intros Hnan. by destruct (SFsqrt 53 1024 _).
  - intros _ _. by apply not_negative_ge_0.
  - destruct rot_x as [sx|sx| |sx mx ex], rot_y as [sy|sy| |sy my ey];
      try done; try (by destruct sx); try (by destruct sy).
    intros _ _. by destruct sx, sy.
Qed.

Lemma calculate_angular_disparity_binary64_witness :
  Binary64.calculate_angular_disparity (PInt 40) (two_to_the 600) (two_to_the 1)
  = Ok (S754_infinity false)
  ∧ Binary64.float_ge_0 (S754_infinity false) = true.
Proof.
  destruct (calculate_angular_disparity_binary64 (PInt 40) (two_to_the 600)
              (two_to_the 1))
    as (disparity & Hrun & Hvalue & _ & _ & Hge & _).
  assert (disparity = S754_infinity false) as Hinf
    by (rewrite Hvalue; vm_compute; reflexivity).
  rewrite <- Hinf. split; [exact Hrun|]. by apply Hge.
Defined.

(** C5, as the specification words it, fails on floats. The accumulator
    [2.0 ** -600] is a float other than 0 whose square is below the smallest
    float above 0 and is rounded to 0: with the other accumulator at 0 the
    disparity is 0. And with an accumulator [nan] the disparity is [nan],
    which is not [>= 0]. *)
Lemma calculate_angular_disparity_zero_counterexample :
  valid_binary 53 1024 (two_to_the (-600)) = true
  ∧ Binary64.float_eq_0 (two_to_the (-600)) = false
  ∧ Binary64.calculate_angular_disparity PNone (two_to_the (-600)) (S754_zero false)
    = Ok (S754_zero false)
  ∧ Binary64.float_eq_0 (S754_zero false) = true
  ∧ Binary64.calculate_angular_disparity PNone S754_nan (S754_zero false)
    = Ok S754_nan
  ∧ Binary64.float_ge_0 S754_nan = false.
Proof. vm_compute. by repeat split. Qed.

(** ** Trial plan *)

Section TrialSetProps.

Variable shuffle : list dict → list dict.
Hypothesis shuffle_perm : ∀ l, shuffle l ≡ₚ l.

(** The stimuli the trials are drawn from, after the shuffle. *)
Definition drawn_pool (stimuli : list dict) (n : nat) : list dict :=
  let valid := filter (λ s, has_label s) stimuli in
  shuffle (if bool_decide (length valid < n) then take n stimuli else valid).

Lemma generate_trial_set_unfold stimuli n1 n2 :
  generate_trial_set shuffle stimuli n1 n2 =
  imap (λ i stimulus,
          {| Trial.stimulus := stimulus;
             Trial.rotation_enabled := bool_decide (i < n1);
             Trial.is_mirror := dict_get stimulus "is_mirror" (PBool false) |})
       (take (n1 + n2) (drawn_pool stimuli (n1 + n2))).
Proof. reflexivity. Qed.

Lemma length_shuffle l : length (shuffle l) = length l.
Proof. apply Permutation_length, shuffle_perm. Qed.

Lemma length_valid_le (stimuli : list dict) :
  length (filter (λ s, has_label s) stimuli) ≤ length stimuli.
Proof. apply length_filter. Qed.

Lemma length_drawn_pool stimuli n :
  n `min` length (drawn_pool stimuli n) = n `min` length stimuli.
Proof.
  unfold drawn_pool. rewrite length_shuffle.
  pose proof (length_valid_le stimuli).
  case_bool_decide; [rewrite length_take|]; lia.
Qed.

Lemma length_generate_trial_set stimuli n1 n2 :
  length (generate_trial_set shuffle stimuli n1 n2) = (n1 + n2) `min` length stimuli.
Proof.
  rewrite generate_trial_set_unfold, length_imap, length_take.
  apply length_drawn_pool.
Qed.

Lemma lookup_generate_trial_set stimuli n1 n2 i t :
  generate_trial_set shuffle stimuli n1 n2 !! i = Some t →
  ∃ s, take (n1 + n2) (drawn_pool stimuli (n1 + n2)) !! i = Some s
       ∧ Trial.stimulus t = s
       ∧ Trial.rotation_enabled t = bool_decide (i < n1)
       ∧ Trial.is_mirror t = dict_get s "is_mirror" (PBool false).
Proof.
  rewrite generate_trial_set_unfold, list_lookup_imap.
  destruct (take _ _ !! i) as [s|]; simpl; [|done].
  intros [= <-]. by exists s.
Qed.

Lemma stimuli_generate_trial_set stimuli n1 n2 :
  Trial.stimulus <$> generate_trial_set shuffle stimuli n1 n2
  = take (n1 + n2) (drawn_pool stimuli (n1 + n2)).
Proof.
  rewrite generate_trial_set_unfold.
  generalize (take (n1 + n2) (drawn_pool stimuli (n1 + n2))) as l.
  intros l. apply list_eq; intros i.
  rewrite list_lookup_fmap, list_lookup_imap.
  by destruct (l !! i).
Qed.

(** C3. With at least [n_rotation + n_no_rotation] labelled stimuli the plan
    has exactly that many trials, those at the indices below [n_rotation]
    with rotation enabled and all the others with rotation disabled; and on
    every input the length of the plan is the smaller of the number of
    trials asked for and the number of stimuli in the collection. *)
Theorem generate_trial_set_plan stimuli n_rotation n_no_rotation :
  let plan := generate_trial_set shuffle stimuli n_rotation n_no_rotation in
  length plan = (n_rotation + n_no_rotation) `min` length stimuli
  ∧ (∀ i t, plan !! i = Some t →
       Trial.rotation_enabled t = bool_decide (i < n_rotation))
  ∧ (n_rotation + n_no_rotation ≤ length (filter (λ s, has_label s) stimuli) →
       length plan = n_rotation + n_no_rotation
       ∧ (∀ i, i < n_rotation →
            ∃ t, plan !! i = Some t ∧ Trial.rotation_enabled t = true)
       ∧ (∀ i, n_rotation ≤ i < n_rotation + n_no_rotation →
            ∃ t, plan !! i = Some t ∧ Trial.rotation_enabled t = false)).
Proof.
  intros plan.
  assert (Hlen : length plan = (n_rotation + n_no_rotation) `min` length stimuli)
    by apply length_generate_trial_set.
  assert (Hflag : ∀ i t, plan !! i = Some t →
            Trial.rotation_enabled t = bool_decide (i < n_rotation)).
  { intros i t Ht. by destruct (lookup_generate_trial_set _ _ _ _ _ Ht)
      as (s & _ & _ & ? & _). }
  split; [done|]. split; [done|].
  intros Hvalid. pose proof (length_valid_le stimuli) as Hle.
  assert (Hn : length plan = n_rotation + n_no_rotation) by lia.
  split; [done|]. split.
  - intros i Hi.
    destruct (lookup_lt_is_Some_2 plan i) as [t Ht]; [lia|].
    exists t. split; [done|]. rewrite (Hflag _ _ Ht). by apply bool_decide_eq_true_2.
  - intros i Hi.
    destruct (lookup_lt_is_Some_2 plan i) as [t Ht]; [lia|].
    exists t. split; [done|]. rewrite (Hflag _ _ Ht).
    apply bool_decide_eq_false_2. lia.
Qed.

(** C4, as the code has it. When fewer than [n_rotation + n_no_rotation]
    stimuli are labelled, the trials are built from the first
    [n_rotation + n_no_rotation] stimuli of the unfiltered collection after
    these have been shuffled: the stimuli of the plan are the shuffled
    prefix, a rearrangement of that prefix and not its original order. *)
Theorem generate_trial_set_fallback stimuli n_rotation n_no_rotation :
  length (filter (λ s, has_label s) stimuli) < n_rotation + n_no_rotation →
  let plan := generate_trial_set shuffle stimuli n_rotation n_no_rotation in
  let prefix := take (n_rotation + n_no_rotation) stimuli in
  Trial.stimulus <$> plan = shuffle prefix
  ∧ Trial.stimulus <$> plan ≡ₚ prefix
  ∧ (∀ i t, plan !! i = Some t →
       Trial.rotation_enabled t = bool_decide (i < n_rotation)
       ∧ Trial.is_mirror t = dict_get (Trial.stimulus t) "is_mirror" (PBool false)).
Proof.
  intros Hfew plan prefix.
  assert (Hpool : drawn_pool stimuli (n_rotation + n_no_rotation) = shuffle prefix).
  { unfold drawn_pool. by rewrite bool_decide_eq_true_2. }
  assert (Hst : Trial.stimulus <$> plan = shuffle prefix).
  { unfold plan. rewrite stimuli_generate_trial_set, Hpool.
    apply take_ge. rewrite length_shuffle. unfold prefix.
    rewrite length_take. lia. }
  split; [done|]. split; [by rewrite Hst|].
  intros i t Ht.
  destruct (lookup_generate_trial_set _ _ _ _ _ Ht) as (s & _ & <- & ? & ?).
  done.
Qed.

End TrialSetProps.

(** *** Concrete plans *)

(** A figure of two vertices joined by an edge. *)
Definition unit_edge : pyval :=
  PDict [ ("vertices", PList [ PList [PInt 0; PInt 0; PInt 0];
                               PList [PInt 1; PInt 0; PInt 0] ]);
          ("edges", PList [PList [PInt 0; PInt 1]]);
          ("faces", PList []) ].

(** A stimulus record; without a [label] it has no ['is_mirror'] key. *)
Definition stimulus_record (id : Z) (label : option pyval) : dict :=
  [ ("id", PInt id);
    ("figure_left", unit_edge);
    ("figure_right", unit_edge);
    ("rotation", PDict [("x", PInt 0); ("y", PInt 40); ("z", PInt 0)]);
    ("angle", PInt 40) ]
  ++ match label with
     | Some v => [("is_mirror", v)]
     | None => []
     end.

(** Twenty labelled stimuli, mirrored and not mirrored in alternation. *)
Definition twenty_labelled : list dict :=
  (λ i, stimulus_record (Z.of_nat i) (Some (PBool (Nat.even i)))) <$> seq 0 20.

(** Three stimuli of which only the last one is labelled. *)
Definition mostly_unlabelled : list dict :=
  [ stimulus_record 0 (Some PNone); stimulus_record 1 None;
    stimulus_record 2 (Some (PBool true)) ].

Lemma generate_trial_set_plan_witness :
  let plan := generate_trial_set reverse twenty_labelled 10 10 in
  length plan = 10 + 10
  ∧ (∀ i, i < 10 → ∃ t, plan !! i = Some t ∧ Trial.rotation_enabled t = true)
  ∧ (∀ i, 10 ≤ i < 10 + 10 →
       ∃ t, plan !! i = Some t ∧ Trial.rotation_enabled t = false).
Proof.
  apply (generate_trial_set_plan reverse reverse_Permutation twenty_labelled 10 10).
  vm_compute. lia.
Defined.

Lemma generate_trial_set_fallback_witness :
  let plan := generate_trial_set reverse mostly_unlabelled 1 1 in
  Trial.stimulus <$> plan = reverse (take 2 mostly_unlabelled)
  ∧ Trial.stimulus <$> plan ≡ₚ take 2 mostly_unlabelled
  ∧ (∀ i t, plan !! i = Some t →
       Trial.rotation_enabled t = bool_decide (i < 1)
       ∧ Trial.is_mirror t = dict_get (Trial.stimulus t) "is_mirror" (PBool false)).
Proof.
  apply (generate_trial_set_fallback reverse reverse_Permutation mostly_unlabelled 1 1).
  vm_compute. lia.
Defined.

(** C4, as the specification words it, fails: [reverse] is one of the
    rearrangements [random.shuffle] can produce, only one of these three
    stimuli is labelled while two trials are asked for, and the plan holds
    the first two stimuli in the order 1, 0 instead of 0, 1. *)
Lemma generate_trial_set_fallback_order_counterexample :
  (∀ l : list dict, reverse l ≡ₚ l)
  ∧ length (filter (λ s, has_label s) mostly_unlabelled) < 1 + 1
  ∧ Trial.stimulus <$> generate_trial_set reverse mostly_unlabelled 1 1
    ≠ take (1 + 1) mostly_unlabelled.
Proof.
  split; [apply reverse_Permutation|]. split; [vm_compute; lia|].
  vm_compute. discriminate.
Qed.

(** ** Responses *)

(** What a response key needs in order to be handled without an exception:
    the stimulus of the current trial has an ['id'], and [rotation] has been
    bound (a frame has been drawn) to a dictionary with a ['y']. *)
Definition response_ready (st : state) : Prop :=
  ∃ id rot rot_y,
    dict_lookup "id" (Trial.stimulus (current_trial_data st)) = Some id
    ∧ rotation st = Some rot
    ∧ py_getitem rot "y" = Ok rot_y.

(** The [TrialResult] the two response branches build. *)
Definition built_result (different : bool) (now : R) (st : state)
    (id rot_y : pyval) : TrialResult.t :=
  let mirror := Trial.is_mirror (current_trial_data st) in
  {| TrialResult.trial_number := current_trial st + 1;
     TrialResult.stimulus_id := id;
     TrialResult.is_mirror := mirror;
     TrialResult.user_response := different;
     TrialResult.response_time := (now - start_time st)%R;
     TrialResult.is_correct := if different then mirror else py_not mirror;
     TrialResult.rotation_enabled := rotation_enabled st;
     TrialResult.disparity :=
       calculate_angular_disparity rot_y (response_rot_x st) (response_rot_y st);
     TrialResult.initial_angle :=
       dict_get (Trial.stimulus (current_trial_data st)) "angle" (PFloat 0) |}.

(** The answer a response key stands for: [true] for "different". *)
Definition answer (k : key) : option bool :=
  match k with
  | K_s => Some false
  | K_d => Some true
  | _ => None
  end.

Lemma response_inv k different now now' st st' c :
  answer k = Some different →
  handle_event (KEYDOWN k now now') st = Ok (st', c) →
  ∃ id rot rot_y,
    dict_lookup "id" (Trial.stimulus (current_trial_data st)) = Some id
    ∧ rotation st = Some rot
    ∧ py_getitem rot "y" = Ok rot_y
    ∧ record_and_advance (built_result different now st id rot_y) now' st
      = Ok (st', c).
Proof.
  intros Hk.
  destruct k; simplify_eq/=; unfold on_key_s, on_key_d, dict_getitem, local;
    (destruct (dict_lookup "id" _) as [id|]; simpl; [|done]);
    (destruct (rotation st) as [rot|]; simpl; [|done]);
    (destruct (py_getitem rot "y") as [rot_y|] eqn:Hy; simpl; [|done]);
    intros H; by exists id, rot, rot_y.
Qed.

Lemma response_run k different now now' st id rot rot_y :
  answer k = Some different →
  dict_lookup "id" (Trial.stimulus (current_trial_data st)) = Some id →
  rotation st = Some rot →
  py_getitem rot "y" = Ok rot_y →
  handle_event (KEYDOWN k now now') st
  = record_and_advance (built_result different now st id rot_y) now' st.
Proof.
  intros Hk Hid Hrot Hy.
  destruct k; simplify_eq/=; unfold on_key_s, on_key_d, dict_getitem, local;
    by rewrite Hid, Hrot; simpl; rewrite Hy.
Qed.

Lemma record_and_advance_total r now' st :
  ∃ st' c, record_and_advance r now' st = Ok (st', c).
Proof.
  unfold record_and_advance. case_bool_decide as Hlast; [by eauto|].
  destruct (lookup_lt_is_Some_2 (trials st) (current_trial st + 1)) as [t ->];
    [lia | by eauto].
Qed.

Lemma record_and_advance_inv r now' st st' c :
  record_and_advance r now' st = Ok (st', c) →
  results st' = results st ++ [r]
  ∧ trials st' = trials st
  ∧ current_trial st' = current_trial st + 1
  ∧ match c with
    | Break =>
        length (trials st) ≤ current_trial st + 1
        ∧ running st' = false
        ∧ response_rot_x st' = response_rot_x st
        ∧ response_rot_y st' = response_rot_y st
    | Continue =>
        trials st !! (current_trial st + 1) = Some (current_trial_data st')
        ∧ rotation_enabled st' = Trial.rotation_enabled (current_trial_data st')
        ∧ running st' = running st
        ∧ start_time st' = now'
        ∧ response_rot_x st' = 0%R
        ∧ response_rot_y st' = 0%R
    end.
Proof.
  unfold record_and_advance. case_bool_decide as Hlast.
  - intros [= <- <-]. simpl. repeat split; done.
  - destruct (trials st !! (current_trial st + 1)) as [t|] eqn:Ht; [|done].
    intros [= <- <-]. simpl. repeat split; done.
Qed.

(** C1. Every response that is taken records a result whose [is_correct] is
    the negation of the trial's [is_mirror] for "same" and the trial's
    [is_mirror] itself for "different"; so "same" on a pair that is not
    mirrored and "different" on a mirrored pair are correct, "same" on a
    mirrored pair and "different" on a pair that is not mirrored are
    incorrect. A response is taken whenever the state is [response_ready]. *)
Theorem response_correctness_rule (k : key) (now now' : R) (st : state) :
  k = K_s ∨ k = K_d →
  (response_ready st → ∃ st' c, handle_event (KEYDOWN k now now') st = Ok (st', c))
  ∧ (∀ st' c,
       handle_event (KEYDOWN k now now') st = Ok (st', c) →
       ∃ r, results st' = results st ++ [r]
            ∧ TrialResult.is_mirror r = Trial.is_mirror (current_trial_data st)
            ∧ TrialResult.user_response r = bool_decide (k = K_d)
            ∧ TrialResult.is_correct r
              = (if bool_decide (k = K_s)
                 then py_not (Trial.is_mirror (current_trial_data st))
                 else Trial.is_mirror (current_trial_data st))
            ∧ (∀ mirror : bool,
                 Trial.is_mirror (current_trial_data st) = PBool mirror →
                 TrialResult.is_correct r
                 = PBool (if bool_decide (k = K_s) then negb mirror else mirror))).
Proof.
  intros Hk.
  assert (∃ different, answer k = Some different
                       ∧ bool_decide (k = K_d) = different
                       ∧ bool_decide (k = K_s) = negb different)
    as (different & Hans & Hd & Hs).
  { destruct Hk as [-> | ->]; [by exists false | by exists true]. }
  split.
  - intros (id & rot & rot_y & Hid & Hrot & Hy).
    rewrite (response_run _ _ _ _ _ _ _ _ Hans Hid Hrot Hy).
    apply record_and_advance_total.
  - intros st' c Hrun.
    destruct (response_inv _ _ _ _ _ _ _ Hans Hrun)
      as (id & rot & rot_y & _ & _ & _ & Hadv).
    apply record_and_advance_inv in Hadv as (Hres & _).
    eexists. split; [exact Hres|]. rewrite Hd, Hs. simpl.
    split; [done|]. split; [done|]. split.
    + by destruct different.
    + intros mirror ->. by destruct different.
Qed.

(** *** A concrete session *)

(** The state [start_experiment] builds for a plan that is not empty. *)
Definition opening_state (t : Trial.t) (plan : list Trial.t) (now : R) : state :=
  {| trials := t :: plan;
     current_trial := 0;
     results := [];
     start_time := now;
     response_rot_x := 0;
     response_rot_y := 0;
     mouse_dragging := false;
     last_mouse_pos := None;
     current_trial_data := t;
     rotation_enabled := Trial.rotation_enabled t;
     running := true;
     rotation := None |}.

Lemma start_experiment_cons t plan now :
  start_experiment (t :: plan) now = Ok (opening_state t plan now).
Proof. reflexivity. Qed.

(** A trial with rotation on a pair that is not mirrored, then a trial
    without rotation whose stimulus carries [is_mirror: null]. *)
Definition trial_plain : Trial.t :=
  {| Trial.stimulus := stimulus_record 1 None;
     Trial.rotation_enabled := true;
     Trial.is_mirror := PBool false |}.

Definition trial_null : Trial.t :=
  {| Trial.stimulus := stimulus_record 0 (Some PNone);
     Trial.rotation_enabled := false;
     Trial.is_mirror := PNone |}.

Lemma plan_of_mostly_unlabelled :
  generate_trial_set reverse mostly_unlabelled 1 1 = [trial_plain; trial_null].
Proof. reflexivity. Qed.

(** The session on that plan once its first frame has been drawn. *)
Definition first_frame : state :=
  bind_rotation (opening_state trial_plain [trial_null] 0).

Lemma first_frame_ready : response_ready first_frame.
Proof. by eexists _, _, (PInt 40). Qed.

Lemma response_correctness_rule_witness :
  ∃ st' c r,
    handle_event (KEYDOWN K_s 2 3) first_frame = Ok (st', c)
    ∧ results st' = results first_frame ++ [r]
    ∧ TrialResult.is_correct r = PBool true.
Proof.
  destruct (response_correctness_rule K_s 2 3 first_frame (or_introl eq_refl))
    as [Htaken Hrule].
  destruct (Htaken first_frame_ready) as (st' & c & Hrun).
  destruct (Hrule st' c Hrun) as (r & Hres & _ & _ & _ & Hfour).
  exists st', c, r. split; [exact Hrun|]. split; [exact Hres|].
  exact (Hfour false eq_refl).
Defined.

(** ** Rotation accumulators *)

Definition rotation_zero (st : state) : Prop :=
  response_rot_x st = 0%R ∧ response_rot_y st = 0%R.

Definition is_motion (e : event) : bool :=
  match e with MOUSEMOTION _ => true | _ => false end.

(** The states of a trial from its start up to its first pointer-move event:
    the first trial starts with the session, a later one with the response
    that moves the session on to it; drawing a frame and every event other
    than a pointer move leave the trial where it is, or start the next. *)
Inductive before_first_drag : state → Prop :=
| bfd_session plan now st :
    start_experiment plan now = Ok st → before_first_drag st
| bfd_next k now now' st st' :
    k = K_s ∨ k = K_d →
    handle_event (KEYDOWN k now now') st = Ok (st', Continue) →
    before_first_drag st'
| bfd_event e st st' c :
    before_first_drag st →
    is_motion e = false →
    handle_event e st = Ok (st', c) →
    before_first_drag st'
| bfd_render st :
    before_first_drag st → before_first_drag (bind_rotation st).

Lemma response_advance k now now' st st' c :
  k = K_s ∨ k = K_d →
  handle_event (KEYDOWN k now now') st = Ok (st', c) →
  ∃ id rot_y,
    record_and_advance
      (built_result (bool_decide (k = K_d)) now st id rot_y) now' st
    = Ok (st', c).
Proof.
  intros Hk Hrun.
  assert (answer k = Some (bool_decide (k = K_d))) as Hans
    by (by destruct Hk as [-> | ->]).
  destruct (response_inv _ _ _ _ _ _ _ Hans Hrun)
    as (id & rot & rot_y & _ & _ & _ & Hadv).
  by exists id, rot_y.
Qed.

Lemma handle_event_keeps_zero e st st' c :
  is_motion e = false →
  handle_event e st = Ok (st', c) →
  rotation_zero st → rotation_zero st'.
Proof.
  intros Hmotion Hrun [Hx Hy]. unfold rotation_zero.
  destruct e as [|k now now'|button pos|button|pos|]; simplify_eq/=; try done.
  - destruct k; simplify_eq/=; try done.
    + destruct (response_advance K_s _ _ _ _ _ (or_introl eq_refl) Hrun)
        as (id & rot_y & Hadv).
      apply record_and_advance_inv in Hadv as (_ & _ & _ & Hc).
      destruct c; [tauto | destruct Hc as (_ & _ & -> & ->); done].
    + destruct (response_advance K_d _ _ _ _ _ (or_intror eq_refl) Hrun)
        as (id & rot_y & Hadv).
      apply record_and_advance_inv in Hadv as (_ & _ & _ & Hc).
      destruct c; [tauto | destruct Hc as (_ & _ & -> & ->); done].
  - unfold on_mouse_button_down. by destruct (_ && _).
  - unfold on_mouse_button_up. by case_bool_decide.
Qed.

Lemma before_first_drag_zero st : before_first_drag st → rotation_zero st.
Proof.
  induction 1 as [plan now st Hstart | k now now' st st' Hk Hrun
                 | e st st' c _ IH Hmotion Hrun | st _ IH].
  - unfold start_experiment in Hstart.
    destruct (plan !! 0); by simplify_eq.
  - destruct (response_advance _ _ _ _ _ _ Hk Hrun) as (id & rot_y & Hadv).
    apply record_and_advance_inv in Hadv as (_ & _ & _ & Hc).
    unfold rotation_zero. tauto.
  - by eapply handle_event_keeps_zero.
  - exact IH.
Qed.

Lemma process_events_before_first_drag events st st' :
  forallb (λ e, negb (is_motion e)) events = true →
  before_first_drag st →
  process_events events st = Ok st' →
  before_first_drag st'.
Proof.
  revert st. induction events as [|e events IH]; intros st Hev Hst; simpl.
  - by intros [= <-].
  - apply andb_prop in Hev as [He Hev]. apply negb_true_iff in He.
    destruct (handle_event e st) as [[st1 c]|] eqn:Hrun; simpl; [|done].
    pose proof (bfd_event _ _ _ _ Hst He Hrun) as Hst1.
    destruct c; [by apply IH | by intros [= <-]].
Qed.

Lemma render_inv draw st st' : render draw st = Ok st' → st' = bind_rotation st.
Proof.
  unfold render.
  destruct (dict_getitem _ "figure_left"); simpl; [|done].
  destruct (draw _ _ _ _); simpl; [|done].
  destruct (dict_getitem _ "figure_right"); simpl; [|done].
  destruct (if rotation_enabled _ then _ else _); simpl; [|done].
  by intros [= <-].
Qed.

Lemma main_loop_before_first_drag draw frames st st' :
  forallb (forallb (λ e, negb (is_motion e))) frames = true →
  before_first_drag st →
  main_loop draw frames st = Ok st' →
  before_first_drag st'.
Proof.
  revert st. induction frames as [|events frames IH]; intros st Hfr Hst; simpl.
  - by intros [= <-].
  - apply andb_prop in Hfr as [Hev Hfr].
    destruct (running st); [|by intros [= <-]].
    destruct (process_events events st) as [st1|] eqn:Hrun; simpl; [|done].
    destruct (render draw st1) as [st2|] eqn:Hdraw; simpl; [|done].
    apply render_inv in Hdraw as ->.
    apply IH; [done|]. apply bfd_render.
    by eapply process_events_before_first_drag.
Qed.

(** C6. Both accumulators read 0 when the session starts, and in every state
    a trial is in before its first pointer-move event. A response that moves
    the session on to a next trial appends the result of the trial it
    completes, with the disparity computed from the accumulators as they
    were, and leaves both accumulators at 0 for the trial it starts; a
    response that does not start a next trial ends the session. The states
    the session loop reaches over frames without a pointer move are states
    before a first pointer move. *)
Theorem rotation_zero_at_trial_start :
  (∀ st, before_first_drag st → rotation_zero st)
  ∧ (∀ k now now' st st',
       k = K_s ∨ k = K_d →
       handle_event (KEYDOWN k now now') st = Ok (st', Continue) →
       ∃ r rot_y,
         results st' = results st ++ [r]
         ∧ TrialResult.disparity r
           = calculate_angular_disparity rot_y
               (response_rot_x st) (response_rot_y st)
         ∧ current_trial st' = current_trial st + 1
         ∧ trials st !! (current_trial st + 1) = Some (current_trial_data st')
         ∧ rotation_zero st')
  ∧ (∀ k now now' st st',
       k = K_s ∨ k = K_d →
       handle_event (KEYDOWN k now now') st = Ok (st', Break) →
       running st' = false ∧ length (trials st') ≤ current_trial st')
  ∧ (∀ draw plan now frames st st',
       start_experiment plan now = Ok st →
       forallb (forallb (λ e, negb (is_motion e))) frames = true →
       main_loop draw frames st = Ok st' →
       rotation_zero st').
Proof.
  split; [exact before_first_drag_zero|]. split; [|split].
  - intros k now now' st st' Hk Hrun.
    destruct (response_advance _ _ _ _ _ _ Hk Hrun) as (id & rot_y & Hadv).
    apply record_and_advance_inv in Hadv as (Hres & _ & Hcur & Hnext & _ & _ & _ & Hx & Hy).
    eexists _, rot_y. split; [exact Hres|]. by repeat split.
  - intros k now now' st st' Hk Hrun.
    destruct (response_advance _ _ _ _ _ _ Hk Hrun) as (id & rot_y & Hadv).
    apply record_and_advance_inv in Hadv as (_ & -> & -> & Hlast & Hstop & _).
    by split.
  - intros draw plan now frames st st' Hstart Hframes Hloop.
    apply before_first_drag_zero.
    eapply main_loop_before_first_drag; [exact Hframes| |exact Hloop].
    by eapply bfd_session.
Qed.

(** ** Pointer moves *)

(** The variables of the session other than the two accumulators and the
    pointer position kept for the next move. *)
Definition same_session (st st' : state) : Prop :=
  trials st' = trials st
  ∧ current_trial st' = current_trial st
  ∧ results st' = results st
  ∧ start_time st' = start_time st
  ∧ mouse_dragging st' = mouse_dragging st
  ∧ current_trial_data st' = current_trial_data st
  ∧ rotation_enabled st' = rotation_enabled st
  ∧ running st' = running st
  ∧ rotation st' = rotation st.

(** While a drag is active the position of its last event is known. *)
Definition drag_tracked (st : state) : Prop :=
  mouse_dragging st = true → is_Some (last_mouse_pos st).

Lemma start_experiment_drag_tracked plan now st :
  start_experiment plan now = Ok st → drag_tracked st.
Proof.
  unfold start_experiment. destruct (plan !! 0); [|done].
  intros [= <-]. by intros ?.
Qed.

Lemma handle_event_drag_tracked e st st' c :
  handle_event e st = Ok (st', c) → drag_tracked st → drag_tracked st'.
Proof.
  unfold drag_tracked. intros Hrun Hst.
  destruct e as [|k now now'|button pos|button|pos|]; simplify_eq/=; try done.
  - destruct k; simplify_eq/=; try done.
    + destruct (response_advance K_s _ _ _ _ _ (or_introl eq_refl) Hrun)
        as (id & rot_y & Hadv).
      unfold record_and_advance in Hadv. case_bool_decide; simplify_eq/=; [done|].
      destruct (trials st !! _); by simplify_eq/=.
    + destruct (response_advance K_d _ _ _ _ _ (or_intror eq_refl) Hrun)
        as (id & rot_y & Hadv).
      unfold record_and_advance in Hadv. case_bool_decide; simplify_eq/=; [done|].
      destruct (trials st !! _); by simplify_eq/=.
  - unfold on_mouse_button_down. destruct (_ && _); simpl; eauto.
  - unfold on_mouse_button_up. case_bool_decide; simpl; [done | eauto].
  - unfold on_mouse_motion in Hrun.
    destruct (_ && _); simplify_eq/=; [|done].
    destruct (last_mouse_pos st); simplify_eq/=. eauto.
Qed.

Lemma process_events_drag_tracked events st st' :
  process_events events st = Ok st' → drag_tracked st → drag_tracked st'.
Proof.
  revert st. induction events as [|e events IH]; intros st; simpl.
  - by intros [= <-].
  - destruct (handle_event e st) as [[st1 c]|] eqn:Hrun; simpl; [|done].
    intros Hrest Hst. pose proof (handle_event_drag_tracked _ _ _ _ Hrun Hst).
    destruct c; [by eapply IH | by simplify_eq].
Qed.

(** Every state the session loop reaches tracks its drag. *)
Lemma main_loop_drag_tracked draw plan now frames st st' :
  start_experiment plan now = Ok st →
  main_loop draw frames st = Ok st' →
  drag_tracked st'.
Proof.
  intros Hstart%start_experiment_drag_tracked. revert st Hstart.
  induction frames as [|events frames IH]; intros st Hst; simpl.
  - by intros [= <-].
  - destruct (running st); [|by intros [= <-]].
    destruct (process_events events st) as [st1|] eqn:Hrun; simpl; [|done].
    destruct (render draw st1) as [st2|] eqn:Hdraw; simpl; [|done].
    apply render_inv in Hdraw as ->.
    apply IH. by eapply process_events_drag_tracked in Hrun.
Qed.

(** C7. A pointer-move event never leaves the [for] loop and changes neither
    the trial index nor the result log nor any other variable of the
    session, apart from the accumulators and the pointer position kept for
    the next move. While a drag is active in a trial with rotation enabled
    it adds [dx * 0.5] to [response_rot_y] and [dy * 0.5] to
    [response_rot_x], [dx] and [dy] being the distance from the last pointer
    position; in every other state, a trial with rotation disabled among
    them, it changes nothing at all. *)
Theorem pointer_move_frame (pos : Z * Z) (st : state) :
  drag_tracked st →
  ∃ st',
    handle_event (MOUSEMOTION pos) st = Ok (st', Continue)
    ∧ same_session st st'
    ∧ (mouse_dragging st = true → rotation_enabled st = true →
         ∃ last, last_mouse_pos st = Some last
           ∧ response_rot_y st'
             = (response_rot_y st + IZR (pos.1 - last.1) * 0.5)%R
           ∧ response_rot_x st'
             = (response_rot_x st + IZR (pos.2 - last.2) * 0.5)%R
           ∧ last_mouse_pos st' = Some pos)
    ∧ (mouse_dragging st = false ∨ rotation_enabled st = false → st' = st).
Proof.
  intros Htracked. simpl. unfold on_mouse_motion.
  destruct (mouse_dragging st) eqn:Hdrag; simpl.
  - destruct (rotation_enabled st) eqn:Hrot; simpl.
    + destruct (Htracked Hdrag) as [last Hlast]. rewrite Hlast. simpl.
      eexists. split; [reflexivity|]. split.
      { unfold same_session. simpl. by rewrite Hdrag, Hrot. }
      split; [|by intros [|]].
      intros _ _. by exists last.
    + exists st. split; [done|]. split; [done|]. split; [done|]. done.
  - exists st. split; [done|]. split; [done|]. split; [done|]. done.
Qed.

(** The first trial of the concrete session, the button pressed at (10, 10). *)
Definition dragging : state :=
  on_mouse_button_down 1 (10, 10)%Z first_frame.

Lemma pointer_move_frame_witness :
  ∃ st',
    handle_event (MOUSEMOTION (14, 7)%Z) dragging = Ok (st', Continue)
    ∧ current_trial st' = current_trial dragging
    ∧ results st' = results dragging
    ∧ response_rot_y st' = (0 + IZR (14 - 10) * 0.5)%R
    ∧ response_rot_x st' = (0 + IZR (7 - 10) * 0.5)%R.
Proof.
  assert (drag_tracked dragging) as Htracked by (intros _; by eexists).
  destruct (pointer_move_frame (14, 7)%Z dragging Htracked)
    as (st' & Hrun & (_ & Hcur & Hres & _) & Hdrag & _).
  destruct (Hdrag eq_refl eq_refl) as (last & Hlast & Hy & Hx & _).
  injection Hlast as <-.
  exists st'. by repeat split.
Defined.

(** The first trial once the pointer has been dragged from (10, 10) to
    (14, 7): the accumulators hold 2 around y and -1.5 around x. *)
Definition dragged : state :=
  match handle_event (MOUSEMOTION (14, 7)%Z) dragging with
  | Ok (st, _) => st
  | Raise _ => dragging
  end.

Lemma rotation_zero_at_trial_start_witness :
  response_rot_x dragged ≠ 0%R
  ∧ response_rot_y dragged ≠ 0%R
  ∧ ∃ st' r rot_y,
      handle_event (KEYDOWN K_d 2 3) dragged = Ok (st', Continue)
      ∧ results st' = results dragged ++ [r]
      ∧ TrialResult.disparity r
        = calculate_angular_disparity rot_y
            (response_rot_x dragged) (response_rot_y dragged)
      ∧ current_trial st' = 1
      ∧ rotation_zero st'
      ∧ before_first_drag st'.
Proof.
  destruct rotation_zero_at_trial_start as (_ & Hnext & _).
  split; [|split].
  - change (response_rot_x dragged) with (0 + IZR (-3) * 0.5)%R. lra.
  - change (response_rot_y dragged) with (0 + IZR 4 * 0.5)%R. lra.
  - eexists.
    destruct (Hnext K_d 2%R 3%R dragged _ (or_intror eq_refl) eq_refl)
      as (r & rot_y & Hres & Hdisparity & Hcur & _ & Hzero).
    exists r, rot_y. split; [reflexivity|]. split; [exact Hres|].
    split; [exact Hdisparity|]. split; [exact Hcur|]. split; [exact Hzero|].
    eapply (bfd_next K_d 2 3 dragged); [by right | reflexivity].
Defined.

(** ** Stimuli labelled [null] *)

Section NullLabel.

Variable shuffle : list dict → list dict.
Hypothesis shuffle_perm : ∀ l, shuffle l ≡ₚ l.

Lemma null_label_not_valid (s : dict) :
  dict_lookup "is_mirror" s = Some PNone → has_label s = false.
Proof. unfold has_label, dict_get. by intros ->. Qed.

(** A stimulus the filter would have dropped is in the plan only when the
    plan was drawn from the unfiltered collection. *)
Lemma unlabelled_trial_fallback stimuli n1 n2 i t :
  generate_trial_set shuffle stimuli n1 n2 !! i = Some t →
  has_label (Trial.stimulus t) = false →
  length (filter (λ s, has_label s) stimuli) < n1 + n2.
Proof.
  intros Ht Hnot.
  destruct (lookup_generate_trial_set shuffle _ _ _ _ _ Ht) as (s & Hs & <- & _).
  apply lookup_take_Some in Hs as [Hs _].
  apply list_elem_of_lookup_2 in Hs. unfold drawn_pool in Hs.
  rewrite shuffle_perm in Hs.
  case_bool_decide as Hfew; [done|].
  apply list_elem_of_filter in Hs as [Hvalid _].
  rewrite Hnot in Hvalid. done.
Qed.

(** C10. The [is_mirror] of a trial is the value the stimulus record holds
    under that key, [False] only when the record has no such key. For a
    record whose [is_mirror] is [null] the trial's [is_mirror] is therefore
    [None]; such a trial is in the plan only on the fallback path, and the
    answer "different" on it records a result whose [is_correct] is [None]. *)
Theorem null_label_reaches_result stimuli n_rotation n_no_rotation i t :
  generate_trial_set shuffle stimuli n_rotation n_no_rotation !! i = Some t →
  Trial.is_mirror t
    = default (PBool false) (dict_lookup "is_mirror" (Trial.stimulus t))
  ∧ (dict_lookup "is_mirror" (Trial.stimulus t) = Some PNone →
       Trial.is_mirror t = PNone
       ∧ length (filter (λ s, has_label s) stimuli) < n_rotation + n_no_rotation
       ∧ (∀ st now now',
            current_trial_data st = t →
            (response_ready st →
               ∃ st' c, handle_event (KEYDOWN K_d now now') st = Ok (st', c))
            ∧ (∀ st' c,
                 handle_event (KEYDOWN K_d now now') st = Ok (st', c) →
                 ∃ r, results st' = results st ++ [r]
                      ∧ TrialResult.is_mirror r = PNone
                      ∧ TrialResult.user_response r = true
                      ∧ TrialResult.is_correct r = PNone))).
Proof.
  intros Ht.
  assert (Trial.is_mirror t
          = default (PBool false) (dict_lookup "is_mirror" (Trial.stimulus t)))
    as Hmirror.
  { destruct (lookup_generate_trial_set shuffle _ _ _ _ _ Ht)
      as (s & _ & <- & _ & ->).
    unfold dict_get. by destruct (dict_lookup _ _). }
  split; [exact Hmirror|]. intros Hnull.
  assert (Trial.is_mirror t = PNone) as Hnone by (by rewrite Hmirror, Hnull).
  split; [exact Hnone|]. split.
  { eapply unlabelled_trial_fallback; [exact Ht|].
    by apply null_label_not_valid. }
  intros st now now' Hcur. split.
  - intros (id & rot & rot_y & Hid & Hrot & Hy).
    rewrite (response_run K_d true _ _ _ _ _ _ eq_refl Hid Hrot Hy).
    apply record_and_advance_total.
  - intros st' c Hrun.
    destruct (response_inv K_d true _ _ _ _ _ eq_refl Hrun)
      as (id & rot & rot_y & _ & _ & _ & Hadv).
    apply record_and_advance_inv in Hadv as (Hres & _).
    eexists. split; [exact Hres|]. simpl. by rewrite Hcur, Hnone.
Qed.

End NullLabel.

(** The concrete session after the answer "same" to its first trial, the
    frame of the second trial drawn. *)
Definition state_after (r : result (state * control)) (otherwise : state) : state :=
  match r with
  | Ok (st, _) => st
  | Raise _ => otherwise
  end.

Definition second_frame : state :=
  bind_rotation
    (state_after (handle_event (KEYDOWN K_s 2 3) first_frame) first_frame).

Lemma second_frame_ready : response_ready second_frame.
Proof. by eexists _, _, (PInt 40). Qed.

Lemma null_label_reaches_result_witness :
  Trial.is_mirror trial_null = PNone
  ∧ ∃ st' c r,
      handle_event (KEYDOWN K_d 5 6) second_frame = Ok (st', c)
      ∧ results st' = results second_frame ++ [r]
      ∧ TrialResult.is_correct r = PNone.
Proof.
  destruct (null_label_reaches_result reverse reverse_Permutation
              mostly_unlabelled 1 1 1 trial_null eq_refl) as [_ Hnull].
  destruct (Hnull eq_refl) as (Hnone & _ & Hresponse).
  split; [exact Hnone|].
  destruct (Hresponse second_frame 5%R 6%R eq_refl) as [Htaken Hrule].
  destruct (Htaken second_frame_ready) as (st' & c & Hrun).
  destruct (Hrule st' c Hrun) as (r & Hres & _ & _ & Hcorrect).
  by exists st', c, r.
Defined.

(** ** ADE analysis of small partitions *)

Section SmallPartitions.

Variable pearsonr : list pyval → list pyval → result (R * R).
Variable linregress : list pyval → list pyval → result (R * R * R * R * R).
Variable linregress_auto : list pyval → list R → result (R * R * R * R * R).

(** The degenerate fit: r = 0, p = 1, slope = 0, intercept = 0. *)
Definition degenerate_stats : AnalyzeAde.stats :=
  {| AnalyzeAde.r := 0; AnalyzeAde.p := 1;
     AnalyzeAde.slope := 0; AnalyzeAde.intercept := 0;
     AnalyzeAde.r_reg := 0; AnalyzeAde.p_reg := 1; AnalyzeAde.std_err := 0 |}.

(** What [analyze_ade] computes for one partition (lines 57-63, and again
    lines 65-71). *)
Definition partition_stats (angles times : list pyval) : result AnalyzeAde.stats :=
  if bool_decide (2 ≤ length angles) then
    try (r, p) := AnalyzeAde.calculate_correlation pearsonr angles times in
    try (slope, intercept, r_reg, p_reg, std_err) := linregress angles times in
    Ok {| AnalyzeAde.r := r; AnalyzeAde.p := p;
          AnalyzeAde.slope := slope; AnalyzeAde.intercept := intercept;
          AnalyzeAde.r_reg := r_reg; AnalyzeAde.p_reg := p_reg;
          AnalyzeAde.std_err := std_err |}
  else Ok degenerate_stats.

(** The two partitions of [analyze_ade]. *)
Definition correct_rows (results : list AnalyzeAde.row) : list AnalyzeAde.row :=
  filter (λ r, truthy (AnalyzeAde.is_correct r)) results.

Definition incorrect_rows (results : list AnalyzeAde.row) : list AnalyzeAde.row :=
  filter (λ r, negb (truthy (AnalyzeAde.is_correct r))) results.

Definition stats_of (rows : list AnalyzeAde.row) : result AnalyzeAde.stats :=
  partition_stats (AnalyzeAde.initial_angle <$> rows)
                  (AnalyzeAde.response_time <$> rows).

Lemma analyze_ade_partitions results :
  results ≠ [] →
  AnalyzeAde.analyze_ade pearsonr linregress results
  = (try correct := stats_of (correct_rows results) in
     try incorrect := stats_of (incorrect_rows results) in
     Ok (Some (correct, incorrect))).
Proof. by destruct results. Qed.

Lemma stats_of_small rows : length rows < 2 → stats_of rows = Ok degenerate_stats.
Proof.
  intros Hsmall. unfold stats_of, partition_stats.
  rewrite length_fmap. rewrite bool_decide_eq_false_2 by lia. done.
Qed.

(** What [make_plot] computes for one partition (lines 173-176, and again
    lines 178-181): slope, intercept, r, p. *)
Definition partition_fit (angles : list pyval) (times : list R)
    : result (R * R * R * R) :=
  if bool_decide (2 ≤ length angles) then
    try (slope, intercept, r, p, _) := linregress_auto angles times in
    Ok (slope, intercept, r, p)
  else Ok (0, 0, 0, 1)%R.

Definition correct_results (data : list TrialResult.t) : list TrialResult.t :=
  filter (λ r, truthy (TrialResult.is_correct r)) data.

Definition incorrect_results (data : list TrialResult.t) : list TrialResult.t :=
  filter (λ r, negb (truthy (TrialResult.is_correct r))) data.

Definition fit_of (rows : list TrialResult.t) : result (R * R * R * R) :=
  partition_fit (TrialResult.initial_angle <$> rows)
                (TrialResult.response_time <$> rows).

Definition fits (c i : R * R * R * R) : plot_fits :=
  let '(slope_c, intercept_c, r_c, p_c) := c in
  let '(slope_i, intercept_i, r_i, p_i) := i in
  {| slope_c := slope_c; intercept_c := intercept_c; r_c := r_c; p_c := p_c;
     slope_i := slope_i; intercept_i := intercept_i; r_i := r_i; p_i := p_i |}.

Lemma make_plot_partitions data :
  make_plot linregress_auto data
  = (try c := fit_of (correct_results data) in
     try i := fit_of (incorrect_results data) in
     Ok (fits c i)).
Proof.
  unfold make_plot, fit_of, partition_fit, correct_results, incorrect_results.
  repeat case_bool_decide; simpl;
    repeat (match goal with
            | |- context [linregress_auto ?x ?y] =>
                destruct (linregress_auto x y) as [[[[[? ?] ?] ?] ?]|]; simpl
            end); done.
Qed.

Lemma fit_of_small rows : length rows < 2 → fit_of rows = Ok (0, 0, 0, 1)%R.
Proof.
  intros Hsmall. unfold fit_of, partition_fit.
  rewrite length_fmap. rewrite bool_decide_eq_false_2 by lia. done.
Qed.

(** The plots [analyze_ade_automatically] makes: one for the results with
    rotation, one for those without, each skipped when it has no result. *)
Definition rotables (results_dict : list TrialResult.t) : list TrialResult.t :=
  filter (λ r, TrialResult.rotation_enabled r) results_dict.

Definition non_rotables (results_dict : list TrialResult.t) : list TrialResult.t :=
  filter (λ r, negb (TrialResult.rotation_enabled r)) results_dict.

Definition plot_of (data : list TrialResult.t) : result (option plot_fits) :=
  match data with
  | [] => Ok None
  | _ => try fits := make_plot linregress_auto data in Ok (Some fits)
  end.

Lemma analyze_ade_automatically_plots results_dict :
  analyze_ade_automatically linregress_auto results_dict
  = (try plot1 := plot_of (rotables results_dict) in
     try plot2 := plot_of (non_rotables results_dict) in
     Ok (plot1, plot2)).
Proof. by destruct results_dict. Qed.

Lemma fit_of_total rows :
  (2 ≤ length rows →
     ∃ v, linregress_auto (TrialResult.initial_angle <$> rows)
            (TrialResult.response_time <$> rows) = Ok v) →
  ∃ c, fit_of rows = Ok c ∧ (length rows < 2 → c = (0, 0, 0, 1)%R).
Proof.
  intros Hfit. destruct (decide (2 ≤ length rows)) as [Hlarge|Hsmall].
  - destruct (Hfit Hlarge) as ([[[[slope intercept] r] p] std_err] & Hv).
    unfold fit_of, partition_fit. rewrite length_fmap.
    rewrite bool_decide_eq_true_2 by done. rewrite Hv. simpl.
    eexists. split; [done|]. lia.
  - exists (0, 0, 0, 1)%R. split; [apply fit_of_small; lia | done].
Qed.

(** What the claim says of the plot of one rotation condition: the plot is
    skipped exactly when the condition has no result, and in a plot that is
    made the fit of a partition of fewer than two samples is the degenerate
    one. *)
Definition small_fits (data : list TrialResult.t) (plot : option plot_fits) : Prop :=
  (plot = None ↔ data = [])
  ∧ ∀ f, plot = Some f →
      make_plot linregress_auto data = Ok f
      ∧ (length (correct_results data) < 2 →
           (slope_c f, intercept_c f, r_c f, p_c f) = (0, 0, 0, 1)%R)
      ∧ (length (incorrect_results data) < 2 →
           (slope_i f, intercept_i f, r_i f, p_i f) = (0, 0, 0, 1)%R).

Lemma plot_of_total data :
  (∀ rows, rows ∈ [correct_results data; incorrect_results data] →
     2 ≤ length rows →
     ∃ v, linregress_auto (TrialResult.initial_angle <$> rows)
            (TrialResult.response_time <$> rows) = Ok v) →
  ∃ plot, plot_of data = Ok plot ∧ small_fits data plot.
Proof.
  intros Hfit. unfold plot_of, small_fits. destruct data as [|d data].
  - exists None. split; [done|]. split; [done|]. by intros f.
  - remember (d :: data) as rows eqn:Hrows.
    destruct (fit_of_total (correct_results rows)) as (c & Hc & Hcsmall);
      [apply Hfit; repeat constructor|].
    destruct (fit_of_total (incorrect_results rows)) as (i & Hi & Hismall);
      [apply Hfit; repeat constructor|].
    rewrite make_plot_partitions, Hc, Hi. simpl.
    exists (Some (fits c i)). split; [done|]. split.
    { split; [done|]. intros ->. done. }
    intros f [= <-]. split; [done|].
    destruct c as [[[slope_c intercept_c] r_c] p_c].
    destruct i as [[[slope_i intercept_i] r_i] p_i]. simpl. split.
    + intros Hsmall. by rewrite <- (Hcsmall Hsmall).
    + intros Hsmall. by rewrite <- (Hismall Hsmall).
Qed.

(** C2. A partition with fewer than two samples gets the degenerate fit and
    raises nothing: in [analyze_ade] the statistics of such a partition are
    r = 0, p = 1, slope = 0, intercept = 0, whatever the other partition
    does, and with both partitions that small the analysis returns both
    degenerate fits. The automatic analysis makes the plot of either
    rotation condition with [make_plot], skipping a condition without
    results, and raises only where [make_plot] does; in [make_plot] a
    partition of fewer than two samples gets the degenerate fit whatever the
    other partition does. So whenever [linregress] returns on the partitions
    of two samples and more, the automatic analysis returns, and in each plot
    it made the fit of every partition of fewer than two samples is the
    degenerate one, beside whatever fit a larger partition has. An empty
    result list returns without a fit and without an exception. *)
Theorem small_partition_degenerate_fit :
  (∀ results,
     results ≠ [] →
     (length (correct_rows results) < 2 →
        AnalyzeAde.analyze_ade pearsonr linregress results
        = (try incorrect := stats_of (incorrect_rows results) in
           Ok (Some (degenerate_stats, incorrect))))
     ∧ (length (incorrect_rows results) < 2 →
          AnalyzeAde.analyze_ade pearsonr linregress results
          = (try correct := stats_of (correct_rows results) in
             Ok (Some (correct, degenerate_stats))))
     ∧ (length (correct_rows results) < 2 →
        length (incorrect_rows results) < 2 →
          AnalyzeAde.analyze_ade pearsonr linregress results
          = Ok (Some (degenerate_stats, degenerate_stats))))
  ∧ AnalyzeAde.analyze_ade pearsonr linregress [] = Ok None
  ∧ (∀ x y, length x < 2 →
       AnalyzeAde.calculate_correlation pearsonr x y = Ok (0, 1)%R)
  ∧ (∀ data,
       (length (correct_results data) < 2 →
          make_plot linregress_auto data
          = (try i := fit_of (incorrect_results data) in
             Ok (fits (0, 0, 0, 1)%R i)))
       ∧ (length (incorrect_results data) < 2 →
            make_plot linregress_auto data
            = (try c := fit_of (correct_results data) in
               Ok (fits c (0, 0, 0, 1)%R)))
       ∧ (length (correct_results data) < 2 →
          length (incorrect_results data) < 2 →
            make_plot linregress_auto data
            = Ok (fits (0, 0, 0, 1)%R (0, 0, 0, 1)%R)))
  ∧ (∀ results_dict,
       analyze_ade_automatically linregress_auto results_dict
       = (try plot1 := plot_of (rotables results_dict) in
          try plot2 := plot_of (non_rotables results_dict) in
          Ok (plot1, plot2)))
  ∧ (∀ data,
       plot_of data
       = match data with
         | [] => Ok None
         | _ => try fits := make_plot linregress_auto data in Ok (Some fits)
         end)
  ∧ (∀ results_dict,
       (∀ data rows,
          data ∈ [rotables results_dict; non_rotables results_dict] →
          rows ∈ [correct_results data; incorrect_results data] →
          2 ≤ length rows →
          ∃ v, linregress_auto (TrialResult.initial_angle <$> rows)
                 (TrialResult.response_time <$> rows) = Ok v) →
       ∃ plot1 plot2,
         analyze_ade_automatically linregress_auto results_dict
         = Ok (plot1, plot2)
         ∧ small_fits (rotables results_dict) plot1
         ∧ small_fits (non_rotables results_dict) plot2)
  ∧ (∀ results_dict,
       length (correct_results (rotables results_dict)) < 2 →
       length (incorrect_results (rotables results_dict)) < 2 →
       length (correct_results (non_rotables results_dict)) < 2 →
       length (incorrect_results (non_rotables results_dict)) < 2 →
       ∃ plot1 plot2,
         analyze_ade_automatically linregress_auto results_dict
         = Ok (plot1, plot2)
         ∧ (∀ f, plot1 = Some f → f = fits (0, 0, 0, 1)%R (0, 0, 0, 1)%R)
         ∧ (∀ f, plot2 = Some f → f = fits (0, 0, 0, 1)%R (0, 0, 0, 1)%R)
         ∧ (plot1 = None ↔ rotables results_dict = [])
         ∧ (plot2 = None ↔ non_rotables results_dict = [])).
Proof.
  split; [|split; [|split; [|split; [|split; [|split; [|split]]]]]].
  - intros results Hne. rewrite (analyze_ade_partitions _ Hne).
    split; [|split].
    + intros Hc. by rewrite (stats_of_small _ Hc).
    + intros Hi. rewrite (stats_of_small _ Hi).
      by destruct (stats_of (correct_rows results)).
    + intros Hc Hi. by rewrite (stats_of_small _ Hc), (stats_of_small _ Hi).
  - reflexivity.
  - intros x y Hx. unfold AnalyzeAde.calculate_correlation.
    by rewrite bool_decide_eq_true_2.
  - intros data. rewrite make_plot_partitions. split; [|split].
    + intros Hc. by rewrite (fit_of_small _ Hc).
    + intros Hi. rewrite (fit_of_small _ Hi).
      by destruct (fit_of (correct_results data)).
    + intros Hc Hi. by rewrite (fit_of_small _ Hc), (fit_of_small _ Hi).
  - apply analyze_ade_automatically_plots.
  - done.
  - intros results_dict Hfit. rewrite analyze_ade_automatically_plots.
    destruct (plot_of_total (rotables results_dict)) as (plot1 & -> & H1);
      [intros rows; apply Hfit; repeat constructor|].
    destruct (plot_of_total (non_rotables results_dict)) as (plot2 & -> & H2);
      [intros rows; apply Hfit; repeat constructor|].
    by exists plot1, plot2.
  - intros results_dict Hrc Hri Hnc Hni.
    rewrite analyze_ade_automatically_plots.
    assert (∀ data, length (correct_results data) < 2 →
                    length (incorrect_results data) < 2 →
                    ∃ plot, plot_of data = Ok plot
                      ∧ (∀ f, plot = Some f → f = fits (0, 0, 0, 1)%R (0, 0, 0, 1)%R)
                      ∧ (plot = None ↔ data = [])) as Hplot.
    { intros data Hc Hi. unfold plot_of. destruct data as [|d data].
      - exists None. by repeat split.
      - rewrite make_plot_partitions.
        rewrite (fit_of_small _ Hc), (fit_of_small _ Hi). simpl.
        eexists. split; [reflexivity|]. split; [by intros f [= <-]|]. done. }
    destruct (Hplot _ Hrc Hri) as (plot1 & -> & H1 & H1').
    destruct (Hplot _ Hnc Hni) as (plot2 & -> & H2 & H2').
    by exists plot1, plot2.
Qed.

End SmallPartitions.

(** A stand-in for a scipy routine, which raises on every input. *)
Definition scipy_raises {A B C : Type} : A → B → result C :=
  λ _ _, Raise ValueError.

(** A stand-in for [linregress] that returns the same fit on every input. *)
Definition scipy_fits : list pyval → list R → result (R * R * R * R * R) :=
  λ _ _, Ok (5, 6, 7, 8, 9)%R.

(** A log of three trials with rotation: two correct answers, one wrong. *)
Definition rotation_log : list TrialResult.t :=
  [ {| TrialResult.trial_number := 1; TrialResult.stimulus_id := PInt 1;
       TrialResult.is_mirror := PBool false; TrialResult.user_response := false;
       TrialResult.response_time := 2; TrialResult.is_correct := PBool true;
       TrialResult.rotation_enabled := true; TrialResult.disparity := 5;
       TrialResult.initial_angle := PInt 40 |};
    {| TrialResult.trial_number := 2; TrialResult.stimulus_id := PInt 2;
       TrialResult.is_mirror := PBool true; TrialResult.user_response := false;
       TrialResult.response_time := 3; TrialResult.is_correct := PBool false;
       TrialResult.rotation_enabled := true; TrialResult.disparity := 7;
       TrialResult.initial_angle := PInt 80 |};
    {| TrialResult.trial_number := 3; TrialResult.stimulus_id := PInt 3;
       TrialResult.is_mirror := PBool true; TrialResult.user_response := true;
       TrialResult.response_time := 4; TrialResult.is_correct := PBool true;
       TrialResult.rotation_enabled := true; TrialResult.disparity := 9;
       TrialResult.initial_angle := PInt 120 |} ].

Lemma small_partition_degenerate_fit_witness :
  let one_row :=
    [ {| AnalyzeAde.is_correct := PBool true;
         AnalyzeAde.initial_angle := PInt 40;
         AnalyzeAde.response_time := PFloat 2 |} ] in
  AnalyzeAde.analyze_ade scipy_raises scipy_raises one_row
  = Ok (Some (degenerate_stats, degenerate_stats))
  ∧ ∃ f,
      analyze_ade_automatically scipy_fits rotation_log = Ok (Some f, None)
      ∧ length (correct_results rotation_log) = 2
      ∧ (slope_c f, intercept_c f, r_c f, p_c f) = (5, 6, 7, 8)%R
      ∧ (slope_i f, intercept_i f, r_i f, p_i f) = (0, 0, 0, 1)%R.
Proof.
  intros one_row. split.
  - destruct (small_partition_degenerate_fit scipy_raises scipy_raises scipy_raises)
      as (Hade & _).
    destruct (Hade one_row ltac:(done)) as (_ & _ & Hboth).
    apply Hboth; vm_compute; lia.
  - destruct (small_partition_degenerate_fit scipy_raises scipy_raises scipy_fits)
      as (_ & _ & _ & _ & _ & _ & Hauto & _).
    destruct (Hauto rotation_log) as (plot1 & plot2 & Hrun & [_ H1] & _).
    { intros data rows _ _ _. by eexists. }
    eexists. split; [reflexivity|]. split; [reflexivity|].
    split; [reflexivity|].
    assert (analyze_ade_automatically scipy_fits rotation_log
            = Ok (Some (fits (5, 6, 7, 8)%R (0, 0, 0, 1)%R), None)) as Hvalue
      by reflexivity.
    rewrite Hvalue in Hrun. injection Hrun as Hplot _.
    destruct (H1 _ (eq_sym Hplot)) as (_ & _ & Hsmall).
    apply Hsmall. simpl. lia.
Defined.

(** ** Loading and labelling the stimulus file *)

Section StimulusFile.

Variable json_load : string → result pyval.
Variable json_dumps : pyval → string.

Lemma load_stimuli_missing fs path :
  fs path = None →
  load_stimuli json_load fs path = Raise FileNotFoundError
  ∧ Labeler.load_all_stimuli json_load fs path = Raise FileNotFoundError.
Proof.
  intros Hmissing.
  unfold load_stimuli, Labeler.load_all_stimuli, read_file.
  by rewrite Hmissing.
Qed.

Lemma load_stimuli_malformed fs path text :
  fs path = Some text →
  json_load text = Raise JSONDecodeError →
  load_stimuli json_load fs path = Raise JSONDecodeError
  ∧ Labeler.load_all_stimuli json_load fs path = Raise JSONDecodeError.
Proof.
  intros Hfile Hbad.
  unfold load_stimuli, Labeler.load_all_stimuli, read_file.
  rewrite Hfile. simpl. by rewrite Hbad.
Qed.

(** C9, at the input where the code departs from it. A stimulus file that
    holds the empty array is loaded by [load_stimuli] without any exception,
    the empty list being the value returned, while [load_all_stimuli] raises
    [ValueError] on the same file; the session that [run_experiment_3d]
    then sets up on the empty plan fails with [IndexError]. *)
Theorem load_stimuli_empty_collection fs path text shuffle now :
  fs path = Some text →
  json_load text = Ok (PList []) →
  (∀ l : list dict, shuffle l ≡ₚ l) →
  load_stimuli json_load fs path = Ok (PList [])
  ∧ Labeler.load_all_stimuli json_load fs path = Raise ValueError
  ∧ start_experiment (generate_trial_set shuffle [] 10 10) now = Raise IndexError.
Proof.
  intros Hfile Hempty Hperm.
  unfold load_stimuli, Labeler.load_all_stimuli, read_file.
  rewrite Hfile. simpl. rewrite Hempty. simpl. split; [done|]. split; [done|].
  assert (generate_trial_set shuffle [] 10 10 = []) as ->; [|done].
  apply length_zero_iff_nil.
  by rewrite (length_generate_trial_set shuffle Hperm).
Qed.

(** *** Labelling *)

Lemma file_lines_lookup data i obj :
  data !! i = Some obj →
  Labeler.file_lines json_dumps data !! i
  = Some (json_dumps obj
          +:+ (if bool_decide (i < length data - 1) then "," else "")
          +:+ newline).
Proof.
  intros Hobj. unfold Labeler.file_lines.
  by rewrite list_lookup_imap, Hobj.
Qed.

Lemma length_file_lines data :
  length (Labeler.file_lines json_dumps data) = length data.
Proof. apply length_imap. Qed.

Lemma read_write_file fs path text : write_file fs path text path = Some text.
Proof. unfold write_file. by rewrite String.eqb_refl. Qed.

Lemma read_write_file_other fs path text other :
  other ≠ path → write_file fs path text other = fs other.
Proof. unfold write_file. by intros ?%String.eqb_neq; destruct (String.eqb _ _). Qed.

(** The key that labels the current stimulus with [value]: D for mirrored,
    S for not mirrored. *)
Definition label_key (value : bool) : Labeler.state → result Labeler.state :=
  Labeler.handle_event json_load json_dumps
    (Labeler.KEYDOWN (if value then Labeler.K_d else Labeler.K_s)).

(** What a label key does, for any reader and writer of JSON: it writes the
    whole file anew, one compact record per line between the two bracket
    lines; the collection written has the length and the order of the
    collection the file held, the record at the index is the labelled one
    and every other record is the one the file held before. Reloading the
    file yields that collection where the reader reads the written text as
    the collection. *)
Lemma label_key_writes (value : bool) (st : Labeler.state)
    (text : string) (data : list pyval) (s : dict) :
  Labeler.disk st Labeler.json_path = Some text →
  json_load text = Ok (PList data) →
  Labeler.all_stimuli st !! Labeler.current_index st = Some (PDict s) →
  Labeler.current_index st < length data →
  let k := Labeler.current_index st in
  let s' := dict_setitem "is_mirror" (PBool value) s in
  let data' := <[k := PDict s']> data in
  ∃ st',
    label_key value st = Ok st'
    ∧ Labeler.all_stimuli st' = <[k := PDict s']> (Labeler.all_stimuli st)
    ∧ Labeler.current_index st' = k
    ∧ Labeler.disk st' Labeler.json_path
      = Some (Labeler.file_text json_dumps data')
    ∧ (∀ other, other ≠ Labeler.json_path →
         Labeler.disk st' other = Labeler.disk st other)
    ∧ Labeler.file_text json_dumps data'
      = ("[" +:+ newline)
        +:+ String.concat "" (Labeler.file_lines json_dumps data') +:+ "]"
    ∧ length (Labeler.file_lines json_dumps data') = length data
    ∧ (∀ i obj, data' !! i = Some obj →
         Labeler.file_lines json_dumps data' !! i
         = Some (json_dumps obj
                 +:+ (if bool_decide (i < length data - 1) then "," else "")
                 +:+ newline))
    ∧ (json_load (Labeler.file_text json_dumps data') = Ok (PList data') →
         Labeler.load_all_stimuli json_load (Labeler.disk st') Labeler.json_path
         = Ok (PList data'))
    ∧ length data' = length data
    ∧ data' !! k = Some (PDict s')
    ∧ dict_lookup "is_mirror" s' = Some (PBool value)
    ∧ (∀ key, key ≠ "is_mirror" → dict_lookup key s' = dict_lookup key s)
    ∧ (∀ j, j ≠ k → data' !! j = data !! j).
Proof.
  intros Hfile Hload Hstim Hk k s' data'.
  assert (length data' = length data) as Hlen by apply length_insert.
  assert (label_key value st
          = Ok {| Labeler.all_stimuli := <[k := PDict s']> (Labeler.all_stimuli st);
                  Labeler.current_index := k;
                  Labeler.right_rotation_x := Labeler.right_rotation_x st;
                  Labeler.right_rotation_y := Labeler.right_rotation_y st;
                  Labeler.mouse_dragging := Labeler.mouse_dragging st;
                  Labeler.last_mouse_pos := Labeler.last_mouse_pos st;
                  Labeler.disk :=
                    write_file (Labeler.disk st) Labeler.json_path
                      (Labeler.file_text json_dumps data') |}) as Hrun.
  { unfold label_key.
    destruct value; simpl;
      unfold Labeler.on_key_d, Labeler.on_key_s, Labeler.set_is_mirror;
      rewrite Hstim; simpl;
      unfold Labeler.save_stimulus_to_json, read_file; simpl;
      rewrite Hfile; simpl; rewrite Hload; simpl;
      (rewrite list_lookup_insert_eq by (by eapply lookup_lt_Some)); simpl;
      by rewrite bool_decide_eq_true_2. }
  eexists. split; [exact Hrun|]. simpl.
  split; [done|]. split; [done|].
  split; [apply read_write_file|].
  split; [intros other Hother; by apply read_write_file_other|].
  split; [done|].
  split; [by rewrite length_file_lines|].
  split; [intros i obj Hobj; rewrite <- Hlen; by apply file_lines_lookup|].
  split.
  { intros Hback. unfold Labeler.load_all_stimuli, read_file.
    rewrite read_write_file. simpl. rewrite Hback. simpl.
    destruct data' eqn:Hdata'; [simpl in Hlen; lia | done]. }
  split; [done|].
  split; [by apply list_lookup_insert_eq|].
  split; [apply dict_lookup_setitem_eq|].
  split; [intros key Hkey; by apply dict_lookup_setitem_ne|].
  intros j Hj. by apply list_lookup_insert_ne.
Qed.

End StimulusFile.

(** *** Reading the file back *)

Lemma string_app_cons c s t : String c s +:+ t = String c (s +:+ t).
Proof. reflexivity. Qed.

Lemma string_app_nil s : "" +:+ s = s.
Proof. reflexivity. Qed.

Lemma string_app_assoc s t u : (s +:+ t) +:+ u = s +:+ t +:+ u.
Proof.
  induction s as [|c s IH]; [done|].
  by rewrite !string_app_cons, IH.
Qed.

Lemma string_length_app s t :
  String.length (s +:+ t) = String.length s + String.length t.
Proof.
  induction s as [|c s IH]; [done|].
  rewrite string_app_cons. simpl. by rewrite IH.
Qed.

(** What a label key leaves behind: [st'] is the state after the key was
    pressed in [st], on a file that held [data], the current stimulus being
    [s]. In memory the current stimulus carries the label. The file holds
    the text of the collection [data'], which is [data] with the labelled
    record at the current index: one compact record per line between the
    two bracket lines, a comma after every record but the last; no other
    file is touched. Loading the file again yields [data']: the length and
    the order of [data], the labelled record at the index, carrying the new
    [is_mirror] and otherwise the content it had, and the record of [data]
    at every other index. *)
Definition labelled_and_reloaded (json_load : string → result pyval)
    (json_dumps : pyval → string) (value : bool) (st : Labeler.state)
    (data : list pyval) (s : dict) (st' : Labeler.state) : Prop :=
  let k := Labeler.current_index st in
  let s' := dict_setitem "is_mirror" (PBool value) s in
  let data' := <[k := PDict s']> data in
  Labeler.all_stimuli st' = <[k := PDict s']> (Labeler.all_stimuli st)
  ∧ Labeler.current_index st' = k
  ∧ Labeler.disk st' Labeler.json_path
    = Some (Labeler.file_text json_dumps data')
  ∧ (∀ other, other ≠ Labeler.json_path →
       Labeler.disk st' other = Labeler.disk st other)
  ∧ Labeler.file_text json_dumps data'
    = ("[" +:+ newline)
      +:+ String.concat "" (Labeler.file_lines json_dumps data') +:+ "]"
  ∧ length (Labeler.file_lines json_dumps data') = length data
  ∧ (∀ i obj, data' !! i = Some obj →
       Labeler.file_lines json_dumps data' !! i
       = Some (json_dumps obj
               +:+ (if bool_decide (i < length data - 1) then "," else "")
               +:+ newline))
  ∧ Labeler.load_all_stimuli json_load (Labeler.disk st') Labeler.json_path
    = Ok (PList data')
  ∧ length data' = length data
  ∧ data' !! k = Some (PDict s')
  ∧ dict_lookup "is_mirror" s' = Some (PBool value)
  ∧ (∀ key, key ≠ "is_mirror" → dict_lookup key s' = dict_lookup key s)
  ∧ (∀ j, j ≠ k → data' !! j = data !! j).

Section Reload.

Variable scan_once : string → option (pyval * string).
Variable json_dumps : pyval → string.

(** What the round trip needs of the library, record by record:
    [json.dumps] writes the record as an object, [{...}], and the scanner
    reads that text back as the record, whatever text follows it. *)
Definition round_trips (obj : pyval) : Prop :=
  (∃ body, json_dumps obj = String (Json.char "{") body)
  ∧ ∀ rest, scan_once (json_dumps obj +:+ rest) = Some (obj, rest).

(** The lines between the brackets, joined. *)
Definition lines_text (data : list pyval) : string :=
  String.concat "" (Labeler.file_lines json_dumps data).

Lemma lines_text_last obj : lines_text [obj] = json_dumps obj +:+ newline.
Proof. reflexivity. Qed.

Lemma lines_text_cons obj obj' data :
  lines_text (obj :: obj' :: data)
  = json_dumps obj +:+ "," +:+ newline +:+ lines_text (obj' :: data).
Proof.
  unfold lines_text, Labeler.file_lines.
  rewrite imap_cons.
  rewrite (imap_ext _ (λ i obj,
             json_dumps obj
             +:+ (if bool_decide (i < length (obj' :: data) - 1) then "," else "")
             +:+ newline) (obj' :: data)); cycle 1.
  { intros i x _. simpl.
    by rewrite (bool_decide_ext (S i < S (length data)) (i < length data - 0))
      by lia. }
  rewrite bool_decide_eq_true_2 by (simpl; lia).
  rewrite imap_cons. cbn [String.concat].
  by rewrite !string_app_assoc.
Qed.

Lemma length_lines_text data : length data ≤ String.length (lines_text data).
Proof.
  induction data as [|obj [|obj' data] IH]; [done| |].
  - rewrite lines_text_last, string_length_app. simpl. lia.
  - rewrite lines_text_cons, !string_length_app. simpl in *. lia.
Qed.

Lemma lines_text_starts obj data :
  round_trips obj →
  ∃ body, lines_text (obj :: data) = String (Json.char "{") body.
Proof.
  intros [[body Hbody] _]. destruct data as [|obj' data].
  - rewrite lines_text_last, Hbody. by eexists.
  - rewrite lines_text_cons, Hbody. by eexists.
Qed.

(** The loop of [JSONArray] on the lines the program writes. *)
Lemma array_items_lines data obj fuel tail :
  Forall round_trips (obj :: data) →
  length (obj :: data) ≤ fuel →
  Json.array_items scan_once fuel (lines_text (obj :: data) +:+ "]" +:+ tail)
  = Ok (obj :: data, tail).
Proof.
  revert obj fuel. induction data as [|obj' data IH]; intros obj fuel Hall Hfuel.
  - destruct fuel as [|fuel]; [simpl in Hfuel; lia|].
    apply Forall_cons in Hall as [[_ Hobj] _].
    rewrite lines_text_last, string_app_assoc.
    cbn [Json.array_items]. rewrite Hobj. reflexivity.
  - destruct fuel as [|fuel]; [simpl in Hfuel; lia|].
    apply Forall_cons in Hall as [[_ Hobj] Hall].
    rewrite lines_text_cons, !string_app_assoc.
    cbn [Json.array_items]. rewrite Hobj.
    change (Json.skip_whitespace ("," +:+ newline +:+ lines_text (obj' :: data) +:+ "]" +:+ tail))
      with (String (Json.char ",") (newline +:+ lines_text (obj' :: data) +:+ "]" +:+ tail)).
    cbv iota beta.
    change (Ascii.eqb (Json.char ",") (Json.char "]")) with false.
    change (Ascii.eqb (Json.char ",") (Json.char ",")) with true.
    cbv iota.
    assert (Json.skip_whitespace (newline +:+ lines_text (obj' :: data) +:+ "]" +:+ tail)
            = lines_text (obj' :: data) +:+ "]" +:+ tail) as ->.
    { apply Forall_cons in Hall as [Hobj' _].
      destruct (lines_text_starts obj' data Hobj') as [body ->].
      reflexivity. }
    rewrite IH; [done|done|simpl in *; lia].
Qed.

(** [json.load] reads the text the program writes as the collection
    written. *)
Lemma load_file_text data :
  Forall round_trips data →
  Json.load scan_once (Labeler.file_text json_dumps data) = Ok (PList data).
Proof.
  intros Hall. unfold Labeler.file_text. fold (lines_text data).
  destruct data as [|obj data]; [reflexivity|].
  destruct (lines_text_starts obj data) as [body Hbody];
    [by apply Forall_cons in Hall as [? _]|].
  unfold Json.load.
  change (Json.skip_whitespace (("[" +:+ newline) +:+ lines_text (obj :: data) +:+ "]"))
    with (String (Json.char "[") (newline +:+ lines_text (obj :: data) +:+ "]")).
  cbv iota beta.
  change (Ascii.eqb (Json.char "[") (Json.char "[")) with true. cbv iota.
  assert (Json.JSONArray scan_once (newline +:+ lines_text (obj :: data) +:+ "]")
          = Ok (obj :: data, "")) as ->; [|reflexivity].
  unfold Json.JSONArray.
  assert (Json.skip_whitespace (newline +:+ lines_text (obj :: data) +:+ "]")
          = String (Json.char "{") (body +:+ "]")) as ->
    by (rewrite Hbody; reflexivity).
  change (Ascii.eqb (Json.char "{") (Json.char "]")) with false. cbv iota.
  rewrite <- string_app_cons, <- Hbody.
  rewrite <- (string_app_nil "") at 2.
  change ("]" +:+ "" +:+ "") with ("]" +:+ "").
  replace (lines_text (obj :: data) +:+ "]") with (lines_text (obj :: data) +:+ "]" +:+ "") at 2 by done.
  apply array_items_lines; [done|].
  rewrite string_length_app. pose proof (length_lines_text (obj :: data)). lia.
Qed.

(** The round trip for any writer and scanner that agree record by
    record. *)
Lemma label_key_reloads (value : bool) (st : Labeler.state)
    (text : string) (data : list pyval) (s : dict) :
  Labeler.disk st Labeler.json_path = Some text →
  Json.load scan_once text = Ok (PList data) →
  Labeler.all_stimuli st !! Labeler.current_index st = Some (PDict s) →
  Labeler.current_index st < length data →
  Forall round_trips
    (<[Labeler.current_index st :=
         PDict (dict_setitem "is_mirror" (PBool value) s)]> data) →
  ∃ st',
    label_key (Json.load scan_once) json_dumps value st = Ok st'
    ∧ labelled_and_reloaded (Json.load scan_once) json_dumps value st data s st'.
Proof.
  intros Hfile Hload Hstim Hk Hcodec.
  destruct (label_key_writes (Json.load scan_once) json_dumps value st text data s
              Hfile Hload Hstim Hk)
    as (st' & Hrun & Hmem & Hindex & Hdisk & Hother & Htext & Hlines & Hline
        & Hreload & Hlen & Hlabelled & Hlabel & Hkeys & Hrest).
  exists st'. split; [exact Hrun|]. unfold labelled_and_reloaded.
  split; [exact Hmem|]. split; [exact Hindex|].
  split; [exact Hdisk|]. split; [exact Hother|]. split; [exact Htext|].
  split; [exact Hlines|]. split; [exact Hline|].
  split; [apply Hreload; by apply load_file_text|].
  done.
Qed.

End Reload.

(** *** A concrete stimulus file *)

Definition quote : string := String (Ascii.ascii_of_nat 34) "".

(** Compact JSON text of a value built from [None], booleans, integers,
    plain strings, lists and dictionaries. Floats do not occur in the files
    below; a real number has no text to compute, and [0.0] stands for it. *)
Fixpoint compact (v : pyval) : string :=
  match v with
  | PNone => "null"
  | PBool true => "true"
  | PBool false => "false"
  | PInt n => pretty n
  | PFloat _ => "0.0"
  | PStr s => quote +:+ s +:+ quote
  | PList l => "[" +:+ String.concat "," (map compact l) +:+ "]"
  | PDict d =>
      "{" +:+ String.concat ","
                (map (λ kv, let '(k, x) := kv in
                            quote +:+ k +:+ quote +:+ ":" +:+ compact x) d)
          +:+ "}"
  end.

(** A reader that knows the value of the texts listed and rejects every
    other text. *)
Definition reads (known : list (string * pyval)) (text : string) : result pyval :=
  match list_find (λ entry, entry.1 = text) known with
  | Some (_, (_, v)) => Ok v
  | None => Raise JSONDecodeError
  end.

Definition empty_file : filesystem :=
  write_file (λ _, None) "stimuli_data.json" "[]".

Lemma load_stimuli_empty_collection_witness :
  load_stimuli (reads [("[]", PList [])]) empty_file "stimuli_data.json"
  = Ok (PList [])
  ∧ Labeler.load_all_stimuli (reads [("[]", PList [])]) empty_file "stimuli_data.json"
    = Raise ValueError
  ∧ start_experiment (generate_trial_set reverse [] 10 10) 0 = Raise IndexError.
Proof.
  apply (load_stimuli_empty_collection (reads [("[]", PList [])])
           empty_file "stimuli_data.json" "[]" reverse 0%R).
  - reflexivity.
  - reflexivity.
  - apply reverse_Permutation.
Defined.

(** The three stimuli of [mostly_unlabelled] on disk, the labelling script
    looking at the second one. *)
Definition unlabelled_file : list pyval := PDict <$> mostly_unlabelled.

Definition labelled_file : list pyval :=
  <[1 := PDict (dict_setitem "is_mirror" (PBool true) (stimulus_record 1 None))]>
    unlabelled_file.

Definition json_reader : string → result pyval :=
  reads [ (Labeler.file_text compact unlabelled_file, PList unlabelled_file);
          (Labeler.file_text compact labelled_file, PList labelled_file) ].

Definition labelling : Labeler.state :=
  {| Labeler.all_stimuli := unlabelled_file;
     Labeler.current_index := 1;
     Labeler.right_rotation_x := 0;
     Labeler.right_rotation_y := 0;
     Labeler.mouse_dragging := false;
     Labeler.last_mouse_pos := None;
     Labeler.disk :=
       write_file (λ _, None) Labeler.json_path
         (Labeler.file_text compact unlabelled_file) |}.

(** *** The scanner reads what the compact printer writes *)

Lemma digit_pretty_N_char (d : N) :
  (d < 10)%N → Json.digit (pretty_N_char d) = Some (Z.of_N d).
Proof.
  intros Hd.
  assert (d = 0 ∨ d = 1 ∨ d = 2 ∨ d = 3 ∨ d = 4 ∨ d = 5 ∨ d = 6 ∨ d = 7
          ∨ d = 8 ∨ d = 9)%N as Hcases by lia.
  repeat destruct Hcases as [-> | Hcases]; try subst d; reflexivity.
Qed.

Lemma pretty_N_go_app (x : N) (s t : string) :
  pretty_N_go x (s +:+ t) = pretty_N_go x s +:+ t.
Proof.
  revert s. induction (N.lt_wf_0 x) as [x _ IH]; intros s.
  assert (x = 0 ∨ 0 < x)%N as [-> | Hpos] by lia.
  - by rewrite !pretty_N_go_0.
  - rewrite (pretty_N_go_step x (s +:+ t)), (pretty_N_go_step x s) by done.
    apply (IH (x `div` 10)%N (N.div_lt x 10 Hpos eq_refl) (String _ s)).
Qed.

Lemma scan_digits_pretty_N_go (x : N) :
  ∃ k : Z, (0 ≤ k)%Z ∧ ∀ s acc,
    Json.scan_digits acc (pretty_N_go x s)
    = Json.scan_digits (acc * 10 ^ k + Z.of_N x) s.
Proof.
  induction (N.lt_wf_0 x) as [x _ IH].
  assert (x = 0 ∨ 0 < x)%N as [-> | Hpos] by lia.
  - exists 0%Z. split; [done|]. intros s acc. rewrite pretty_N_go_0.
    f_equal. simpl. lia.
  - destruct (IH (x `div` 10)%N) as (k & Hk & Hrun); [by apply N.div_lt|].
    exists (k + 1)%Z. split; [lia|]. intros s acc.
    rewrite pretty_N_go_step by done. rewrite Hrun.
    cbn [Json.scan_digits].
    rewrite digit_pretty_N_char by (apply N.mod_lt; lia).
    f_equal. rewrite Z.pow_add_r by lia.
    rewrite (N.div_mod x 10) at 3 by lia.
    rewrite N2Z.inj_add, N2Z.inj_mul. simpl (Z.of_N 10). lia.
Qed.

Lemma pretty_N_go_head (x : N) (s : string) :
  (0 < x)%N →
  ∃ d t, pretty_N_go x s = String (pretty_N_char d) t ∧ (0 < d < 10)%N.
Proof.
  revert s. induction (N.lt_wf_0 x) as [x _ IH]; intros s Hpos.
  rewrite pretty_N_go_step by done.
  assert (x < 10 ∨ 10 ≤ x)%N as [Hsmall | Hlarge] by lia.
  - rewrite N.div_small by done. rewrite pretty_N_go_0.
    exists (x `mod` 10)%N, s. split; [done|].
    rewrite N.mod_small by done. lia.
  - apply IH; [apply N.div_lt; lia|].
    apply N.div_str_pos. lia.
Qed.

(** A text that cannot continue a number. *)
Definition number_end (rest : string) : bool :=
  match rest with
  | String c _ =>
      match Json.digit c with
      | Some _ => false
      | None =>
          negb (Ascii.eqb c (Json.char ".") || Ascii.eqb c (Json.char "e")
                || Ascii.eqb c (Json.char "E"))
      end
  | EmptyString => true
  end.

Lemma scan_digits_end (n : Z) (rest : string) :
  number_end rest = true → Json.scan_digits n rest = (n, rest).
Proof.
  destruct rest as [|c rest]; [done|]. simpl.
  by destruct (Json.digit c).
Qed.

Lemma pretty_N_pos (x : N) : (0 < x)%N → pretty x = pretty_N_go x "".
Proof.
  intros Hpos. unfold pretty, pretty_N. by rewrite decide_False by lia.
Qed.

Lemma pretty_N_char_digit (d : N) :
  (0 < d < 10)%N →
  ∃ z, Json.digit (pretty_N_char d) = Some (Z.pos z)
       ∧ Ascii.eqb (pretty_N_char d) (Json.char "-") = false.
Proof.
  intros Hd.
  assert (d = 1 ∨ d = 2 ∨ d = 3 ∨ d = 4 ∨ d = 5 ∨ d = 6 ∨ d = 7
          ∨ d = 8 ∨ d = 9)%N as Hcases by lia.
  destruct Hcases as [->|[->|[->|[->|[->|[->|[->|[->| ->]]]]]]]];
    (eexists; split; reflexivity).
Qed.

Lemma scan_integer_pretty (x : N) (rest : string) :
  number_end rest = true →
  Json.scan_integer (pretty x +:+ rest) = Some (Z.of_N x, rest).
Proof.
  intros Hend. assert (x = 0 ∨ 0 < x)%N as [-> | Hpos] by lia; [done|].
  rewrite pretty_N_pos by done.
  rewrite <- pretty_N_go_app. change ("" +:+ rest) with rest.
  destruct (pretty_N_go_head x rest Hpos) as (d & t & Hhead & Hd).
  destruct (pretty_N_char_digit d Hd) as (z & Hdigit & _).
  destruct (scan_digits_pretty_N_go x) as (k & _ & Hrun).
  unfold Json.scan_integer. rewrite Hhead, Hdigit, <- Hhead.
  by rewrite Hrun, scan_digits_end by done.
Qed.

Lemma pretty_N_head_not_dash (x : N) (rest : string) :
  ∃ c t, pretty x +:+ rest = String c t
         ∧ Ascii.eqb c (Json.char "-") = false.
Proof.
  assert (x = 0 ∨ 0 < x)%N as [-> | Hpos] by lia; [by eexists _, _|].
  rewrite pretty_N_pos by done.
  rewrite <- pretty_N_go_app. change ("" +:+ rest) with rest.
  destruct (pretty_N_go_head x rest Hpos) as (d & t & Hhead & Hd).
  destruct (pretty_N_char_digit d Hd) as (z & _ & Hdash).
  by exists (pretty_N_char d), t.
Qed.

Lemma scan_number_pretty (n : Z) (rest : string) :
  number_end rest = true →
  Json.scan_number (pretty n +:+ rest) = Some (PInt n, rest).
Proof.
  intros Hend.
  assert (∀ found : Z,
            match rest with
            | String c _ =>
                if Ascii.eqb c (Json.char ".") || Ascii.eqb c (Json.char "e")
                   || Ascii.eqb c (Json.char "E")
                then None
                else Some (PInt found, rest)
            | EmptyString => Some (PInt found, rest)
            end = Some (PInt found, rest)) as Hrest.
  { intros found. destruct rest as [|c rest]; [done|]. unfold number_end in Hend.
    destruct (Json.digit c); [done|]. by apply negb_true_iff in Hend as ->. }
  unfold Json.scan_number.
  destruct n as [|p|p].
  - change (pretty 0%Z +:+ rest) with (String (Json.char "0") rest).
    change (Ascii.eqb (Json.char "0") (Json.char "-")) with false.
    cbv iota. change (Json.scan_integer (String (Json.char "0") rest))
      with (Some (0%Z, rest)). apply Hrest.
  - change (pretty (Z.pos p)) with (pretty (N.pos p)).
    destruct (pretty_N_head_not_dash (N.pos p) rest) as (c & t & Hhead & Hdash).
    rewrite Hhead, Hdash, <- Hhead.
    rewrite scan_integer_pretty by done. apply Hrest.
  - change (pretty (Z.neg p)) with ("-" +:+ pretty (N.pos p)).
    rewrite string_app_assoc.
    change ("-" +:+ pretty (N.pos p) +:+ rest)
      with (String (Json.char "-") (pretty (N.pos p) +:+ rest)).
    change (Ascii.eqb (Json.char "-") (Json.char "-")) with true. cbv iota.
    rewrite scan_integer_pretty by done. apply Hrest.
Qed.

(** Strings that [json.dumps] writes as they are: printable ASCII without
    the quote and the backslash. *)
Definition plain_char (c : Ascii.ascii) : bool :=
  Json.scanstring_char c && (Ascii.nat_of_ascii c <? 127).

Fixpoint plain_string (s : string) : bool :=
  match s with
  | String c s' => plain_char c && plain_string s'
  | EmptyString => true
  end.

(** The values [compact] writes as [json.dumps] does and the scanner reads:
    no float, plain strings and keys, no key twice in a dictionary. *)
Fixpoint plain (v : pyval) : bool :=
  match v with
  | PNone | PBool _ | PInt _ => true
  | PFloat _ => false
  | PStr s => plain_string s
  | PList l => forallb plain l
  | PDict d =>
      forallb (λ kv, let '(k, x) := kv in plain_string k && plain x) d
      && bool_decide (NoDup d.*1)
  end.

Lemma scanstring_plain (s rest : string) :
  plain_string s = true →
  Json.scanstring (s +:+ quote +:+ rest) = Some (s, rest).
Proof.
  induction s as [|c s IH]; [done|].
  intros [Hc Hs]%andb_prop. rewrite string_app_cons.
  cbn [Json.scanstring]. rewrite IH by done.
  unfold plain_char in Hc. apply andb_prop in Hc as [Hc _]. rewrite Hc.
  unfold Json.scanstring_char in Hc.
  apply andb_prop in Hc as [[Hquote _]%andb_prop _].
  by apply negb_true_iff in Hquote as ->.
Qed.

Lemma pyval_nested_ind (P : pyval → Prop) :
  P PNone → (∀ b, P (PBool b)) → (∀ n, P (PInt n)) → (∀ x, P (PFloat x)) →
  (∀ s, P (PStr s)) →
  (∀ l, Forall P l → P (PList l)) →
  (∀ d, Forall (λ kv, P kv.2) d → P (PDict d)) →
  ∀ v, P v.
Proof.
  intros HNone HBool HInt HFloat HStr HList HDict.
  fix IH 1. intros [| b | n | x | s | l | d].
  - apply HNone.
  - apply HBool.
  - apply HInt.
  - apply HFloat.
  - apply HStr.
  - apply HList. revert l. fix IHl 1. intros [|v l]; constructor.
    + apply IH.
    + apply IHl.
  - apply HDict. revert d. fix IHd 1. intros [|[k v] d]; constructor.
    + apply IH.
    + apply IHd.
Qed.

(** The first character of the text of a value: no whitespace and no
    closing bracket. *)
Definition value_start (text : string) : Prop :=
  ∃ c t, text = String c t
         ∧ Json.whitespace c = false
         ∧ Ascii.eqb c (Json.char "]") = false.

Lemma skip_whitespace_start text :
  value_start text → Json.skip_whitespace text = text.
Proof. intros (c & t & -> & Hc & _). simpl. by rewrite Hc. Qed.

(** The text after a value inside an array or an object. *)
Definition delimiter (r : string) : Prop :=
  ∃ t, r = "," +:+ t ∨ r = "]" +:+ t ∨ r = "}" +:+ t.

Lemma delimiter_number_end r : delimiter r → number_end r = true.
Proof. by intros (t & [-> | [-> | ->]]). Qed.

(** The first character of the text of an integer. *)
Definition int_start (c : Ascii.ascii) : Prop :=
  c = Json.char "-" ∨ ∃ d, (d < 10)%N ∧ c = pretty_N_char d.

Lemma pretty_Z_head (n : Z) (rest : string) :
  ∃ c t, pretty n +:+ rest = String c t ∧ int_start c.
Proof.
  destruct n as [|p|p].
  - exists (Json.char "0"), rest. split; [done|]. right. by exists 0%N.
  - change (pretty (Z.pos p)) with (pretty (N.pos p)).
    rewrite pretty_N_pos by done.
    rewrite <- pretty_N_go_app. change ("" +:+ rest) with rest.
    destruct (pretty_N_go_head (N.pos p) rest) as (d & t & Hhead & Hd); [done|].
    exists (pretty_N_char d), t. split; [done|]. right. exists d. split; [lia|done].
  - exists (Json.char "-"), (pretty (N.pos p) +:+ rest). split; [|by left].
    change (pretty (Z.neg p)) with ("-" +:+ pretty (N.pos p)).
    by rewrite string_app_assoc.
Qed.

Lemma int_start_cases (c : Ascii.ascii) (P : Ascii.ascii → Prop) :
  int_start c →
  P (Json.char "-") → P (Json.char "0") → P (Json.char "1") →
  P (Json.char "2") → P (Json.char "3") → P (Json.char "4") →
  P (Json.char "5") → P (Json.char "6") → P (Json.char "7") →
  P (Json.char "8") → P (Json.char "9") → P c.
Proof.
  intros [-> | (d & Hd & ->)]; [done|]. intros _.
  assert (d = 0 ∨ d = 1 ∨ d = 2 ∨ d = 3 ∨ d = 4 ∨ d = 5 ∨ d = 6 ∨ d = 7
          ∨ d = 8 ∨ d = 9)%N as Hcases by lia.
  destruct Hcases as [->|[->|[->|[->|[->|[->|[->|[->|[->| ->]]]]]]]]]; tauto.
Qed.

Lemma int_start_value_start c t : int_start c → value_start (String c t).
Proof.
  intros Hc. exists c, t. split; [done|].
  by apply (int_start_cases c (λ c, Json.whitespace c = false
                                    ∧ Ascii.eqb c (Json.char "]") = false) Hc).
Qed.

Lemma scan_value_number fuel c t :
  int_start c →
  Json.scan_value (S fuel) (String c t) = Json.scan_number (String c t).
Proof.
  intros Hc.
  by apply (int_start_cases c
              (λ c, Json.scan_value (S fuel) (String c t)
                    = Json.scan_number (String c t)) Hc).
Qed.

Lemma compact_start (v : pyval) (rest : string) :
  plain v = true → value_start (compact v +:+ rest).
Proof.
  destruct v as [| [] | n | x | s | l | d]; try done; intros _;
    try (by eexists _, _).
  destruct (pretty_Z_head n rest) as (c & t & Hhead & Hc).
  change (compact (PInt n)) with (pretty n). rewrite Hhead.
  by apply int_start_value_start.
Qed.

(** One turn of the loop of [JSONArray]. *)
Lemma array_items_close scan fuel v s rest :
  scan s = Some (v, "]" +:+ rest) →
  Json.array_items scan (S fuel) s = Ok ([v], rest).
Proof. intros Hscan. cbn [Json.array_items]. by rewrite Hscan. Qed.

Lemma array_items_comma scan fuel v s rest :
  scan s = Some (v, "," +:+ rest) →
  Json.array_items scan (S fuel) s
  = (try (values, rest') := Json.array_items scan fuel (Json.skip_whitespace rest) in
     Ok (v :: values, rest')).
Proof. intros Hscan. cbn [Json.array_items]. by rewrite Hscan. Qed.

Lemma array_items_compact scan (x : pyval) (l : list pyval) (fuel : nat)
    (rest : string) :
  Forall (λ v, plain v = true
               ∧ ∀ r, delimiter r → scan (compact v +:+ r) = Some (v, r))
         (x :: l) →
  length (x :: l) ≤ fuel →
  Json.array_items scan fuel
    (String.concat "," (map compact (x :: l)) +:+ "]" +:+ rest)
  = Ok (x :: l, rest).
Proof.
  revert x fuel. induction l as [|y l IH]; intros x fuel Hall Hfuel;
    (destruct fuel as [|fuel]; [simpl in Hfuel; lia|]);
    apply Forall_cons in Hall as [[_ Hx] Hall].
  - apply array_items_close. apply Hx. by eexists; right; left.
  - cbn [map String.concat]. rewrite !string_app_assoc.
    rewrite (array_items_comma _ _ x _
               (String.concat "," (compact y :: map compact l) +:+ "]" +:+ rest));
      [|apply Hx; by eexists; left].
    rewrite skip_whitespace_start; cycle 1.
    { apply Forall_cons in Hall as [[Hy _] _].
      destruct l; cbn [map String.concat]; rewrite ?string_app_assoc;
        by apply compact_start. }
    change (compact y :: map compact l) with (map compact (y :: l)).
    rewrite IH; [done|done|simpl in *; lia].
Qed.

(** The text of one entry of a dictionary after its opening quote. *)
Definition entry_body (kv : string * pyval) : string :=
  kv.1 +:+ quote +:+ ":" +:+ compact kv.2.

(** The entries of a dictionary after the opening quote of the first key. *)
Fixpoint pairs_text (e : string * pyval) (d : dict) : string :=
  match d with
  | [] => entry_body e
  | e' :: d' => entry_body e +:+ "," +:+ quote +:+ pairs_text e' d'
  end.

Lemma entries_text e d :
  String.concat ","
    (map (λ kv, let '(k, x) := kv in
                quote +:+ k +:+ quote +:+ ":" +:+ compact x) (e :: d))
  = quote +:+ pairs_text e d.
Proof.
  set (f := λ kv : string * pyval,
              let '(k, x) := kv in quote +:+ k +:+ quote +:+ ":" +:+ compact x).
  revert e. induction d as [|e' d IH]; intros [k x].
  - reflexivity.
  - change (String.concat "," (map f ((k, x) :: e' :: d)))
      with (f (k, x) +:+ "," +:+ String.concat "," (map f (e' :: d))).
    rewrite IH. cbn [pairs_text]. unfold f, entry_body. cbn [fst snd].
    by rewrite !string_app_assoc.
Qed.

Lemma compact_PDict_cons e d :
  compact (PDict (e :: d)) = "{" +:+ quote +:+ pairs_text e d +:+ "}".
Proof.
  change (compact (PDict (e :: d)))
    with ("{" +:+ String.concat ","
                    (map (λ kv, let '(k, x) := kv in
                                quote +:+ k +:+ quote +:+ ":" +:+ compact x)
                         (e :: d)) +:+ "}").
  by rewrite entries_text, !string_app_assoc.
Qed.

(** One turn of the loop of [JSONObject]. *)
Lemma object_pairs_close scan fuel s k s1 x rest :
  Json.scanstring s = Some (k, ":" +:+ s1) →
  scan (Json.skip_whitespace s1) = Some (x, "}" +:+ rest) →
  Json.object_pairs scan (S fuel) s = Some ([(k, x)], rest).
Proof.
  intros Hkey Hvalue. cbn [Json.object_pairs]. rewrite Hkey.
  change (Json.skip_whitespace (":" +:+ s1)) with (String (Json.char ":") s1).
  cbv iota.
  change (Ascii.eqb (Json.char ":") (Json.char ":")) with true. cbv iota.
  by rewrite Hvalue.
Qed.

Lemma object_pairs_comma scan fuel s k s1 x s3 :
  Json.scanstring s = Some (k, ":" +:+ s1) →
  scan (Json.skip_whitespace s1) = Some (x, "," +:+ quote +:+ s3) →
  Json.object_pairs scan (S fuel) s
  = match Json.object_pairs scan fuel s3 with
    | Some (pairs, rest) => Some ((k, x) :: pairs, rest)
    | None => None
    end.
Proof.
  intros Hkey Hvalue. cbn [Json.object_pairs]. rewrite Hkey.
  change (Json.skip_whitespace (":" +:+ s1)) with (String (Json.char ":") s1).
  cbv iota.
  change (Ascii.eqb (Json.char ":") (Json.char ":")) with true. cbv iota.
  by rewrite Hvalue.
Qed.

Lemma object_pairs_compact scan (e : string * pyval) (d : dict) (fuel : nat)
    (rest : string) :
  Forall (λ kv, plain_string kv.1 = true
                ∧ plain kv.2 = true
                ∧ ∀ r, delimiter r → scan (compact kv.2 +:+ r) = Some (kv.2, r))
         (e :: d) →
  length (e :: d) ≤ fuel →
  Json.object_pairs scan fuel (pairs_text e d +:+ "}" +:+ rest)
  = Some (e :: d, rest).
Proof.
  revert e fuel. induction d as [|e' d IH]; intros [k x] fuel Hall Hfuel;
    (destruct fuel as [|fuel]; [simpl in Hfuel; lia|]);
    apply Forall_cons in Hall as [(Hk & Hplain & Hx) Hall];
    cbn [fst snd] in Hk, Hplain, Hx.
  - cbn [pairs_text]. unfold entry_body. cbn [fst snd].
    rewrite !string_app_assoc.
    apply (object_pairs_close _ _ _ k (compact x +:+ "}" +:+ rest) x rest).
    + by apply scanstring_plain.
    + rewrite skip_whitespace_start by (by apply compact_start).
      apply Hx. by eexists; right; right.
  - cbn [pairs_text]. unfold entry_body at 1. cbn [fst snd].
    rewrite !string_app_assoc.
    rewrite (object_pairs_comma _ _ _ k
               (compact x +:+ "," +:+ quote +:+ pairs_text e' d +:+ "}" +:+ rest)
               x (pairs_text e' d +:+ "}" +:+ rest)).
    + rewrite IH; [done|done|simpl in *; lia].
    + by apply scanstring_plain.
    + rewrite skip_whitespace_start by (by apply compact_start).
      apply Hx. by eexists; left.
Qed.

(** [dict(pairs)] on pairs whose keys differ. *)
Lemma dict_setitem_fresh k v (d : dict) :
  k ∉ d.*1 → dict_setitem k v d = d ++ [(k, v)].
Proof.
  induction d as [|[k' v'] d IH]; [done|]. simpl.
  intros [Hne Hnotin]%not_elem_of_cons.
  apply String.eqb_neq in Hne. rewrite Hne. by rewrite IH.
Qed.

Lemma dict_of_pairs (acc d : dict) :
  NoDup (acc.*1 ++ d.*1) →
  foldl (λ (d : dict) (pair : string * pyval), dict_setitem pair.1 pair.2 d) acc d
  = acc ++ d.
Proof.
  revert acc. induction d as [|[k v] d IH]; intros acc Hnodup.
  - by rewrite app_nil_r.
  - cbn [foldl fst snd]. rewrite dict_setitem_fresh; cycle 1.
    { apply NoDup_app in Hnodup as (_ & Hnotin & _).
      intros Hin. apply (Hnotin k Hin). simpl. left. }
    rewrite IH; [by rewrite <- app_assoc|].
    rewrite fmap_app. simpl. rewrite <- app_assoc. exact Hnodup.
Qed.

Lemma string_length_concat_elem (sep t : string) (texts : list string) :
  t ∈ texts → String.length t ≤ String.length (String.concat sep texts).
Proof.
  induction texts as [|a [|b texts] IH].
  - by intros ?%elem_of_nil.
  - by intros ->%list_elem_of_singleton.
  - change (String.concat sep (a :: b :: texts))
      with (a +:+ sep +:+ String.concat sep (b :: texts)).
    rewrite !string_length_app.
    intros [-> | Hin]%elem_of_cons; [lia|]. specialize (IH Hin). lia.
Qed.

Lemma string_length_concat_count (sep : string) (texts : list string) :
  Forall (λ t, 1 ≤ String.length t) texts →
  length texts ≤ String.length (String.concat sep texts).
Proof.
  induction texts as [|a [|b texts] IH]; intros Hall.
  - done.
  - apply Forall_cons in Hall as [Ha _]. simpl. lia.
  - apply Forall_cons in Hall as [Ha Hall]. specialize (IH Hall).
    change (String.concat sep (a :: b :: texts))
      with (a +:+ sep +:+ String.concat sep (b :: texts)).
    rewrite !string_length_app. simpl in *. lia.
Qed.

Lemma compact_not_empty (v : pyval) :
  plain v = true → 1 ≤ String.length (compact v).
Proof.
  intros Hplain. destruct (compact_start v "" Hplain) as (c & t & Htext & _).
  apply (f_equal String.length) in Htext.
  rewrite string_length_app in Htext. simpl in Htext. lia.
Qed.

Lemma length_pairs_text_value e d kv :
  kv ∈ e :: d → String.length (compact kv.2) < String.length (pairs_text e d).
Proof.
  revert e. induction d as [|e' d IH]; intros e.
  - intros ->%list_elem_of_singleton. cbn [pairs_text]. unfold entry_body.
    rewrite !string_length_app. simpl. lia.
  - cbn [pairs_text]. unfold entry_body at 1. rewrite !string_length_app.
    intros [-> | Hin]%elem_of_cons; [simpl; lia|].
    specialize (IH e' Hin). simpl. lia.
Qed.

Lemma length_pairs_text_count e d : length (e :: d) ≤ String.length (pairs_text e d).
Proof.
  revert e. induction d as [|e' d IH]; intros e.
  - cbn [pairs_text]. unfold entry_body. rewrite !string_length_app. simpl. lia.
  - cbn [pairs_text]. unfold entry_body at 1. rewrite !string_length_app.
    specialize (IH e'). simpl in *. lia.
Qed.

Lemma scan_value_string fuel s :
  Json.scan_value (S fuel) (quote +:+ s)
  = match Json.scanstring s with
    | Some (chars, rest) => Some (PStr chars, rest)
    | None => None
    end.
Proof. reflexivity. Qed.

Lemma scan_value_array fuel s :
  Json.scan_value (S fuel) ("[" +:+ s)
  = match Json.JSONArray (Json.scan_value fuel) s with
    | Ok (values, rest) => Some (PList values, rest)
    | Raise _ => None
    end.
Proof. reflexivity. Qed.

Lemma scan_value_object fuel s :
  Json.scan_value (S fuel) ("{" +:+ s) = Json.JSONObject (Json.scan_value fuel) s.
Proof. reflexivity. Qed.

Lemma JSONArray_start scan text :
  value_start text →
  Json.JSONArray scan text = Json.array_items scan (String.length text) text.
Proof.
  intros Hstart. unfold Json.JSONArray.
  rewrite (skip_whitespace_start _ Hstart).
  destruct Hstart as (c & t & -> & _ & Hbracket). by rewrite Hbracket.
Qed.

Lemma JSONObject_key scan s :
  Json.JSONObject scan (quote +:+ s)
  = match Json.object_pairs scan (String.length s) s with
    | Some (pairs, rest) =>
        Some (PDict (foldl (λ (d : dict) (pair : string * pyval),
                              dict_setitem pair.1 pair.2 d) [] pairs), rest)
    | None => None
    end.
Proof. reflexivity. Qed.

(** The scanner reads the text [compact] writes for a plain value back as
    that value and leaves the text that follows it; after an integer that
    text must not go on like a number. *)
Lemma scan_value_compact (v : pyval) :
  plain v = true →
  ∀ fuel rest,
    String.length (compact v) ≤ fuel →
    (∀ n, v = PInt n → number_end rest = true) →
    Json.scan_value fuel (compact v +:+ rest) = Some (v, rest).
Proof.
  induction v as [| b | n | x | s | l IH | d IH] using pyval_nested_ind;
    intros Hplain fuel rest Hfuel Hend;
    (destruct fuel as [|fuel];
     [pose proof (compact_not_empty _ Hplain); lia|]).
  - reflexivity.
  - by destruct b.
  - change (compact (PInt n)) with (pretty n).
    destruct (pretty_Z_head n rest) as (c & t & Hhead & Hc).
    rewrite Hhead, scan_value_number, <- Hhead by done.
    apply scan_number_pretty. by apply (Hend n).
  - done.
  - change (compact (PStr s)) with (quote +:+ s +:+ quote).
    rewrite !string_app_assoc, scan_value_string.
    by rewrite scanstring_plain.
  - change (compact (PList l))
      with ("[" +:+ String.concat "," (map compact l) +:+ "]") in *.
    rewrite !string_app_assoc, scan_value_array.
    destruct l as [|x l]; [reflexivity|].
    rewrite JSONArray_start; cycle 1.
    { simpl in Hplain. apply andb_prop in Hplain as [Hx _].
      destruct l; cbn [map String.concat]; rewrite ?string_app_assoc;
        by apply compact_start. }
    rewrite array_items_compact; [done| |].
    + rewrite !string_length_app in Hfuel.
      change (String.length "[") with 1 in Hfuel.
      change (String.length "]") with 1 in Hfuel.
      change (forallb plain (x :: l) = true) in Hplain.
      rewrite forallb_forall in Hplain.
      apply Forall_forall. intros v Hv.
      split; [apply Hplain; by apply list_elem_of_In|].
      intros r Hr. rewrite Forall_forall in IH.
      apply (IH v Hv); [apply Hplain; by apply list_elem_of_In| |].
      * pose proof (string_length_concat_elem "," (compact v)
                      (map compact (x :: l))) as Hlen.
        specialize (Hlen ltac:(by apply list_elem_of_fmap_2)). lia.
      * intros _ _. by apply delimiter_number_end.
    + rewrite string_length_app.
      pose proof (string_length_concat_count "," (map compact (x :: l))) as Hlen.
      rewrite length_map in Hlen.
      assert (length (x :: l) ≤ String.length (String.concat "," (map compact (x :: l))));
        [|lia].
      apply Hlen. apply Forall_fmap, Forall_forall. intros v Hv.
      apply compact_not_empty.
      change (forallb plain (x :: l) = true) in Hplain.
      rewrite forallb_forall in Hplain. apply Hplain. by apply list_elem_of_In.
  - destruct d as [|e d]; [reflexivity|].
    rewrite compact_PDict_cons in *.
    rewrite !string_app_assoc, scan_value_object, JSONObject_key.
    change (plain (PDict (e :: d)))
      with (forallb (λ kv, let '(k, x) := kv in plain_string k && plain x) (e :: d)
            && bool_decide (NoDup (e :: d).*1)) in Hplain.
    apply andb_prop in Hplain as [Hentries Hnodup].
    apply bool_decide_eq_true in Hnodup.
    rewrite forallb_forall in Hentries.
    rewrite object_pairs_compact.
    + by rewrite dict_of_pairs.
    + rewrite !string_length_app in Hfuel.
      change (String.length "{") with 1 in Hfuel.
      change (String.length "}") with 1 in Hfuel.
      change (String.length quote) with 1 in Hfuel.
      apply Forall_forall. intros [k x] Hkv.
      specialize (Hentries (k, x) ltac:(by apply list_elem_of_In)).
      cbn beta iota in Hentries. apply andb_prop in Hentries as [Hk Hx].
      split; [done|]. split; [done|]. cbn [snd].
      intros r Hr. rewrite Forall_forall in IH.
      apply (IH (k, x) Hkv); [done| |].
      * pose proof (length_pairs_text_value e d (k, x) Hkv). simpl in *. lia.
      * intros _ _. by apply delimiter_number_end.
    + rewrite string_length_app. pose proof (length_pairs_text_count e d). lia.
Qed.

Lemma scan_once_compact (d : dict) (rest : string) :
  plain (PDict d) = true →
  Json.scan_once (compact (PDict d) +:+ rest) = Some (PDict d, rest).
Proof.
  intros Hplain. unfold Json.scan_once.
  apply scan_value_compact; [done| |done].
  rewrite string_length_app. lia.
Qed.

(** A record that is a dictionary of plain values. *)
Definition plain_record (obj : pyval) : Prop :=
  ∃ d, obj = PDict d ∧ plain obj = true.

Lemma plain_record_round_trips (obj : pyval) :
  plain_record obj → round_trips Json.scan_once compact obj.
Proof.
  intros (d & -> & Hplain). split.
  - destruct d as [|e d]; [by eexists|].
    rewrite compact_PDict_cons. by eexists.
  - intros rest. by apply scan_once_compact.
Qed.

(** C8. Labelling the stimulus at the current index writes the whole file
    anew, one compact record per line between the two bracket lines; the
    collection written has the length and the order of the collection the
    file held, the record at the index is the labelled one, carrying the new
    [is_mirror] and otherwise the content it had, and every other record is
    the one the file held before. Reloading the file yields that collection:
    the decoder reads the bracket line, the records with the commas between
    them and the closing bracket the program wrote as the array of these
    records. This holds for every [json.dumps] and every scanner of one
    value that agree on each record written ([round_trips]); and it holds,
    with nothing taken from the library, for the compact printer and the
    scanner of this file on every collection of dictionaries of plain
    values. *)
Theorem label_round_trip :
  (∀ scan_once json_dumps value st text data s,
     Labeler.disk st Labeler.json_path = Some text →
     Json.load scan_once text = Ok (PList data) →
     Labeler.all_stimuli st !! Labeler.current_index st = Some (PDict s) →
     Labeler.current_index st < length data →
     Forall (round_trips scan_once json_dumps)
       (<[Labeler.current_index st :=
            PDict (dict_setitem "is_mirror" (PBool value) s)]> data) →
     ∃ st',
       label_key (Json.load scan_once) json_dumps value st = Ok st'
       ∧ labelled_and_reloaded (Json.load scan_once) json_dumps
           value st data s st')
  ∧ (∀ value st text data s,
       Labeler.disk st Labeler.json_path = Some text →
       Json.load Json.scan_once text = Ok (PList data) →
       Labeler.all_stimuli st !! Labeler.current_index st = Some (PDict s) →
       Labeler.current_index st < length data →
       Forall plain_record
         (<[Labeler.current_index st :=
              PDict (dict_setitem "is_mirror" (PBool value) s)]> data) →
       ∃ st',
         label_key (Json.load Json.scan_once) compact value st = Ok st'
         ∧ labelled_and_reloaded (Json.load Json.scan_once) compact
             value st data s st').
Proof.
  split.
  - intros scan_once json_dumps value st text data s.
    apply label_key_reloads.
  - intros value st text data s Hfile Hload Hstim Hk Hplain.
    apply (label_key_reloads Json.scan_once compact value st text data s);
      try done.
    eapply Forall_impl; [exact Hplain|]. apply plain_record_round_trips.
Qed.

Lemma label_round_trip_witness :
  ∃ st',
    label_key (Json.load Json.scan_once) compact true labelling = Ok st'
    ∧ Labeler.load_all_stimuli (Json.load Json.scan_once) (Labeler.disk st')
        Labeler.json_path
      = Ok (PList [ PDict (stimulus_record 0 (Some PNone));
                    PDict (stimulus_record 1 (Some (PBool true)));
                    PDict (stimulus_record 2 (Some (PBool true))) ]).
Proof.
  destruct label_round_trip as [_ Hconcrete].
  destruct (Hconcrete true labelling
              (Labeler.file_text compact unlabelled_file) unlabelled_file
              (stimulus_record 1 None))
    as (st' & Hrun & _ & _ & _ & _ & _ & _ & _ & Hreload & _).
  - reflexivity.
  - vm_compute. reflexivity.
  - reflexivity.
  - vm_compute. lia.
  - repeat (apply Forall_cons; split; [eexists; split; [reflexivity|]|]);
      try apply Forall_nil; vm_compute; reflexivity.
  - exists st'. split; [exact Hrun|]. exact Hreload.
Defined.

(** * Further properties of the code *)

(** ** The result log of a session *)

Definition is_response (e : event) : bool :=
  match e with
  | KEYDOWN K_s _ _ | KEYDOWN K_d _ _ => true
  | _ => false
  end.

(** What an event other than a response key can change: the drag, the
    accumulators (only with rotation enabled), [running] (only to false). *)
Lemma handle_event_other e st st' c :
  is_response e = false →
  handle_event e st = Ok (st', c) →
  c = Continue
  ∧ trials st' = trials st
  ∧ current_trial st' = current_trial st
  ∧ results st' = results st
  ∧ start_time st' = start_time st
  ∧ current_trial_data st' = current_trial_data st
  ∧ rotation_enabled st' = rotation_enabled st
  ∧ rotation st' = rotation st
  ∧ (running st' = running st ∨ running st' = false)
  ∧ (rotation_enabled st = false →
       response_rot_x st' = response_rot_x st
       ∧ response_rot_y st' = response_rot_y st).
Proof.
  intros Hother Hrun.
  destruct e as [|k now now'|button pos|button|pos|]; simpl in *.
  - simplify_eq. simpl. by repeat split; auto.
  - destruct k; simplify_eq/=; by repeat split; auto.
  - simplify_eq. unfold on_mouse_button_down.
    destruct (_ && _); simpl; by repeat split; auto.
  - simplify_eq. unfold on_mouse_button_up.
    case_bool_decide; simpl; by repeat split; auto.
  - unfold on_mouse_motion in Hrun.
    destruct (mouse_dragging st); simpl in Hrun;
      [destruct (rotation_enabled st) eqn:Hrot; simpl in Hrun|].
    + destruct (last_mouse_pos st); simplify_eq/=.
      by repeat split; auto.
    + simplify_eq. by repeat split; auto.
    + simplify_eq. by repeat split; auto.
  - simplify_eq. by repeat split; auto.
Qed.

Lemma handle_event_response e st st' c :
  is_response e = true →
  handle_event e st = Ok (st', c) →
  ∃ k now now' different id rot rot_y,
    e = KEYDOWN k now now'
    ∧ answer k = Some different
    ∧ dict_lookup "id" (Trial.stimulus (current_trial_data st)) = Some id
    ∧ rotation st = Some rot
    ∧ py_getitem rot "y" = Ok rot_y
    ∧ record_and_advance (built_result different now st id rot_y) now' st
      = Ok (st', c).
Proof.
  intros Hresp Hrun.
  destruct e as [|k now now'| | | |]; try done.
  assert (∃ different, answer k = Some different) as [different Hans]
    by (destruct k; simplify_eq/=; eauto).
  destruct (response_inv _ _ _ _ _ _ _ Hans Hrun)
    as (id & rot & rot_y & Hid & Hrot & Hy & Hadv).
  by exists k, now, now', different, id, rot, rot_y.
Qed.

(** The current trial is the one the index points at. *)
Definition coherent (st : state) : Prop :=
  trials st !! current_trial st = Some (current_trial_data st)
  ∧ rotation_enabled st = Trial.rotation_enabled (current_trial_data st).

(** The last trial has been answered. *)
Definition finished (st : state) : Prop :=
  running st = false ∧ current_trial st = length (trials st).

(** The result at position [i] of the log is the record of trial [i] of the
    plan. *)
Definition recorded_for (plan : list Trial.t) (i : nat) (r : TrialResult.t) : Prop :=
  TrialResult.trial_number r = i + 1
  ∧ ∃ t, plan !! i = Some t
      ∧ dict_lookup "id" (Trial.stimulus t) = Some (TrialResult.stimulus_id r)
      ∧ TrialResult.is_mirror r = Trial.is_mirror t
      ∧ TrialResult.rotation_enabled r = Trial.rotation_enabled t
      ∧ TrialResult.initial_angle r
        = dict_get (Trial.stimulus t) "angle" (PFloat 0)
      ∧ TrialResult.is_correct r
        = (if TrialResult.user_response r then Trial.is_mirror t
           else py_not (Trial.is_mirror t))
      ∧ (TrialResult.rotation_enabled r = false → TrialResult.disparity r = 0%R).

Definition session_inv (st : state) : Prop :=
  length (results st) = current_trial st
  ∧ (∀ i r, results st !! i = Some r → recorded_for (trials st) i r)
  ∧ (rotation_enabled st = false → rotation_zero st).

Lemma start_experiment_inv plan now st :
  start_experiment plan now = Ok st →
  trials st = plan ∧ session_inv st ∧ coherent st ∧ running st = true.
Proof.
  unfold start_experiment. destruct (plan !! 0) as [t|] eqn:Ht; [|done].
  intros [= <-]. split; [done|]. split; [|done].
  split; [done|]. split; [by intros i r ?|]. by intros _.
Qed.

Lemma bind_rotation_inv st :
  session_inv st → session_inv (bind_rotation st).
Proof. done. Qed.

Lemma disparity_zero a : calculate_angular_disparity a 0 0 = 0%R.
Proof.
  unfold calculate_angular_disparity.
  replace (0 * 0 + 0 * 0)%R with 0%R by ring. apply sqrt_0.
Qed.

Lemma handle_event_inv e st st' c :
  session_inv st → coherent st →
  handle_event e st = Ok (st', c) →
  trials st' = trials st
  ∧ session_inv st'
  ∧ match c with Continue => coherent st' | Break => finished st' end.
Proof.
  intros (Hlen & Hlog & Hstill) [Hcur Hflag] Hrun.
  destruct (is_response e) eqn:Hresp.
  - destruct (handle_event_response _ _ _ _ Hresp Hrun)
      as (k & now & now' & different & id & rot & rot_y
          & -> & Hans & Hid & Hrot & Hy & Hadv).
    apply record_and_advance_inv in Hadv as (Hres & Htrials & Hnext & Hc).
    split; [done|].
    assert (recorded_for (trials st) (current_trial st)
              (built_result different now st id rot_y)) as Hrec.
    { split; [done|]. exists (current_trial_data st). simpl.
      split; [done|]. split; [done|]. split; [done|]. split; [done|].
      split; [done|]. split; [by destruct different|].
      intros Hoff. destruct (Hstill Hoff) as [-> ->]. apply disparity_zero. }
    assert (length (results st') = current_trial st'
            ∧ ∀ i r, results st' !! i = Some r → recorded_for (trials st') i r)
      as [Hlen' Hlog'].
    { rewrite Hres, Htrials, Hnext, length_app. simpl. split; [lia|].
      intros i r Hr. apply lookup_app_Some in Hr as [Hr | [Hge Hr]].
      - by apply Hlog.
      - apply list_lookup_singleton_Some in Hr as [Hi <-].
        by replace i with (current_trial st) by lia. }
    destruct c.
    + destruct Hc as (Hdata & Hflag' & _ & _ & Hx & Hy').
      split; [|split; [rewrite Htrials, Hnext; exact Hdata | exact Hflag']].
      split; [done|]. split; [done|]. by intros _.
    + destruct Hc as (Hlast & Hstop & Hx & Hy').
      apply lookup_lt_Some in Hcur.
      split; [|split; [done | rewrite Htrials; lia]].
      split; [done|]. split; [done|].
      assert (rotation_enabled st' = rotation_enabled st) as Hsame.
      { destruct (handle_event_response _ _ _ _ Hresp Hrun)
          as (? & ? & ? & ? & ? & ? & ? & _ & _ & _ & _ & _ & Hadv).
        unfold record_and_advance in Hadv.
        case_bool_decide; [by simplify_eq|].
        destruct (trials st !! _); by simplify_eq. }
      rewrite Hsame. intros Hoff. destruct (Hstill Hoff).
      split; congruence.
  - destruct (handle_event_other _ _ _ _ Hresp Hrun)
      as (-> & Htrials & Hidx & Hres & _ & Hdata & Hflag' & _ & _ & Hrot).
    split; [done|]. split.
    + split; [congruence|]. split; [by rewrite Hres, Htrials|].
      rewrite Hflag'. intros Hoff. destruct (Hrot Hoff) as [Hx Hy].
      destruct (Hstill Hoff). split; congruence.
    + split; congruence.
Qed.

Lemma process_events_inv events st st' :
  session_inv st → coherent st →
  process_events events st = Ok st' →
  trials st' = trials st ∧ session_inv st' ∧ (coherent st' ∨ finished st').
Proof.
  revert st. induction events as [|e events IH]; intros st Hinv Hco; simpl.
  - intros [= <-]. auto.
  - destruct (handle_event e st) as [[st1 c]|] eqn:Hrun; simpl; [|done].
    destruct (handle_event_inv _ _ _ _ Hinv Hco Hrun) as (Htr & Hinv1 & Hc).
    destruct c.
    + intros Hrest. destruct (IH _ Hinv1 Hc Hrest) as (? & ? & ?).
      split; [congruence|]. done.
    + intros [= <-]. auto.
Qed.

Lemma main_loop_inv draw frames st st' :
  session_inv st → coherent st ∨ finished st →
  main_loop draw frames st = Ok st' →
  trials st' = trials st ∧ session_inv st' ∧ (coherent st' ∨ finished st').
Proof.
  revert st. induction frames as [|events frames IH]; intros st Hinv Hco; simpl.
  - intros [= <-]. auto.
  - destruct (running st) eqn:Hrunning; [|intros [= <-]; auto].
    destruct Hco as [Hco | [Hstop _]]; [|congruence].
    destruct (process_events events st) as [st1|] eqn:Hev; simpl; [|done].
    destruct (process_events_inv _ _ _ Hinv Hco Hev) as (Htr & Hinv1 & Hc1).
    destruct (render draw st1) as [st2|] eqn:Hdraw; simpl; [|done].
    apply render_inv in Hdraw as ->.
    intros Hrest.
    destruct (IH (bind_rotation st1)) as (? & ? & ?); [done|done|done|].
    split; [|done]. simpl in *. congruence.
Qed.

(** The states a session reaches. *)
Lemma session_reach draw plan now frames st0 st :
  start_experiment plan now = Ok st0 →
  main_loop draw frames st0 = Ok st →
  trials st = plan ∧ session_inv st ∧ (coherent st ∨ finished st).
Proof.
  intros (Htr & Hinv & Hco & _)%start_experiment_inv Hloop.
  destruct (main_loop_inv _ _ _ _ Hinv (or_introl Hco) Hloop) as (? & ? & ?).
  split; [congruence | done].
Qed.

(** A session of two answers on the plan [trial_plain; trial_null], every
    drawing succeeding: an empty first frame, then "same", then "different". *)
Definition draws : pyval → pyval → R → R → result unit := λ _ _ _ _, Ok ().

Definition two_answers : list (list event) :=
  [ []; [KEYDOWN K_s 2 3]; [KEYDOWN K_d 5 6] ].

(** X1. In every state a session reaches, the log holds one result per
    trial answered so far, numbered 1, 2, ... in the order of the log; the
    number of results never exceeds the length of the plan, and it is below
    that length as long as the session is running. *)
Theorem session_one_result_per_trial draw plan now frames st0 st :
  start_experiment plan now = Ok st0 →
  main_loop draw frames st0 = Ok st →
  length (results st) = current_trial st
  ∧ length (results st) ≤ length plan
  ∧ (∀ i r, results st !! i = Some r → TrialResult.trial_number r = i + 1)
  ∧ (running st = true → length (results st) < length plan).
Proof.
  intros Hstart Hloop.
  destruct (session_reach _ _ _ _ _ _ Hstart Hloop)
    as (<- & (Hlen & Hlog & _) & Hstate).
  split; [done|]. rewrite Hlen.
  assert (current_trial st ≤ length (trials st)
          ∧ (running st = true → current_trial st < length (trials st)))
    as [Hle Hlt].
  { destruct Hstate as [[Hcur _] | [Hstop ->]].
    - apply lookup_lt_Some in Hcur. split; [lia | done].
    - split; [done | congruence]. }
  split; [done|]. split; [|done].
  intros i r Hr. by destruct (Hlog i r Hr).
Qed.

Lemma session_one_result_per_trial_witness :
  ∃ st, main_loop draws two_answers (opening_state trial_plain [trial_null] 0)
        = Ok st
        ∧ length (results st) = current_trial st
        ∧ (∀ i r, results st !! i = Some r → TrialResult.trial_number r = i + 1).
Proof.
  eexists. split; [reflexivity|].
  destruct (session_one_result_per_trial draws [trial_plain; trial_null] 0%R
              two_answers (opening_state trial_plain [trial_null] 0) _
              (start_experiment_cons _ _ _) eq_refl) as (Hlen & _ & Hnum & _).
  by split.
Defined.

(** X2. The result at position [i] of the log is the record of trial [i] of
    the plan: it carries that trial's stimulus id, [is_mirror], rotation
    condition and angle, and its [is_correct] follows from the answer and
    that trial's [is_mirror]. *)
Theorem session_results_follow_plan draw plan now frames st0 st i r :
  start_experiment plan now = Ok st0 →
  main_loop draw frames st0 = Ok st →
  results st !! i = Some r →
  ∃ t, plan !! i = Some t
    ∧ dict_lookup "id" (Trial.stimulus t) = Some (TrialResult.stimulus_id r)
    ∧ TrialResult.is_mirror r = Trial.is_mirror t
    ∧ TrialResult.rotation_enabled r = Trial.rotation_enabled t
    ∧ TrialResult.initial_angle r = dict_get (Trial.stimulus t) "angle" (PFloat 0)
    ∧ TrialResult.is_correct r
      = (if TrialResult.user_response r then Trial.is_mirror t
         else py_not (Trial.is_mirror t)).
Proof.
  intros Hstart Hloop Hr.
  destruct (session_reach _ _ _ _ _ _ Hstart Hloop) as (<- & (_ & Hlog & _) & _).
  destruct (Hlog i r Hr) as (_ & t & Ht & Hid & Hm & Hrot & Hangle & Hcorrect & _).
  by exists t.
Qed.

Lemma session_results_follow_plan_witness :
  ∃ st r,
    main_loop draws two_answers (opening_state trial_plain [trial_null] 0) = Ok st
    ∧ results st !! 1 = Some r
    ∧ TrialResult.stimulus_id r = PInt 0
    ∧ TrialResult.is_mirror r = PNone
    ∧ TrialResult.rotation_enabled r = false.
Proof.
  eexists _, _. split; [reflexivity|]. split; [reflexivity|].
  destruct (session_results_follow_plan draws [trial_plain; trial_null] 0%R
              two_answers (opening_state trial_plain [trial_null] 0) _ 1 _
              (start_experiment_cons _ _ _) eq_refl eq_refl)
    as (t & Ht & Hid & Hm & Hrot & _).
  injection Ht as <-. rewrite Hm, Hrot.
  split; [|done]. apply (inj Some). by rewrite <- Hid.
Defined.

(** X3. A result recorded for a trial without rotation has disparity 0:
    pointer moves do not reach the accumulators while rotation is disabled,
    and the accumulators are 0 when such a trial starts. *)
Theorem session_no_rotation_no_disparity draw plan now frames st0 st r :
  start_experiment plan now = Ok st0 →
  main_loop draw frames st0 = Ok st →
  r ∈ results st →
  TrialResult.rotation_enabled r = false →
  TrialResult.disparity r = 0%R.
Proof.
  intros Hstart Hloop [i Hr]%list_elem_of_lookup Hoff.
  destruct (session_reach _ _ _ _ _ _ Hstart Hloop) as (_ & (_ & Hlog & _) & _).
  destruct (Hlog i r Hr) as (_ & t & _ & _ & _ & _ & _ & _ & Hzero).
  by apply Hzero.
Qed.

(** The same plan, the pointer dragged while the second trial, which has no
    rotation, is shown. *)
Definition dragged_answers : list (list event) :=
  [ []; [KEYDOWN K_s 2 3];
    [MOUSEBUTTONDOWN 1 (10, 10)%Z; MOUSEMOTION (50, 80)%Z; KEYDOWN K_d 5 6] ].

Lemma session_no_rotation_no_disparity_witness :
  ∃ st r,
    main_loop draws dragged_answers (opening_state trial_plain [trial_null] 0)
    = Ok st
    ∧ results st !! 1 = Some r
    ∧ TrialResult.disparity r = 0%R.
Proof.
  eexists _, _. split; [reflexivity|]. split; [reflexivity|].
  eapply (session_no_rotation_no_disparity draws [trial_plain; trial_null] 0%R
            dragged_answers (opening_state trial_plain [trial_null] 0)).
  - apply start_experiment_cons.
  - reflexivity.
  - apply list_elem_of_lookup. by exists 1.
  - reflexivity.
Defined.

(** ** What the session loop keeps *)

Lemma handle_event_keeps e st st' c :
  handle_event e st = Ok (st', c) →
  results st `prefix_of` results st'
  ∧ trials st' = trials st
  ∧ (running st = false → running st' = false).
Proof.
  intros Hrun. destruct (is_response e) eqn:Hresp.
  - destruct (handle_event_response _ _ _ _ Hresp Hrun)
      as (k & now & now' & different & id & rot & rot_y & _ & _ & _ & _ & _ & Hadv).
    apply record_and_advance_inv in Hadv as (-> & -> & _ & Hc).
    split; [by apply prefix_app_r|]. split; [done|].
    destruct c; [destruct Hc as (_ & _ & -> & _); done | by destruct Hc as (_ & -> & _)].
  - destruct (handle_event_other _ _ _ _ Hresp Hrun)
      as (_ & -> & _ & -> & _ & _ & _ & _ & Hrunning & _).
    split; [done|]. split; [done|]. destruct Hrunning; congruence.
Qed.

Lemma process_events_keeps events st st' :
  process_events events st = Ok st' →
  results st `prefix_of` results st'
  ∧ trials st' = trials st
  ∧ (running st = false → running st' = false).
Proof.
  revert st. induction events as [|e events IH]; intros st; simpl.
  - by intros [= <-].
  - destruct (handle_event e st) as [[st1 c]|] eqn:Hrun; simpl; [|done].
    destruct (handle_event_keeps _ _ _ _ Hrun) as (Hpre & Htr & Hstop).
    destruct c.
    + intros (Hpre' & Htr' & Hstop')%IH.
      split; [by etrans|]. split; [congruence | auto].
    + by intros [= <-].
Qed.

(** X4. The session loop only ever appends to the log and never touches
    the plan: the results a state holds are still there, in the same order
    and at the front of the log, in every state the loop reaches from it. *)
Theorem session_log_append_only draw frames st st' :
  main_loop draw frames st = Ok st' →
  results st `prefix_of` results st' ∧ trials st' = trials st.
Proof.
  revert st. induction frames as [|events frames IH]; intros st; simpl.
  - by intros [= <-].
  - destruct (running st); [|by intros [= <-]].
    destruct (process_events events st) as [st1|] eqn:Hev; simpl; [|done].
    destruct (render draw st1) as [st2|] eqn:Hdraw; simpl; [|done].
    apply render_inv in Hdraw as ->.
    destruct (process_events_keeps _ _ _ Hev) as (Hpre & Htr & _).
    intros [Hpre' Htr']%IH. simpl in *.
    split; [by etrans | congruence].
Qed.

Lemma session_log_append_only_witness :
  ∃ st', main_loop draws [[KEYDOWN K_d 5 6]] second_frame = Ok st'
         ∧ results second_frame `prefix_of` results st'
         ∧ length (results st') = 2.
Proof.
  eexists. split; [reflexivity|].
  destruct (session_log_append_only draws [[KEYDOWN K_d 5 6]] second_frame _ eq_refl)
    as [Hprefix _].
  by split.
Defined.

(** *** The end of a session *)

Definition is_quit (e : event) : bool :=
  match e with
  | QUIT | KEYDOWN K_ESCAPE _ _ => true
  | _ => false
  end.

Lemma process_events_quit events st st' :
  existsb is_quit events = true →
  process_events events st = Ok st' →
  running st' = false.
Proof.
  revert st. induction events as [|e events IH]; intros st; simpl; [done|].
  intros Hquit.
  destruct (handle_event e st) as [[st1 c]|] eqn:Hrun; simpl; [|done].
  destruct c.
  - destruct (is_quit e) eqn:He.
    + intros Hrest.
      assert (running st1 = false) as Hstop.
      { destruct e as [|[]| | | |]; by simplify_eq/=. }
      by destruct (process_events_keeps _ _ _ Hrest) as (_ & _ & ->).
    + simpl in Hquit. by apply IH.
  - intros [= <-].
    destruct (is_response e) eqn:Hresp.
    + destruct (handle_event_response _ _ _ _ Hresp Hrun)
        as (? & ? & ? & ? & ? & ? & ? & _ & _ & _ & _ & _ & Hadv).
      by apply record_and_advance_inv in Hadv as (_ & _ & _ & _ & -> & _).
    + by destruct (handle_event_other _ _ _ _ Hresp Hrun) as (? & _).
Qed.

(** X5. [QUIT] or Escape anywhere among the events of a frame ends the
    session with that frame: the loop draws once more and returns, whatever
    later frames hold, and [running] is never set back to true. The results
    recorded until the end of that frame are the results of the session. *)
Theorem quit_ends_session draw events frames st st1 :
  running st = true →
  existsb is_quit events = true →
  process_events events st = Ok st1 →
  running st1 = false
  ∧ main_loop draw (events :: frames) st = render draw st1
  ∧ (∀ st', main_loop draw (events :: frames) st = Ok st' →
       results st' = results st1).
Proof.
  intros Hrunning Hquit Hev.
  assert (running st1 = false) as Hstop.
  { by eapply process_events_quit. }
  assert (main_loop draw (events :: frames) st = render draw st1) as Hloop.
  { simpl. rewrite Hrunning, Hev. simpl.
    destruct (render draw st1) as [st2|] eqn:Hdraw; simpl; [|done].
    apply render_inv in Hdraw as ->.
    destruct frames; simpl; [done|]. by rewrite Hstop. }
  split; [done|]. split; [done|].
  intros st'. rewrite Hloop. by intros ->%render_inv.
Qed.

Lemma quit_ends_session_witness :
  ∃ st1,
    process_events [KEYDOWN K_s 2 3; QUIT; MOUSEBUTTONDOWN 1 (3, 4)%Z] first_frame
    = Ok st1
    ∧ running st1 = false
    ∧ main_loop draws
        [ [KEYDOWN K_s 2 3; QUIT; MOUSEBUTTONDOWN 1 (3, 4)%Z]; [KEYDOWN K_d 5 6] ]
        first_frame
      = render draws st1
    ∧ length (results st1) = 1.
Proof.
  eexists. split; [reflexivity|].
  destruct (quit_ends_session draws
              [KEYDOWN K_s 2 3; QUIT; MOUSEBUTTONDOWN 1 (3, 4)%Z]
              [[KEYDOWN K_d 5 6]] first_frame _ eq_refl eq_refl eq_refl)
    as (Hstop & Hloop & _).
  by split.
Defined.

Lemma handle_event_coherent e st st' c :
  coherent st →
  handle_event e st = Ok (st', c) →
  match c with
  | Continue => coherent st'
  | Break => current_trial st' = length (trials st')
  end.
Proof.
  intros [Hcur Hflag] Hrun. destruct (is_response e) eqn:Hresp.
  - destruct (handle_event_response _ _ _ _ Hresp Hrun)
      as (? & ? & ? & ? & ? & ? & ? & _ & _ & _ & _ & _ & Hadv).
    apply record_and_advance_inv in Hadv as (_ & Htr & Hnext & Hc).
    destruct c.
    + destruct Hc as (Hdata & Hflag' & _). split; [|done].
      by rewrite Htr, Hnext.
    + destruct Hc as (Hlast & _). apply lookup_lt_Some in Hcur.
      rewrite Htr. lia.
  - destruct (handle_event_other _ _ _ _ Hresp Hrun)
      as (-> & Htr & Hidx & _ & _ & Hdata & Hflag' & _).
    split; congruence.
Qed.

(** X6. The answer to the last trial ends the frame: the events that
    follow it in the same frame are not handled at all. *)
Theorem last_answer_ends_frame events rest st st' :
  coherent st →
  process_events events st = Ok st' →
  current_trial st' = length (trials st') →
  process_events (events ++ rest) st = Ok st'.
Proof.
  revert st. induction events as [|e events IH]; intros st Hco; simpl.
  - intros [= <-] Hlast. destruct Hco as [Hcur _].
    apply lookup_lt_Some in Hcur. lia.
  - destruct (handle_event e st) as [[st1 c]|] eqn:Hrun; simpl; [|done].
    pose proof (handle_event_coherent _ _ _ _ Hco Hrun) as Hc.
    destruct c; [by apply IH | done].
Qed.

Lemma last_answer_ends_frame_witness :
  ∃ st',
    process_events [KEYDOWN K_d 5 6] second_frame = Ok st'
    ∧ process_events ([KEYDOWN K_d 5 6] ++ [KEYDOWN K_s 7 8; MOUSEMOTION (1, 1)%Z])
        second_frame
      = Ok st'.
Proof.
  eexists. split; [reflexivity|].
  apply last_answer_ends_frame; [by split | reflexivity | reflexivity].
Defined.

(** *** A response before the first frame *)

Lemma pointer_move_total pos st :
  drag_tracked st → ∃ st', handle_event (MOUSEMOTION pos) st = Ok (st', Continue).
Proof.
  intros Htracked. simpl. unfold on_mouse_motion.
  destruct (mouse_dragging st) eqn:Hdrag; simpl; [|by eauto].
  destruct (rotation_enabled st); simpl; [|by eauto].
  destruct (Htracked Hdrag) as [last ->]. simpl. eauto.
Qed.

Lemma response_unbound_rotation e st :
  is_response e = true →
  rotation st = None →
  handle_event e st = Raise (KeyError "id")
  ∨ handle_event e st = Raise (UnboundLocalError "rotation").
Proof.
  intros Hresp Hnone.
  destruct e as [|[] now now'| | | |]; try done; simpl;
    unfold on_key_s, on_key_d, dict_getitem;
    (destruct (dict_lookup "id" _); simpl; [right | by left]);
    by rewrite Hnone.
Qed.

Lemma process_events_unbound_rotation events st :
  existsb is_response events = true →
  rotation st = None →
  drag_tracked st →
  process_events events st = Raise (KeyError "id")
  ∨ process_events events st = Raise (UnboundLocalError "rotation").
Proof.
  revert st. induction events as [|e events IH]; intros st; simpl; [done|].
  intros Hresp Hnone Htracked.
  destruct (is_response e) eqn:He.
  - destruct (response_unbound_rotation _ _ He Hnone) as [-> | ->]; auto.
  - simpl in Hresp.
    assert (∃ st1, handle_event e st = Ok (st1, Continue)) as [st1 Hrun].
    { destruct e as [|[] ? ?| | |pos|]; try done; try (by simpl; eauto).
      by apply pointer_move_total. }
    rewrite Hrun. simpl. apply IH; [done| |].
    + destruct (handle_event_other _ _ _ _ He Hrun)
        as (_ & _ & _ & _ & _ & _ & _ & -> & _). done.
    + by eapply handle_event_drag_tracked.
Qed.

(** X7. A response key among the events of the very first frame ends the
    program with an exception, before anything is recorded: [rotation] is
    bound only by the drawing code at the end of a frame, so the response
    raises [UnboundLocalError] (or [KeyError] first, when the stimulus has no
    ['id']). *)
Theorem response_in_first_frame_raises draw plan now st0 events frames :
  start_experiment plan now = Ok st0 →
  existsb is_response events = true →
  main_loop draw (events :: frames) st0 = Raise (KeyError "id")
  ∨ main_loop draw (events :: frames) st0 = Raise (UnboundLocalError "rotation").
Proof.
  intros Hstart Hresp.
  pose proof (start_experiment_drag_tracked _ _ _ Hstart) as Htracked.
  assert (rotation st0 = None ∧ running st0 = true) as [Hnone Hrunning].
  { unfold start_experiment in Hstart.
    destruct (plan !! 0); by simplify_eq. }
  simpl. rewrite Hrunning.
  destruct (process_events_unbound_rotation _ _ Hresp Hnone Htracked)
    as [-> | ->]; auto.
Qed.

Lemma response_in_first_frame_raises_witness :
  main_loop draws [[MOUSEBUTTONDOWN 1 (3, 4)%Z; KEYDOWN K_s 2 3]; []]
    (opening_state trial_plain [trial_null] 0)
  = Raise (UnboundLocalError "rotation").
Proof.
  destruct (response_in_first_frame_raises draws [trial_plain; trial_null] 0%R
              (opening_state trial_plain [trial_null] 0)
              [MOUSEBUTTONDOWN 1 (3, 4)%Z; KEYDOWN K_s 2 3] [[]]
              (start_experiment_cons _ _ _) eq_refl) as [Hkey | Hunbound].
  - discriminate Hkey.
  - exact Hunbound.
Defined.

(** *** Response times *)

(** The two clock values a response key carries. *)
Definition readings (e : event) : option (R * R) :=
  match e with
  | KEYDOWN K_s now now' | KEYDOWN K_d now now' => Some (now, now')
  | _ => None
  end.

(** The clock does not run backwards: from the time [t] on, the values
    [time.time()] returns while the events are handled do not decrease. *)
Fixpoint clock_monotone (t : R) (events : list event) : Prop :=
  match events with
  | [] => True
  | e :: events' =>
      match readings e with
      | Some (now, now') =>
          (t <= now)%R ∧ (now <= now')%R ∧ clock_monotone now' events'
      | None => clock_monotone t events'
      end
  end.

Definition times_ok (st : state) : Prop :=
  Forall (λ r, (0 <= TrialResult.response_time r)%R) (results st).

Lemma handle_event_clock e rest st st' c :
  clock_monotone (start_time st) (e :: rest) →
  times_ok st →
  handle_event e st = Ok (st', c) →
  times_ok st' ∧ (c = Continue → clock_monotone (start_time st') rest).
Proof.
  intros Hclock Htimes Hrun. destruct (is_response e) eqn:Hresp.
  - destruct (handle_event_response _ _ _ _ Hresp Hrun)
      as (k & now & now' & different & id & rot & rot_y
          & -> & Hans & _ & _ & _ & Hadv).
    assert ((start_time st <= now)%R ∧ clock_monotone now' rest) as [Hnow Hrest]
      by (by destruct k; simplify_eq/=; destruct Hclock as (? & _ & ?)).
    apply record_and_advance_inv in Hadv as (Hres & _ & _ & Hc).
    split.
    + unfold times_ok. rewrite Hres. apply Forall_app. split; [done|].
      apply Forall_singleton. simpl. lra.
    + intros ->. by destruct Hc as (_ & _ & _ & -> & _).
  - destruct (handle_event_other _ _ _ _ Hresp Hrun)
      as (_ & _ & _ & Hres & Hstart & _).
    assert (clock_monotone (start_time st) rest) as Hrest
      by (destruct e as [|[] ? ?| | | |]; by simplify_eq/=).
    unfold times_ok. by rewrite Hres, Hstart.
Qed.

Lemma process_events_clock events rest st st' :
  clock_monotone (start_time st) (events ++ rest) →
  times_ok st →
  process_events events st = Ok st' →
  times_ok st' ∧ (running st' = true → clock_monotone (start_time st') rest).
Proof.
  revert st. induction events as [|e events IH]; intros st Hclock Htimes; simpl.
  - by intros [= <-].
  - destruct (handle_event e st) as [[st1 c]|] eqn:Hrun; simpl; [|done].
    destruct (handle_event_clock _ _ _ _ _ Hclock Htimes Hrun) as [Htimes1 Hclock1].
    destruct c.
    + by apply IH; [apply Hclock1|].
    + intros [= <-]. split; [done|].
      destruct (is_response e) eqn:Hresp.
      * destruct (handle_event_response _ _ _ _ Hresp Hrun)
          as (? & ? & ? & ? & ? & ? & ? & _ & _ & _ & _ & _ & Hadv).
        apply record_and_advance_inv in Hadv as (_ & _ & _ & _ & -> & _). done.
      * by destruct (handle_event_other _ _ _ _ Hresp Hrun) as (? & _).
Qed.

Lemma main_loop_clock draw frames st st' :
  (running st = true → clock_monotone (start_time st) (concat frames)) →
  times_ok st →
  main_loop draw frames st = Ok st' →
  times_ok st'.
Proof.
  revert st. induction frames as [|events frames IH]; intros st Hclock Htimes; simpl.
  - by intros [= <-].
  - destruct (running st) eqn:Hrunning; [|by intros [= <-]].
    destruct (process_events events st) as [st1|] eqn:Hev; simpl; [|done].
    destruct (process_events_clock _ _ _ _ (Hclock eq_refl) Htimes Hev)
      as [Htimes1 Hclock1].
    destruct (render draw st1) as [st2|] eqn:Hdraw; simpl; [|done].
    apply render_inv in Hdraw as ->.
    by apply IH.
Qed.

(** X8. When the clock does not run backwards, no recorded response time is
    negative: the time of a result is the clock at the response minus the
    clock at the start of its trial. *)
Theorem response_times_nonnegative draw plan now frames st0 st r :
  start_experiment plan now = Ok st0 →
  clock_monotone now (concat frames) →
  main_loop draw frames st0 = Ok st →
  r ∈ results st →
  (0 <= TrialResult.response_time r)%R.
Proof.
  intros Hstart Hclock Hloop Hr.
  assert (start_time st0 = now ∧ results st0 = []) as [Hnow Hempty].
  { unfold start_experiment in Hstart. destruct (plan !! 0); by simplify_eq. }
  assert (times_ok st) as Htimes.
  { eapply main_loop_clock; [|..|exact Hloop].
    - intros _. by rewrite Hnow.
    - unfold times_ok. rewrite Hempty. constructor. }
  unfold times_ok in Htimes. rewrite Forall_forall in Htimes. by apply Htimes.
Qed.

Lemma response_times_nonnegative_witness :
  ∃ st r,
    main_loop draws two_answers (opening_state trial_plain [trial_null] 0) = Ok st
    ∧ results st !! 1 = Some r
    ∧ (0 <= TrialResult.response_time r)%R.
Proof.
  eexists _, _. split; [reflexivity|]. split; [reflexivity|].
  eapply (response_times_nonnegative draws [trial_plain; trial_null] 0%R
            two_answers (opening_state trial_plain [trial_null] 0)).
  - apply start_experiment_cons.
  - simpl. repeat split; lra.
  - reflexivity.
  - apply list_elem_of_lookup. by exists 1.
Defined.

(** *** A session answered to the end *)

(** A trial the session can show and record without an exception: its
    stimulus has an ['id'] and both figures, and the rotation the drawing
    code reads has a ['y']. *)
Definition presentable (t : Trial.t) : Prop :=
  is_Some (dict_lookup "id" (Trial.stimulus t))
  ∧ is_Some (dict_lookup "figure_left" (Trial.stimulus t))
  ∧ is_Some (dict_lookup "figure_right" (Trial.stimulus t))
  ∧ ∃ rot_y, py_getitem (stimulus_rotation (Trial.stimulus t)) "y" = Ok rot_y.

(** One frame per answer: the answer ([true] for "different") and the two
    clock values. *)
Definition answer_frame (a : bool * R * R) : list event :=
  [KEYDOWN (if a.1.1 then K_d else K_s) a.1.2 a.2].

Lemma render_total draw st :
  (∀ figure rot x y, draw figure rot x y = Ok ()) →
  presentable (current_trial_data st) →
  render draw st = Ok (bind_rotation st).
Proof.
  intros Hdraw ([id Hid] & [fl Hfl] & [fr Hfr] & _).
  unfold render, dict_getitem. rewrite Hfl. simpl. rewrite Hdraw. simpl.
  rewrite Hfr. simpl. by destruct (rotation_enabled st); rewrite Hdraw.
Qed.

Lemma main_loop_step draw events frames st :
  running st = true →
  main_loop draw (events :: frames) st
  = (try st1 := process_events events st in
     try st2 := render draw st1 in
     main_loop draw frames st2).
Proof. intros Hrunning. simpl. by rewrite Hrunning. Qed.

Lemma process_events_single e st :
  process_events [e] st = (try (st', _) := handle_event e st in Ok st').
Proof. simpl. by destruct (handle_event e st) as [[st' []]|]. Qed.

Lemma answers_run draw answers st :
  (∀ figure rot x y, draw figure rot x y = Ok ()) →
  Forall presentable (trials st) →
  coherent st →
  running st = true →
  rotation st = Some (stimulus_rotation (Trial.stimulus (current_trial_data st))) →
  current_trial st + length answers = length (trials st) →
  ∃ st',
    main_loop draw (answer_frame <$> answers) st = Ok st'
    ∧ running st' = false
    ∧ current_trial st' = length (trials st)
    ∧ TrialResult.user_response <$> results st'
      = (TrialResult.user_response <$> results st) ++ answers.*1.*1.
Proof.
  intros Hdraw. revert st.
  induction answers as [|[[different now] now'] answers IH];
    intros st Hplan [Hcur Hflag] Hrunning Hrot Hleft.
  { apply lookup_lt_Some in Hcur. simpl in Hleft. lia. }
  pose proof (Forall_lookup_1 _ _ _ _ Hplan Hcur) as Hshow.
  destruct Hshow as ([id Hid] & _ & _ & [rot_y Hy]).
  assert (answer (if different then K_d else K_s) = Some different) as Hans
    by (by destruct different).
  rewrite fmap_cons, (main_loop_step _ _ _ _ Hrunning).
  unfold answer_frame at 1. rewrite process_events_single. cbn [fst snd].
  rewrite (response_run _ _ now now' st _ _ _ Hans Hid Hrot Hy).
  unfold record_and_advance. simpl in Hleft. case_bool_decide as Hlast.
  - (* the last trial *)
    cbn [rbind]. rewrite render_total; [|done|]; cbn [rbind].
    2: { by apply (Forall_lookup_1 _ _ _ _ Hplan Hcur). }
    assert (answers = []) as -> by (apply length_zero_iff_nil; lia).
    simpl. eexists. split; [reflexivity|]. simpl.
    split; [done|]. split; [lia|].
    by rewrite fmap_app.
  - destruct (trials st !! (current_trial st + 1)) as [t|] eqn:Ht.
    2: { apply lookup_ge_None in Ht. lia. }
    cbn [rbind]. rewrite render_total; [|done|]; cbn [rbind].
    2: { by apply (Forall_lookup_1 _ _ _ _ Hplan Ht). }
    match goal with
    | |- context [main_loop _ _ (bind_rotation ?s)] =>
        destruct (IH (bind_rotation s)) as (st' & Hrun & Hstop & Hend & Hlog);
          [..|exists st'; split; [exact Hrun|]]; simpl; try done
    end.
    + lia.
    + split; [done|]. split; [done|].
      rewrite Hlog. simpl. rewrite fmap_app. simpl. by rewrite <- app_assoc.
Qed.

(** X9. On a plan whose trials can all be shown, a session in which every
    drawing succeeds, the first frame brings no event and each later frame
    brings one answer, runs to its end when there are as many answers as
    trials: the loop returns with [running] false and the log holds exactly
    these answers, one per trial of the plan and in their order. *)
Theorem session_completes draw plan now st0 answers :
  (∀ figure rot x y, draw figure rot x y = Ok ()) →
  Forall presentable plan →
  start_experiment plan now = Ok st0 →
  length answers = length plan →
  ∃ st,
    main_loop draw ([] :: (answer_frame <$> answers)) st0 = Ok st
    ∧ running st = false
    ∧ length (results st) = length plan
    ∧ TrialResult.user_response <$> results st = answers.*1.*1.
Proof.
  intros Hdraw Hplan Hstart Hlen.
  unfold start_experiment in Hstart.
  destruct (plan !! 0) as [t|] eqn:Ht; [|done]. injection Hstart as <-.
  rewrite main_loop_step by done. cbn [process_events rbind].
  rewrite render_total; [|done|]; cbn [rbind].
  2: { by apply (Forall_lookup_1 _ _ _ _ Hplan Ht). }
  match goal with
  | |- context [main_loop _ _ (bind_rotation ?s)] =>
      destruct (answers_run draw answers (bind_rotation s))
        as (st & Hrun & Hstop & Hend & Hlog);
        [..|exists st; split; [exact Hrun|]]; simpl; try done
  end.
  split; [done|]. split; [|done].
  apply (f_equal length) in Hlog. rewrite !length_fmap in Hlog. simpl in Hlog.
  by rewrite Hlog, length_fmap, length_fmap.
Qed.

Lemma trial_plain_presentable : presentable trial_plain.
Proof. split; [|split; [|split]]; by eexists. Qed.

Lemma trial_null_presentable : presentable trial_null.
Proof. split; [|split; [|split]]; by eexists. Qed.

Lemma session_completes_witness :
  ∃ st,
    main_loop draws
      ([] :: (answer_frame <$> [(false, 2%R, 3%R); (true, 5%R, 6%R)]))
      (opening_state trial_plain [trial_null] 0)
    = Ok st
    ∧ running st = false
    ∧ length (results st) = 2
    ∧ TrialResult.user_response <$> results st = [false; true].
Proof.
  apply (session_completes draws [trial_plain; trial_null] 0%R
           (opening_state trial_plain [trial_null] 0)
           [(false, 2%R, 3%R); (true, 5%R, 6%R)]).
  - done.
  - apply Forall_cons. split; [apply trial_plain_presentable|].
    apply Forall_cons. split; [apply trial_null_presentable | constructor].
  - apply start_experiment_cons.
  - reflexivity.
Defined.

(** ** More on the trial plan *)

Section PlanProps.

Variable shuffle : list dict → list dict.
Hypothesis shuffle_perm : ∀ l, shuffle l ≡ₚ l.

Lemma drawn_pool_submseteq stimuli n : drawn_pool shuffle stimuli n ⊆+ stimuli.
Proof.
  unfold drawn_pool. rewrite shuffle_perm.
  case_bool_decide; [apply submseteq_take|].
  apply sublist_submseteq, sublist_filter.
Qed.

(** X10. On both paths the stimuli of the plan are drawn from the
    collection without repetition: the plan uses no stimulus more often
    than the collection holds it. *)
Theorem plan_drawn_from_collection stimuli n_rotation n_no_rotation :
  Trial.stimulus <$> generate_trial_set shuffle stimuli n_rotation n_no_rotation
  ⊆+ stimuli.
Proof.
  rewrite (stimuli_generate_trial_set shuffle).
  etrans; [apply submseteq_take | apply drawn_pool_submseteq].
Qed.

(** X11. With enough labelled stimuli every trial of the plan is built from
    a labelled stimulus, and its [is_mirror] is the label of that stimulus,
    never [None]: unlabelled stimuli enter a plan only through the
    fallback. *)
Theorem plan_of_labelled_stimuli stimuli n_rotation n_no_rotation t :
  n_rotation + n_no_rotation ≤ length (filter (λ s, has_label s) stimuli) →
  t ∈ generate_trial_set shuffle stimuli n_rotation n_no_rotation →
  Trial.stimulus t ∈ stimuli
  ∧ dict_lookup "is_mirror" (Trial.stimulus t) = Some (Trial.is_mirror t)
  ∧ Trial.is_mirror t ≠ PNone.
Proof.
  intros Henough [i Ht]%list_elem_of_lookup.
  destruct (lookup_generate_trial_set shuffle _ _ _ _ _ Ht)
    as (s & Hs & <- & _ & Hmirror).
  apply lookup_take_Some in Hs as [Hs _].
  apply list_elem_of_lookup_2 in Hs. unfold drawn_pool in Hs.
  rewrite shuffle_perm in Hs.
  rewrite bool_decide_eq_false_2 in Hs by lia.
  apply list_elem_of_filter in Hs as [Hvalid Hin].
  split; [done|]. rewrite Hmirror.
  unfold has_label, dict_get in *.
  destruct (dict_lookup "is_mirror" (Trial.stimulus t)) as [[]|]; done.
Qed.

End PlanProps.

Lemma plan_drawn_from_collection_witness :
  Trial.stimulus <$> generate_trial_set reverse mostly_unlabelled 1 1
  ⊆+ mostly_unlabelled.
Proof. apply (plan_drawn_from_collection reverse reverse_Permutation). Defined.

Lemma plan_of_labelled_stimuli_witness :
  ∃ t, generate_trial_set reverse twenty_labelled 10 10 !! 0 = Some t
       ∧ Trial.is_mirror t ≠ PNone.
Proof.
  eexists. split; [reflexivity|].
  eapply (plan_of_labelled_stimuli reverse reverse_Permutation
            twenty_labelled 10 10); [vm_compute; lia|].
  apply list_elem_of_lookup. by exists 0.
Defined.

(** ** Partitions and counts *)

Lemma filter_bool_split {A} (f : A → bool) (l : list A) :
  filter (λ x, f x) l ++ filter (λ x, negb (f x)) l ≡ₚ l.
Proof.
  induction l as [|x l IH]; [done|].
  rewrite !filter_cons. destruct (f x); simpl.
  - by f_equiv.
  - rewrite <- Permutation_middle. by f_equiv.
Qed.

Lemma length_filter_bool_split {A} (f : A → bool) (l : list A) :
  length (filter (λ x, f x) l) + length (filter (λ x, negb (f x)) l) = length l.
Proof. by rewrite <- length_app, filter_bool_split. Qed.

Lemma count_correct_split (f : TrialResult.t → bool) results :
  count_correct (filter (λ r, f r) results)
  + count_correct (filter (λ r, negb (f r)) results)
  = count_correct results.
Proof.
  unfold count_correct. rewrite <- length_app, <- filter_app.
  by rewrite filter_bool_split.
Qed.

(** The two numbers printed for a rotation condition: correct results and
    results; nothing is printed for a condition without results. *)
Definition shown (group : option (nat * nat * R)) : nat * nat :=
  match group with
  | Some (correct_g, total_g, _) => (correct_g, total_g)
  | None => (0, 0)
  end.

Lemma shown_show_condition group :
  shown (show_condition group) = (count_correct group, length group).
Proof. by destruct group. Qed.

Lemma show_condition_None group : show_condition group = None ↔ group = [].
Proof. by destruct group. Qed.

Lemma show_condition_Some group correct_g total_g percent :
  show_condition group = Some (correct_g, total_g, percent) →
  total_g = length group
  ∧ 0 < total_g
  ∧ correct_g = count_correct group
  ∧ correct_g ≤ total_g
  ∧ percent = (INR correct_g / INR total_g * 100)%R.
Proof.
  destruct group as [|r group]; [done|].
  remember (r :: group) as rs eqn:Hrs. unfold show_condition.
  assert (0 < length rs) by (subst rs; simpl; lia).
  rewrite Hrs at 1. intros [= <- <- <-].
  split; [done|]. split; [done|]. split; [done|].
  split; [apply length_filter | done].
Qed.

Lemma filter_nil_iff {A} (f : A → bool) (l : list A) :
  filter (λ x, f x) l = [] ↔ ∀ x, x ∈ l → f x = false.
Proof.
  split.
  - intros Hnil x Hx. destruct (f x) eqn:Hfx; [|done].
    assert (x ∈ filter (λ x, f x) l) as Hin
      by (apply list_elem_of_filter; by rewrite Hfx).
    rewrite Hnil in Hin. by apply elem_of_nil in Hin.
  - intros Hall. destruct (filter (λ x, f x) l) as [|x l'] eqn:Hfilter; [done|].
    assert (x ∈ filter (λ x, f x) l) as Hin by (rewrite Hfilter; left).
    apply list_elem_of_filter in Hin as [Hfx Hin].
    rewrite (Hall _ Hin) in Hfx. done.
Qed.

(** X12. The summary [show_results] prints is consistent: the correct
    results are at most the total, the accuracy lies between 0 and 100 and
    is 100 exactly when every result is correct, and the counts printed for
    the two rotation conditions add up to the overall counts. Either
    condition is left out exactly when it has no result; a condition that is
    printed has at least one result, no more correct results than results,
    and its percentage is the one over the other times 100. *)
Theorem show_results_consistent results s :
  show_results results = Some s →
  total s = length results
  ∧ correct s ≤ total s
  ∧ (0 <= accuracy s <= 100)%R
  ∧ (accuracy s = 100%R ↔ correct s = total s)
  ∧ (shown (with_rotation s)).1 + (shown (without_rotation s)).1 = correct s
  ∧ (shown (with_rotation s)).2 + (shown (without_rotation s)).2 = total s
  ∧ (with_rotation s = None
     ↔ ∀ r, r ∈ results → TrialResult.rotation_enabled r = false)
  ∧ (without_rotation s = None
     ↔ ∀ r, r ∈ results → TrialResult.rotation_enabled r = true)
  ∧ (∀ group correct_g total_g percent,
       group = with_rotation s ∨ group = without_rotation s →
       group = Some (correct_g, total_g, percent) →
       0 < total_g
       ∧ correct_g ≤ total_g
       ∧ percent = (INR correct_g / INR total_g * 100)%R).
Proof.
  destruct results as [|r0 results]; [done|].
  remember (r0 :: results) as rs eqn:Hrs.
  assert (0 < length rs) as Hpos by (subst rs; simpl; lia).
  assert (show_results rs
          = Some {| total := length rs;
                    correct := count_correct rs;
                    accuracy := (INR (count_correct rs) / INR (length rs) * 100)%R;
                    with_rotation :=
                      show_condition
                        (filter (λ r, TrialResult.rotation_enabled r) rs);
                    without_rotation :=
                      show_condition
                        (filter (λ r, negb (TrialResult.rotation_enabled r)) rs);
                    avg_time :=
                      (py_sum (TrialResult.response_time <$> rs)
                       / INR (length rs))%R;
                    avg_disparity :=
                      (py_sum (TrialResult.disparity <$> rs)
                       / INR (length rs))%R |}) as ->.
  { unfold show_results. rewrite (bool_decide_eq_true_2 _ Hpos). by subst rs. }
  intros Hs. apply (inj Some) in Hs. subst s.
  cbn [total correct accuracy with_rotation without_rotation].
  clear Hrs.
  assert (count_correct rs ≤ length rs) as Hle by apply length_filter.
  assert (0 < INR (length rs))%R as HposR by (apply lt_0_INR; lia).
  assert (0 <= INR (count_correct rs) <= INR (length rs))%R as [Hc0 Hc1]
    by (split; [apply pos_INR | by apply le_INR]).
  rewrite !shown_show_condition. cbn [fst snd].
  split; [done|]. split; [done|].
  split; [|split; [|split; [|split; [|split; [|split]]]]].
  - split.
    + apply Rmult_le_pos; [|lra]. apply Rmult_le_pos; [done|].
      left. by apply Rinv_0_lt_compat.
    + apply (Rmult_le_reg_r (INR (length rs))); [done|].
      field_simplify; [|lra]. lra.
  - split.
    + intros Hfull. apply INR_eq.
      assert (INR (count_correct rs)
              = INR (count_correct rs) / INR (length rs) * 100
                * (INR (length rs) / 100))%R as Heq by (field; lra).
      rewrite Hfull in Heq. rewrite Heq. field.
    + intros ->. field. lra.
  - apply count_correct_split.
  - apply length_filter_bool_split.
  - unfold show_condition.
    destruct (filter _ rs) as [|r1 group] eqn:Hgroup.
    + split; [|done]. intros _ r Hr.
      destruct (TrialResult.rotation_enabled r) eqn:Hrot; [|done].
      assert (r ∈ filter (λ r, TrialResult.rotation_enabled r) rs) as Hin
        by (apply list_elem_of_filter; by rewrite Hrot).
      rewrite Hgroup in Hin. by apply elem_of_nil in Hin.
    + split; [done|]. intros Hnone.
      assert (r1 ∈ filter (λ r, TrialResult.rotation_enabled r) rs) as Hin
        by (rewrite Hgroup; left).
      apply list_elem_of_filter in Hin as [Hon Hin].
      rewrite (Hnone _ Hin) in Hon. done.
  - rewrite show_condition_None.
    rewrite (filter_nil_iff (λ r, negb (TrialResult.rotation_enabled r))).
    split; intros Hall r Hr; specialize (Hall r Hr);
      by destruct (TrialResult.rotation_enabled r).
  - intros group correct_g total_g percent [-> | ->] Hgroup;
      apply show_condition_Some in Hgroup as (_ & Hpos' & _ & Hle' & Hpercent);
      done.
Qed.

(** The log of a session of three answers, one of them wrong. *)
Definition example_log : list TrialResult.t :=
  [ {| TrialResult.trial_number := 1; TrialResult.stimulus_id := PInt 1;
       TrialResult.is_mirror := PBool false; TrialResult.user_response := false;
       TrialResult.response_time := 2; TrialResult.is_correct := PBool true;
       TrialResult.rotation_enabled := true; TrialResult.disparity := 5;
       TrialResult.initial_angle := PInt 40 |};
    {| TrialResult.trial_number := 2; TrialResult.stimulus_id := PInt 2;
       TrialResult.is_mirror := PBool true; TrialResult.user_response := false;
       TrialResult.response_time := 3; TrialResult.is_correct := PBool false;
       TrialResult.rotation_enabled := false; TrialResult.disparity := 0;
       TrialResult.initial_angle := PInt 80 |};
    {| TrialResult.trial_number := 3; TrialResult.stimulus_id := PInt 3;
       TrialResult.is_mirror := PBool true; TrialResult.user_response := true;
       TrialResult.response_time := 4; TrialResult.is_correct := PBool true;
       TrialResult.rotation_enabled := false; TrialResult.disparity := 0;
       TrialResult.initial_angle := PInt 120 |} ].

Lemma show_results_consistent_witness :
  (∃ s, show_results example_log = Some s
        ∧ total s = 3
        ∧ correct s ≤ total s
        ∧ (shown (with_rotation s)).1 + (shown (without_rotation s)).1 = correct s)
  ∧ (∃ s, show_results (take 1 example_log) = Some s
          ∧ with_rotation s ≠ None
          ∧ without_rotation s = None).
Proof.
  split.
  - eexists. split; [reflexivity|].
    destruct (show_results_consistent example_log _ eq_refl)
      as (Htotal & Hle & _ & _ & Hsum & _).
    by repeat split.
  - eexists. split; [reflexivity|].
    destruct (show_results_consistent (take 1 example_log) _ eq_refl)
      as (_ & _ & _ & _ & _ & _ & Hwith & Hwithout & _).
    split.
    + intros Hnone. pose proof (proj1 Hwith Hnone) as Hall. simpl in Hall.
      discriminate (Hall _ (list_elem_of_here _ _)).
    + apply Hwithout. simpl. by intros r ->%list_elem_of_singleton.
Defined.

(** X13. A trial whose [is_mirror] is [None] is scored by the answer alone:
    "same" is recorded as correct ([not None]) and "different" as [None],
    which the partition of the analysis puts among the incorrect results. *)
Theorem null_label_scored_by_answer draw plan now frames st0 st i r t :
  start_experiment plan now = Ok st0 →
  main_loop draw frames st0 = Ok st →
  results st !! i = Some r →
  plan !! i = Some t →
  Trial.is_mirror t = PNone →
  truthy (TrialResult.is_correct r) = negb (TrialResult.user_response r)
  ∧ (r ∈ incorrect_results (results st) ↔ TrialResult.user_response r = true)
  ∧ (r ∈ correct_results (results st) ↔ TrialResult.user_response r = false).
Proof.
  intros Hstart Hloop Hr Ht Hnone.
  destruct (session_reach _ _ _ _ _ _ Hstart Hloop) as (<- & (_ & Hlog & _) & _).
  destruct (Hlog i r Hr) as (_ & t' & Ht' & _ & _ & _ & _ & Hcorrect & _).
  rewrite Ht in Ht'. injection Ht' as <-. rewrite Hnone in Hcorrect.
  assert (truthy (TrialResult.is_correct r) = negb (TrialResult.user_response r))
    as Htruth by (rewrite Hcorrect; by destruct (TrialResult.user_response r)).
  assert (r ∈ results st) as Hin by (by eapply list_elem_of_lookup_2).
  split; [done|].
  unfold incorrect_results, correct_results. rewrite !list_elem_of_filter, Htruth.
  destruct (TrialResult.user_response r); simpl;
    intuition (try done; try congruence).
Qed.

Lemma null_label_scored_by_answer_witness :
  ∃ st r,
    main_loop draws two_answers (opening_state trial_plain [trial_null] 0) = Ok st
    ∧ results st !! 1 = Some r
    ∧ truthy (TrialResult.is_correct r) = false
    ∧ r ∈ incorrect_results (results st).
Proof.
  eexists _, _. split; [reflexivity|]. split; [reflexivity|].
  destruct (null_label_scored_by_answer draws [trial_plain; trial_null] 0%R
              two_answers (opening_state trial_plain [trial_null] 0) _ 1 _
              trial_null (start_experiment_cons _ _ _) eq_refl eq_refl eq_refl
              eq_refl) as (Htruth & Hincorrect & _).
  split; [exact Htruth|]. by apply Hincorrect.
Defined.

(** ** The results file of the post-hoc analysis *)

(** The record [v] of the results file holds, under the three keys the
    analysis reads, the values of the row [r]. *)
Definition row_of (v : pyval) (r : AnalyzeAde.row) : Prop :=
  py_getitem v "is_correct" = Ok (AnalyzeAde.is_correct r)
  ∧ py_getitem v "initial_angle" = Ok (AnalyzeAde.initial_angle r)
  ∧ py_getitem v "response_time" = Ok (AnalyzeAde.response_time r).

Lemma select_rows keep records rows :
  Forall2 row_of records rows →
  ∃ selected,
    AnalyzeAde.select keep records = Ok selected
    ∧ Forall2 row_of selected
        (filter (λ r, Bool.eqb (truthy (AnalyzeAde.is_correct r)) keep) rows).
Proof.
  induction 1 as [|v r records rows Hrow _ (selected & Hsel & Hrows)]; simpl.
  - exists []. by split.
  - pose proof Hrow as (Hflag & _ & _).
    rewrite Hflag, Hsel. simpl. rewrite filter_cons.
    destruct (Bool.eqb (truthy (AnalyzeAde.is_correct r)) keep) eqn:Hkeep; simpl.
    + exists (v :: selected). split; [done|]. by constructor.
    + exists selected. by split.
Qed.

Lemma select_correct_rows (rows : list AnalyzeAde.row) :
  filter (λ r, Bool.eqb (truthy (AnalyzeAde.is_correct r)) true) rows
  = correct_rows rows.
Proof.
  apply list_filter_iff. intros r.
  by destruct (truthy (AnalyzeAde.is_correct r)).
Qed.

Lemma select_incorrect_rows (rows : list AnalyzeAde.row) :
  filter (λ r, Bool.eqb (truthy (AnalyzeAde.is_correct r)) false) rows
  = incorrect_rows rows.
Proof.
  apply list_filter_iff. intros r.
  by destruct (truthy (AnalyzeAde.is_correct r)).
Qed.

Lemma column_rows records rows :
  Forall2 row_of records rows →
  AnalyzeAde.column "initial_angle" records = Ok (AnalyzeAde.initial_angle <$> rows)
  ∧ AnalyzeAde.column "response_time" records
    = Ok (AnalyzeAde.response_time <$> rows).
Proof.
  induction 1 as [|v r records rows (_ & Hangle & Htime) _ [IHa IHt]]; simpl.
  - done.
  - by rewrite Hangle, Htime, IHa, IHt.
Qed.

Lemma select_missing_key keep records :
  Forall (λ v, ∃ d, v = PDict d) records →
  Exists (λ v, ∃ d, v = PDict d ∧ dict_lookup "is_correct" d = None) records →
  AnalyzeAde.select keep records = Raise (KeyError "is_correct").
Proof.
  induction 1 as [|v records [d ->] _ IH]; intros Hmissing.
  - by apply Exists_nil in Hmissing.
  - simpl. unfold dict_getitem.
    destruct (dict_lookup "is_correct" d) as [flag|] eqn:Hflag; simpl; [|done].
    apply Exists_cons in Hmissing as [(d' & [= <-] & Hnone) | Hmissing];
      [congruence|].
    by rewrite IH.
Qed.

Section ResultsFileProps.

Variable json_load : string → result pyval.
Variable pearsonr : list pyval → list pyval → result (R * R).
Variable linregress : list pyval → list pyval → result (R * R * R * R * R).

(** X14. On a results file whose records all hold ['is_correct'],
    ['initial_angle'] and ['response_time'], [main] computes exactly what
    [analyze_ade] computes on the rows of these values; and when there is no
    results file, [main] returns without an analysis and without an
    exception. *)
Theorem main_analyses_rows fs full_path :
  (∀ text records rows,
     fs full_path = Some text →
     json_load text = Ok (PList records) →
     Forall2 row_of records rows →
     AnalyzeAde.main json_load pearsonr linregress fs full_path
     = AnalyzeAde.analyze_ade pearsonr linregress rows)
  ∧ (fs full_path = None →
       AnalyzeAde.main json_load pearsonr linregress fs full_path = Ok None).
Proof.
  split.
  - intros text records rows Hfile Hload Hrows.
    unfold AnalyzeAde.main, AnalyzeAde.load_results.
    rewrite Hfile, Hload. simpl.
    destruct Hrows as [|v r records rows Hrow Hrows]; [done|].
    assert (Forall2 row_of (v :: records) (r :: rows)) as Hall by (by constructor).
    unfold AnalyzeAde.analyze_ade_json.
    cbn [truthy negb AnalyzeAde.py_iter rbind].
    destruct (select_rows true _ _ Hall) as (correct & -> & Hcorrect).
    destruct (select_rows false _ _ Hall) as (incorrect & -> & Hincorrect).
    rewrite select_correct_rows in Hcorrect.
    rewrite select_incorrect_rows in Hincorrect.
    cbn [rbind].
    destruct (column_rows _ _ Hcorrect) as [-> ->].
    destruct (column_rows _ _ Hincorrect) as [-> ->].
    cbn [rbind]. rewrite (analyze_ade_partitions pearsonr linregress) by done.
    reflexivity.
  - intros Hmissing. unfold AnalyzeAde.main, AnalyzeAde.load_results.
    by rewrite Hmissing.
Qed.

(** X15. When the records of the results file are objects and one of them
    has no ['is_correct'], the analysis raises [KeyError] for that key
    before any statistic is computed. *)
Theorem analyze_ade_missing_key records :
  Forall (λ v, ∃ d, v = PDict d) records →
  Exists (λ v, ∃ d, v = PDict d ∧ dict_lookup "is_correct" d = None) records →
  AnalyzeAde.analyze_ade_json pearsonr linregress (PList records)
  = Raise (KeyError "is_correct").
Proof.
  intros Hdicts Hmissing. unfold AnalyzeAde.analyze_ade_json.
  destruct records as [|v records]; [by apply Exists_nil in Hmissing|].
  cbn [truthy negb AnalyzeAde.py_iter rbind].
  by rewrite (select_missing_key true _ Hdicts Hmissing).
Qed.

End ResultsFileProps.

(** A results file of one record, read by a reader that knows this text,
    and scipy routines that raise whenever they are called. *)
Definition one_record : list pyval :=
  [ PDict [ ("trial_number", PInt 1); ("is_correct", PBool true);
            ("initial_angle", PInt 40); ("response_time", PInt 2) ] ].

Definition results_file : filesystem :=
  write_file (λ _, None) "experiment_results.json" (compact (PList one_record)).

Lemma main_analyses_rows_witness :
  AnalyzeAde.main (reads [(compact (PList one_record), PList one_record)])
    scipy_raises scipy_raises results_file "experiment_results.json"
  = Ok (Some (degenerate_stats, degenerate_stats)).
Proof.
  destruct (main_analyses_rows
              (reads [(compact (PList one_record), PList one_record)])
              scipy_raises scipy_raises results_file "experiment_results.json")
    as [Hrows _].
  rewrite (Hrows (compact (PList one_record)) one_record
             [ {| AnalyzeAde.is_correct := PBool true;
                  AnalyzeAde.initial_angle := PInt 40;
                  AnalyzeAde.response_time := PInt 2 |} ]).
  - reflexivity.
  - reflexivity.
  - reflexivity.
  - constructor; [by repeat split | constructor].
Defined.

Lemma analyze_ade_missing_key_witness :
  AnalyzeAde.analyze_ade_json scipy_raises scipy_raises
    (PList [ PDict [("is_correct", PBool true); ("initial_angle", PInt 40);
                    ("response_time", PInt 2)];
             PDict [("initial_angle", PInt 80); ("response_time", PInt 3)] ])
  = Raise (KeyError "is_correct").
Proof.
  apply analyze_ade_missing_key.
  - repeat constructor; by eexists.
  - apply Exists_cons_tl, Exists_cons_hd. by eexists.
Defined.

(** ** Browsing and labelling the stimuli *)

Section Browsing.

Variable json_load : string → result pyval.
Variable json_dumps : pyval → string.

Lemma go_to_inv index st st' :
  Labeler.go_to index st = Ok st' →
  length (Labeler.all_stimuli st) ≠ 0
  ∧ Labeler.current_index st'
    = Z.to_nat (index `mod` Z.of_nat (length (Labeler.all_stimuli st)))
  ∧ Labeler.all_stimuli st' = Labeler.all_stimuli st
  ∧ Labeler.disk st' = Labeler.disk st
  ∧ Labeler.right_rotation_x st' = 0%R
  ∧ Labeler.right_rotation_y st' = 0%R
  ∧ Labeler.mouse_dragging st' = Labeler.mouse_dragging st
  ∧ Labeler.last_mouse_pos st' = Labeler.last_mouse_pos st.
Proof.
  unfold Labeler.go_to. case_bool_decide as Hlen; [done|].
  destruct (Labeler.all_stimuli st !! _) as [s|]; simpl; [|done].
  destruct (py_getitem s "id"); simpl; [|done].
  destruct (py_getitem s "angle"); simpl; [|done].
  intros [= <-]. simpl. split; [lia|]. by repeat split.
Qed.

(** The arrow keys. *)
Definition is_arrow (k : Labeler.key) : bool :=
  match k with Labeler.K_RIGHT | Labeler.K_LEFT => true | _ => false end.

(** X16. An arrow key leaves the index inside the collection, wrapping
    around at both ends: right moves to [(index + 1) mod len], left to
    [(index - 1) mod len], which is the last stimulus when the index was 0.
    It resets the rotation of the right figure and changes neither the
    collection nor the file. *)
Theorem arrow_key_in_bounds k st st' :
  is_arrow k = true →
  Labeler.handle_event json_load json_dumps (Labeler.KEYDOWN k) st = Ok st' →
  let len := length (Labeler.all_stimuli st) in
  Labeler.current_index st' < len
  ∧ Labeler.current_index st'
    = match k with
      | Labeler.K_RIGHT => (Labeler.current_index st + 1) `mod` len
      | _ => (Labeler.current_index st + (len - 1)) `mod` len
      end
  ∧ Labeler.all_stimuli st' = Labeler.all_stimuli st
  ∧ Labeler.disk st' = Labeler.disk st
  ∧ Labeler.right_rotation_x st' = 0%R
  ∧ Labeler.right_rotation_y st' = 0%R.
Proof.
  intros Harrow Hrun len.
  assert (∃ index,
            Labeler.go_to index st = Ok st'
            ∧ (index = Z.of_nat (Labeler.current_index st) + 1
               ∧ k = Labeler.K_RIGHT
               ∨ index = Z.of_nat (Labeler.current_index st) - 1
                 ∧ k = Labeler.K_LEFT))%Z
    as (index & Hgo & Hindex)
    by (destruct k; simplify_eq/=; eauto).
  apply go_to_inv in Hgo as (Hlen & Hnew & Hall & Hdisk & Hx & Hy & _).
  fold len in Hlen, Hnew.
  assert (0 < Z.of_nat len)%Z as Hpos by lia.
  pose proof (Z.mod_pos_bound index (Z.of_nat len) Hpos) as Hbound.
  split; [lia|]. split; [|done].
  rewrite Hnew.
  destruct Hindex as [[-> ->] | [-> ->]]; apply Nat2Z.inj;
    rewrite Z2Nat.id by lia; rewrite Nat2Z.inj_mod, Nat2Z.inj_add.
  - done.
  - rewrite Nat2Z.inj_sub by lia.
    replace (Z.of_nat (Labeler.current_index st) + (Z.of_nat len - Z.of_nat 1))%Z
      with (Z.of_nat (Labeler.current_index st) - 1 + 1 * Z.of_nat len)%Z by lia.
    by rewrite Z_mod_plus_full.
Qed.

(** A stimulus the arrow keys can move to: the line they print reads its
    ['id'] and its ['angle']. *)
Definition browsable (v : pyval) : Prop :=
  ∃ id angle, py_getitem v "id" = Ok id ∧ py_getitem v "angle" = Ok angle.

Lemma go_to_total index st :
  Forall browsable (Labeler.all_stimuli st) →
  Labeler.all_stimuli st ≠ [] →
  ∃ st', Labeler.go_to index st = Ok st'.
Proof.
  intros Hall Hne. unfold Labeler.go_to.
  assert (0 < length (Labeler.all_stimuli st)) as Hlen
    by (destruct (Labeler.all_stimuli st); simpl; [done | lia]).
  rewrite bool_decide_eq_false_2 by lia.
  pose proof (Z.mod_pos_bound index (Z.of_nat (length (Labeler.all_stimuli st))))
    as Hbound.
  destruct (lookup_lt_is_Some_2 (Labeler.all_stimuli st)
              (Z.to_nat (index `mod` Z.of_nat (length (Labeler.all_stimuli st)))))
    as [s Hs]; [lia|].
  rewrite Hs. simpl.
  destruct (Forall_lookup_1 _ _ _ _ Hall Hs) as (id & angle & -> & ->).
  simpl. eauto.
Qed.

(** X17. Where every stimulus can be shown, right then left, and left then
    right, bring the tool back to the stimulus it was at, with the
    collection and the file untouched. *)
Theorem arrow_keys_round_trip st :
  Forall browsable (Labeler.all_stimuli st) →
  Labeler.current_index st < length (Labeler.all_stimuli st) →
  ∃ st1 st2 st3 st4,
    Labeler.handle_event json_load json_dumps (Labeler.KEYDOWN Labeler.K_RIGHT) st
    = Ok st1
    ∧ Labeler.handle_event json_load json_dumps (Labeler.KEYDOWN Labeler.K_LEFT) st1
      = Ok st2
    ∧ Labeler.handle_event json_load json_dumps (Labeler.KEYDOWN Labeler.K_LEFT) st
      = Ok st3
    ∧ Labeler.handle_event json_load json_dumps (Labeler.KEYDOWN Labeler.K_RIGHT) st3
      = Ok st4
    ∧ Labeler.current_index st2 = Labeler.current_index st
    ∧ Labeler.current_index st4 = Labeler.current_index st
    ∧ Labeler.all_stimuli st2 = Labeler.all_stimuli st
    ∧ Labeler.all_stimuli st4 = Labeler.all_stimuli st
    ∧ Labeler.disk st2 = Labeler.disk st
    ∧ Labeler.disk st4 = Labeler.disk st.
Proof.
  intros Hall Hin. simpl.
  set (len := length (Labeler.all_stimuli st)) in *.
  assert (Labeler.all_stimuli st ≠ []) as Hne
    by (intros Hnil; unfold len in Hin; rewrite Hnil in Hin; simpl in Hin; lia).
  destruct (go_to_total (Z.of_nat (Labeler.current_index st) + 1) st Hall Hne)
    as [st1 H1].
  destruct (go_to_total (Z.of_nat (Labeler.current_index st) - 1) st Hall Hne)
    as [st3 H3].
  pose proof (go_to_inv _ _ _ H1) as (_ & Hi1 & Ha1 & Hd1 & _).
  pose proof (go_to_inv _ _ _ H3) as (_ & Hi3 & Ha3 & Hd3 & _).
  destruct (go_to_total (Z.of_nat (Labeler.current_index st1) - 1) st1)
    as [st2 H2]; [by rewrite Ha1 | by rewrite Ha1 |].
  destruct (go_to_total (Z.of_nat (Labeler.current_index st3) + 1) st3)
    as [st4 H4]; [by rewrite Ha3 | by rewrite Ha3 |].
  pose proof (go_to_inv _ _ _ H2) as (_ & Hi2 & Ha2 & Hd2 & _).
  pose proof (go_to_inv _ _ _ H4) as (_ & Hi4 & Ha4 & Hd4 & _).
  exists st1, st2, st3, st4.
  split; [done|]. split; [done|]. split; [done|]. split; [done|].
  fold len in Hi1, Hi3. rewrite Ha1 in Hi2. rewrite Ha3 in Hi4.
  fold len in Hi2, Hi4.
  assert (0 < Z.of_nat len)%Z as Hpos by lia.
  pose proof (Z.mod_pos_bound (Z.of_nat (Labeler.current_index st) + 1)
                (Z.of_nat len) Hpos).
  pose proof (Z.mod_pos_bound (Z.of_nat (Labeler.current_index st) - 1)
                (Z.of_nat len) Hpos).
  split; [|split; [|by repeat split; congruence]].
  - rewrite Hi2, Hi1, Z2Nat.id by lia.
    rewrite Zminus_mod_idemp_l.
    replace (Z.of_nat (Labeler.current_index st) + 1 - 1)%Z
      with (Z.of_nat (Labeler.current_index st)) by lia.
    rewrite Z.mod_small by lia. apply Nat2Z.id.
  - rewrite Hi4, Hi3, Z2Nat.id by lia.
    rewrite Zplus_mod_idemp_l.
    replace (Z.of_nat (Labeler.current_index st) - 1 + 1)%Z
      with (Z.of_nat (Labeler.current_index st)) by lia.
    rewrite Z.mod_small by lia. apply Nat2Z.id.
Qed.

(** *** Labelling *)

Lemma label_key_run value st text data s :
  Labeler.disk st Labeler.json_path = Some text →
  json_load text = Ok (PList data) →
  Labeler.all_stimuli st !! Labeler.current_index st = Some (PDict s) →
  Labeler.current_index st < length data →
  let k := Labeler.current_index st in
  let labelled := PDict (dict_setitem "is_mirror" (PBool value) s) in
  label_key json_load json_dumps value st
  = Ok {| Labeler.all_stimuli := <[k := labelled]> (Labeler.all_stimuli st);
          Labeler.current_index := k;
          Labeler.right_rotation_x := Labeler.right_rotation_x st;
          Labeler.right_rotation_y := Labeler.right_rotation_y st;
          Labeler.mouse_dragging := Labeler.mouse_dragging st;
          Labeler.last_mouse_pos := Labeler.last_mouse_pos st;
          Labeler.disk :=
            write_file (Labeler.disk st) Labeler.json_path
              (Labeler.file_text json_dumps (<[k := labelled]> data)) |}.
Proof.
  intros Hfile Hload Hstim Hk k labelled. unfold label_key.
  destruct value; simpl;
    unfold Labeler.on_key_d, Labeler.on_key_s, Labeler.set_is_mirror;
    rewrite Hstim; simpl;
    unfold Labeler.save_stimulus_to_json, read_file; simpl;
    rewrite Hfile; simpl; rewrite Hload; simpl;
    (rewrite list_lookup_insert_eq by (by eapply lookup_lt_Some)); simpl;
    by rewrite bool_decide_eq_true_2.
Qed.

(** X18. When the file holds the collection the tool has in memory, it
    still does after a label: the text written is the text of the whole
    in-memory collection, the new label included. *)
Theorem label_keeps_file_in_step value st text s :
  Labeler.disk st Labeler.json_path = Some text →
  json_load text = Ok (PList (Labeler.all_stimuli st)) →
  Labeler.all_stimuli st !! Labeler.current_index st = Some (PDict s) →
  ∃ st',
    label_key json_load json_dumps value st = Ok st'
    ∧ Labeler.disk st' Labeler.json_path
      = Some (Labeler.file_text json_dumps (Labeler.all_stimuli st')).
Proof.
  intros Hfile Hload Hstim.
  pose proof (lookup_lt_Some _ _ _ Hstim) as Hk.
  rewrite (label_key_run value _ _ _ _ Hfile Hload Hstim Hk).
  eexists. split; [reflexivity|]. simpl. apply read_write_file.
Qed.

Lemma dict_setitem_idemp k v d :
  dict_setitem k v (dict_setitem k v d) = dict_setitem k v d.
Proof.
  induction d as [|[k' v'] d IH]; simpl.
  - by rewrite String.eqb_refl.
  - destruct (String.eqb k k') eqn:Hk; simpl.
    + by rewrite String.eqb_refl.
    + by rewrite Hk, IH.
Qed.

(** X19. Labelling is idempotent: giving the current stimulus the label it
    was just given writes the same text again and changes nothing, in
    memory or in any file, provided [json.load] reads back the text the
    first label wrote. *)
Theorem label_twice value st st' text data s :
  Labeler.disk st Labeler.json_path = Some text →
  json_load text = Ok (PList data) →
  Labeler.all_stimuli st !! Labeler.current_index st = Some (PDict s) →
  Labeler.current_index st < length data →
  label_key json_load json_dumps value st = Ok st' →
  (∀ written, Labeler.disk st' Labeler.json_path = Some written →
              json_load written
              = Ok (PList (<[Labeler.current_index st :=
                               PDict (dict_setitem "is_mirror" (PBool value) s)]>
                             data))) →
  ∃ st'',
    label_key json_load json_dumps value st' = Ok st''
    ∧ Labeler.all_stimuli st'' = Labeler.all_stimuli st'
    ∧ Labeler.current_index st'' = Labeler.current_index st'
    ∧ (∀ path, Labeler.disk st'' path = Labeler.disk st' path).
Proof.
  intros Hfile Hload Hstim Hk Hrun Hback.
  pose proof (lookup_lt_Some _ _ _ Hstim) as Hmem.
  rewrite (label_key_run value _ _ _ _ Hfile Hload Hstim Hk) in Hrun.
  injection Hrun as <-. simpl in Hback.
  specialize (Hback _ (read_write_file _ _ _)).
  set (labelled := dict_setitem "is_mirror" (PBool value) s) in *.
  match goal with
  | |- context [label_key _ _ _ ?st1] =>
      rewrite (label_key_run value st1 _ _ labelled
                 (read_write_file _ _ _) Hback); simpl
  end.
  - eexists. split; [reflexivity|]. simpl. unfold labelled.
    rewrite dict_setitem_idemp, 2!list_insert_insert_eq.
    split; [done|]. split; [done|].
    intros path. unfold write_file. by destruct (String.eqb path _).
  - by apply list_lookup_insert_eq.
  - by rewrite length_insert.
Qed.

End Browsing.

(** The tool looking at the first of the three stimuli. *)
Definition at_first : Labeler.state :=
  {| Labeler.all_stimuli := unlabelled_file;
     Labeler.current_index := 0;
     Labeler.right_rotation_x := 12;
     Labeler.right_rotation_y := 0;
     Labeler.mouse_dragging := false;
     Labeler.last_mouse_pos := None;
     Labeler.disk := Labeler.disk labelling |}.

Lemma unlabelled_file_browsable : Forall browsable unlabelled_file.
Proof. repeat constructor; by eexists _, _. Qed.

Lemma arrow_key_in_bounds_witness :
  ∃ st',
    Labeler.handle_event json_reader compact (Labeler.KEYDOWN Labeler.K_LEFT) at_first
    = Ok st'
    ∧ Labeler.current_index st' = 2
    ∧ Labeler.right_rotation_x st' = 0%R.
Proof.
  eexists. split; [reflexivity|].
  destruct (arrow_key_in_bounds json_reader compact Labeler.K_LEFT at_first _
              eq_refl eq_refl) as (_ & Hindex & _ & _ & Hx & _).
  split; [|exact Hx]. rewrite Hindex. reflexivity.
Defined.

Lemma arrow_keys_round_trip_witness :
  ∃ st1 st2,
    Labeler.handle_event json_reader compact (Labeler.KEYDOWN Labeler.K_RIGHT) labelling
    = Ok st1
    ∧ Labeler.handle_event json_reader compact (Labeler.KEYDOWN Labeler.K_LEFT) st1
      = Ok st2
    ∧ Labeler.current_index st2 = 1.
Proof.
  destruct (arrow_keys_round_trip json_reader compact labelling
              unlabelled_file_browsable)
    as (st1 & st2 & _ & _ & H1 & H2 & _ & _ & Hback & _).
  - vm_compute. lia.
  - by exists st1, st2.
Defined.

Lemma label_keeps_file_in_step_witness :
  ∃ st',
    label_key json_reader compact true labelling = Ok st'
    ∧ Labeler.disk st' Labeler.json_path
      = Some (Labeler.file_text compact (Labeler.all_stimuli st')).
Proof.
  apply (label_keeps_file_in_step json_reader compact true labelling
           (Labeler.file_text compact unlabelled_file) (stimulus_record 1 None));
    reflexivity.
Defined.

Lemma label_twice_witness :
  ∃ st' st'',
    label_key json_reader compact true labelling = Ok st'
    ∧ label_key json_reader compact true st' = Ok st''
    ∧ Labeler.all_stimuli st'' = Labeler.all_stimuli st'
    ∧ Labeler.disk st'' Labeler.json_path = Labeler.disk st' Labeler.json_path.
Proof.
  eexists. 
  destruct (label_twice json_reader compact true labelling _
              (Labeler.file_text compact unlabelled_file) unlabelled_file
              (stimulus_record 1 None) eq_refl eq_refl eq_refl
              ltac:(vm_compute; lia) eq_refl)
    as (st'' & Hrun & Hmem & _ & Hdisk).
  - intros written [= <-]. reflexivity.
  - exists st''. split; [reflexivity|]. by repeat split.
Defined.

(** ** The bins of angular disparity ([experiments/experience3.py]) *)

#[local] Instance Rle_decision : RelDecision Rle := Rle_dec.
#[local] Instance Rlt_decision : RelDecision Rlt := Rlt_dec.

Lemma in_bin_spec (bin_min bin_max : Z) (d : R) :
  Experience3.in_bin bin_min bin_max d = true
  ↔ (IZR bin_min <= d < IZR bin_max)%R.
Proof.
  unfold Experience3.in_bin.
  destruct (Rle_dec (IZR bin_min) d), (Rlt_dec d (IZR bin_max)); simpl;
    intuition (try done; try lra).
Qed.

(** The number of entries of the mask of a bin that are true. *)
Lemma mask_count (bin_min bin_max : Z) (disparites : list R) :
  length (filter (λ b : bool, b) (Experience3.in_bin bin_min bin_max <$> disparites))
  = length (filter (λ d, (IZR bin_min <= d < IZR bin_max)%R) disparites).
Proof.
  induction disparites as [|d ds IH]; [done|].
  rewrite fmap_cons, !filter_cons.
  pose proof (in_bin_spec bin_min bin_max d) as Hspec.
  destruct (Experience3.in_bin bin_min bin_max d) eqn:Hd.
  - rewrite decide_True by done.
    rewrite decide_True by (by apply Hspec).
    simpl. by rewrite IH.
  - rewrite (decide_False (P := Is_true false)) by (by intros []).
    rewrite decide_False by (intros Hin; apply Hspec in Hin; done).
    exact IH.
Qed.

(** Two adjacent half-open ranges count together what their union counts. *)
Lemma range_count_split (a b c : Z) (ds : list R) :
  (a ≤ b)%Z → (b ≤ c)%Z →
  length (filter (λ d, (IZR a <= d < IZR c)%R) ds)
  = length (filter (λ d, (IZR a <= d < IZR b)%R) ds)
    + length (filter (λ d, (IZR b <= d < IZR c)%R) ds).
Proof.
  intros Hab%IZR_le Hbc%IZR_le.
  induction ds as [|d ds IH]; [done|].
  rewrite !filter_cons.
  destruct (decide (IZR a <= d < IZR c)%R) as [Hac|Hac];
    destruct (decide (IZR a <= d < IZR b)%R) as [H1|H1];
    destruct (decide (IZR b <= d < IZR c)%R) as [H2|H2];
    simpl; try lia; exfalso; lra.
Qed.

Lemma existsb_false_filter (mask : list bool) :
  existsb (λ b : bool, b) mask = false ↔ filter (λ b : bool, b) mask = [].
Proof.
  induction mask as [|[] mask IH]; simpl; [done| |].
  - rewrite filter_cons, decide_True by done. done.
  - rewrite filter_cons, (decide_False (P := Is_true false)) by (by intros []).
    exact IH.
Qed.

Section BinsProps.

Variable np_mean : list R → R.

(** The dictionary of a bin whose mask has the length of the four arrays. *)
Lemma stats_bin_total (mask : list bool) (tm tp em ep : list R) :
  length tm = length mask → length tp = length mask →
  length em = length mask → length ep = length mask →
  ∃ stats,
    Experience3.stats_bin np_mean mask tm tp em ep = Ok stats
    ∧ Experience3.n stats = length (filter (λ b : bool, b) mask).
Proof.
  intros Htm Htp Hem Hep. unfold Experience3.stats_bin, Experience3.masked.
  rewrite !bool_decide_eq_true_2 by done.
  destruct (existsb (λ b : bool, b) mask); simpl; by eexists.
Qed.

(** A bin with no disparity in it never indexes the arrays. *)
Lemma stats_bin_empty (mask : list bool) (tm tp em ep : list R) :
  existsb (λ b : bool, b) mask = false →
  Experience3.stats_bin np_mean mask tm tp em ep
  = Ok {| Experience3.temps_mentale := 0;
          Experience3.temps_physique := 0;
          Experience3.erreur_mentale := 0;
          Experience3.erreur_physique := 0;
          Experience3.n := 0 |}.
Proof.
  intros Hany. unfold Experience3.stats_bin. rewrite Hany. simpl.
  apply existsb_false_filter in Hany. by rewrite Hany.
Qed.

Lemma par_bin_total (edges : list (Z * Z)) (i : nat) (ds tm tp em ep : list R) :
  length tm = length ds → length tp = length ds →
  length em = length ds → length ep = length ds →
  i + length edges ≤ length Experience3.labels →
  ∃ bins,
    Experience3.par_bin np_mean i edges ds tm tp em ep = Ok bins
    ∧ bins.*1 = take (length edges) (drop i Experience3.labels)
    ∧ Experience3.n <$> bins.*2
      = (λ edge : Z * Z,
           length (filter (λ d, (IZR edge.1 <= d < IZR edge.2)%R) ds)) <$> edges.
Proof.
  intros Htm Htp Hem Hep.
  revert i. induction edges as [|[bin_min bin_max] edges IH]; intros i Hi.
  - by exists [].
  - simpl in Hi. cbn [Experience3.par_bin].
    destruct (stats_bin_total (Experience3.in_bin bin_min bin_max <$> ds) tm tp em ep)
      as (stats & -> & Hn); rewrite ?length_fmap; try done.
    cbn [rbind].
    destruct (Experience3.labels !! i) as [label|] eqn:Hlabel;
      [|apply lookup_ge_None in Hlabel; simpl in Hlabel; lia].
    cbn [rbind].
    destruct (IH (S i)) as (bins & -> & Hlabels & Hcounts); [simpl; lia|].
    cbn [rbind]. eexists. split; [done|]. split.
    + rewrite fmap_cons. cbn [fst length]. rewrite Hlabels.
      rewrite (drop_S _ _ _ Hlabel). done.
    + rewrite !fmap_cons. cbn [snd fst]. rewrite Hcounts, Hn, mask_count. done.
Qed.

(** While no disparity falls in a bin the loop never indexes the arrays. *)
Lemma par_bin_empty (edges : list (Z * Z)) (i : nat) (ds tm tp em ep : list R) :
  Forall (λ d, ¬ (0 <= d < 180)%R) ds →
  Forall (λ edge : Z * Z, (0 ≤ edge.1)%Z ∧ (edge.2 ≤ 180)%Z) edges →
  i + length edges ≤ length Experience3.labels →
  ∃ bins,
    Experience3.par_bin np_mean i edges ds tm tp em ep = Ok bins
    ∧ bins.*1 = take (length edges) (drop i Experience3.labels)
    ∧ Forall (λ stats,
        stats = {| Experience3.temps_mentale := 0;
                   Experience3.temps_physique := 0;
                   Experience3.erreur_mentale := 0;
                   Experience3.erreur_physique := 0;
                   Experience3.n := 0 |}) bins.*2.
Proof.
  intros Hout Hedges. revert i.
  induction Hedges as [|[bin_min bin_max] edges [Hmin Hmax] _ IH]; intros i Hi.
  - by exists [].
  - simpl in Hi, Hmin, Hmax. cbn [Experience3.par_bin].
    rewrite stats_bin_empty; cycle 1.
    { apply existsb_false_filter. apply length_zero_iff_nil.
      rewrite mask_count. apply length_zero_iff_nil.
      apply IZR_le in Hmin, Hmax.
      clear -Hout Hmin Hmax. induction Hout as [|d ds Hd _ IHds]; [done|].
      rewrite filter_cons, decide_False; [done|]. intros Hin. apply Hd. lra. }
    cbn [rbind].
    destruct (Experience3.labels !! i) as [label|] eqn:Hlabel;
      [|apply lookup_ge_None in Hlabel; simpl in Hlabel; lia].
    cbn [rbind].
    destruct (IH (S i)) as (bins & -> & Hlabels & Hzero); [simpl; lia|].
    cbn [rbind]. eexists. split; [done|]. split.
    + rewrite fmap_cons. cbn [fst length]. rewrite Hlabels.
      rewrite (drop_S _ _ _ Hlabel). done.
    + rewrite fmap_cons. by apply Forall_cons.
Qed.

End BinsProps.

Definition edges : list (Z * Z) :=
  zip (take (length Experience3.bins - 1) Experience3.bins)
      (drop 1 Experience3.bins).

Definition zero_stats : Experience3.bin_stats :=
  {| Experience3.temps_mentale := 0;
     Experience3.temps_physique := 0;
     Experience3.erreur_mentale := 0;
     Experience3.erreur_physique := 0;
     Experience3.n := 0 |}.

Lemma zero_bins (stats_par_bin : list (string * Experience3.bin_stats))
    (names : list string) :
  stats_par_bin.*1 = names →
  Forall (λ stats, stats = zero_stats) stats_par_bin.*2 →
  stats_par_bin = (λ label, (label, zero_stats)) <$> names.
Proof.
  intros <-. induction stats_par_bin as [|[label stats] rest IH]; [done|].
  rewrite !fmap_cons. cbn [fst snd]. intros [-> Hzero]%Forall_cons.
  f_equal. by apply IH.
Qed.

(** Every disparity from 0 up to 180, 180 left out, lies in one of the bins. *)
Lemma edges_cover (d : R) :
  (0 <= d < 180)%R →
  Exists (λ edge : Z * Z, (IZR edge.1 <= d < IZR edge.2)%R) edges.
Proof.
  intros [Hmin Hmax]. unfold edges. simpl.
  destruct (Rlt_dec d 30); [by apply Exists_cons_hd; simpl; lra|].
  apply Exists_cons_tl.
  destruct (Rlt_dec d 60); [by apply Exists_cons_hd; simpl; lra|].
  apply Exists_cons_tl.
  destruct (Rlt_dec d 90); [by apply Exists_cons_hd; simpl; lra|].
  apply Exists_cons_tl.
  destruct (Rlt_dec d 120); [by apply Exists_cons_hd; simpl; lra|].
  apply Exists_cons_tl.
  destruct (Rlt_dec d 150); [by apply Exists_cons_hd; simpl; lra|].
  apply Exists_cons_tl.
  apply Exists_cons_hd; simpl; lra.
Qed.

Lemma mask_any (bin_min bin_max : Z) (ds : list R) :
  existsb (λ b : bool, b) (Experience3.in_bin bin_min bin_max <$> ds) = true
  ↔ Exists (λ d, (IZR bin_min <= d < IZR bin_max)%R) ds.
Proof.
  induction ds as [|d ds IH]; simpl.
  - split; [done|]. by intros ?%Exists_nil.
  - rewrite Exists_cons, orb_true_iff, IH, in_bin_spec. done.
Qed.

Section BinsMismatch.

Variable np_mean : list R → R.

(** A bin with a disparity in it indexes the four arrays with its mask. *)
Lemma stats_bin_index_error (mask : list bool) (tm tp em ep : list R) :
  existsb (λ b : bool, b) mask = true →
  ¬ (length tm = length mask ∧ length tp = length mask
     ∧ length em = length mask ∧ length ep = length mask) →
  Experience3.stats_bin np_mean mask tm tp em ep = Raise IndexError.
Proof.
  intros Hany Hlen. unfold Experience3.stats_bin, Experience3.masked.
  rewrite Hany.
  repeat case_bool_decide; simpl; try done.
  exfalso. apply Hlen. done.
Qed.

Lemma par_bin_index_error (es : list (Z * Z)) (i : nat) (ds tm tp em ep : list R) :
  Exists (λ edge : Z * Z,
    Exists (λ d, (IZR edge.1 <= d < IZR edge.2)%R) ds) es →
  ¬ (length tm = length ds ∧ length tp = length ds
     ∧ length em = length ds ∧ length ep = length ds) →
  i + length es ≤ length Experience3.labels →
  Experience3.par_bin np_mean i es ds tm tp em ep = Raise IndexError.
Proof.
  intros Hhit Hlen. revert i.
  induction es as [|[bin_min bin_max] es IH]; intros i Hi.
  - by apply Exists_nil in Hhit.
  - cbn [Experience3.par_bin].
    destruct (existsb (λ b : bool, b) (Experience3.in_bin bin_min bin_max <$> ds))
      eqn:Hany.
    + rewrite stats_bin_index_error; [done|done|].
      by rewrite length_fmap.
    + rewrite stats_bin_empty by done. cbn [rbind].
      destruct (Experience3.labels !! i) as [label|] eqn:Hlabel;
        [|apply lookup_ge_None in Hlabel; simpl in Hi, Hlabel; lia].
      cbn [rbind]. rewrite IH; [done| |simpl in *; lia].
      apply Exists_cons in Hhit as [Hhead|Htail]; [|done].
      simpl in Hhead. apply mask_any in Hhead. by rewrite Hhead in Hany.
Qed.

End BinsMismatch.

(** X20. [analyser_par_disparite] on five arrays of one length returns the
    six bins under the labels from '0-30°' to '150-180°', in this order; the
    [n] of a bin counts the disparities from its lower bound up to, and
    without, its upper bound, so the six [n] add up to the number of
    disparities from 0 up to 180, 180 left out: a disparity of 180 or below
    0 is counted in no bin. *)
Theorem analyser_par_disparite_bins (np_mean : list R → R)
    (disparites temps_mentale temps_physique erreurs_mentale erreurs_physique
       : list R) :
  length temps_mentale = length disparites →
  length temps_physique = length disparites →
  length erreurs_mentale = length disparites →
  length erreurs_physique = length disparites →
  ∃ stats_par_bin,
    Experience3.analyser_par_disparite np_mean disparites temps_mentale
      temps_physique erreurs_mentale erreurs_physique = Ok stats_par_bin
    ∧ stats_par_bin.*1 = Experience3.labels
    ∧ Experience3.n <$> stats_par_bin.*2
      = (λ bin_min : Z,
           length (filter (λ d, (IZR bin_min <= d < IZR (bin_min + 30))%R)
                     disparites))
        <$> [0; 30; 60; 90; 120; 150]%Z
    ∧ sum_list (Experience3.n <$> stats_par_bin.*2)
      = length (filter (λ d, (0 <= d < 180)%R) disparites).
Proof.
  intros Htm Htp Hem Hep.
  destruct (par_bin_total np_mean edges 0 disparites temps_mentale
              temps_physique erreurs_mentale erreurs_physique Htm Htp Hem Hep)
    as (stats_par_bin & Hrun & Hlabels & Hcounts); [simpl; lia|].
  exists stats_par_bin. split; [exact Hrun|]. split; [exact Hlabels|].
  split; [exact Hcounts|].
  rewrite Hcounts. unfold edges. simpl.
  rewrite (range_count_split 0 150 180) by lia.
  rewrite (range_count_split 0 120 150) by lia.
  rewrite (range_count_split 0 90 120) by lia.
  rewrite (range_count_split 0 60 90) by lia.
  rewrite (range_count_split 0 30 60) by lia.
  lia.
Qed.

Lemma analyser_par_disparite_bins_witness :
  ∃ stats_par_bin,
    Experience3.analyser_par_disparite (λ _, 1%R) [30; 180]%R [2; 3]%R [4; 5]%R
      [0; 1]%R [0; 0]%R = Ok stats_par_bin
    ∧ stats_par_bin.*1 = Experience3.labels.
Proof.
  destruct (analyser_par_disparite_bins (λ _, 1%R) [30; 180]%R [2; 3]%R
              [4; 5]%R [0; 1]%R [0; 0]%R eq_refl eq_refl eq_refl eq_refl)
    as (stats_par_bin & Hrun & Hlabels & _).
  by exists stats_par_bin.
Defined.

(** X21. When no disparity lies from 0 up to 180, 180 left out,
    [analyser_par_disparite] never indexes the other four arrays: whatever
    their lengths it returns the six labelled bins, each with four zeros and
    [n] 0, and [np.mean] is not consulted. *)
Theorem analyser_par_disparite_out_of_range (np_mean : list R → R)
    (disparites temps_mentale temps_physique erreurs_mentale erreurs_physique
       : list R) :
  Forall (λ d, ¬ (0 <= d < 180)%R) disparites →
  Experience3.analyser_par_disparite np_mean disparites temps_mentale
    temps_physique erreurs_mentale erreurs_physique
  = Ok ((λ label, (label, zero_stats)) <$> Experience3.labels).
Proof.
  intros Hout.
  destruct (par_bin_empty np_mean edges 0 disparites temps_mentale
              temps_physique erreurs_mentale erreurs_physique Hout)
    as (stats_par_bin & Hrun & Hlabels & Hzero).
  - unfold edges. simpl. repeat constructor; simpl; lia.
  - simpl; lia.
  - unfold Experience3.analyser_par_disparite. fold edges. rewrite Hrun.
    f_equal. by apply zero_bins.
Qed.

Lemma analyser_par_disparite_out_of_range_witness :
  Experience3.analyser_par_disparite (λ _, 1%R) [180; -1]%R [] [2]%R [] []
  = Ok ((λ label, (label, zero_stats)) <$> Experience3.labels).
Proof.
  apply analyser_par_disparite_out_of_range.
  repeat constructor; lra.
Defined.

(** X22. When some disparity lies from 0 up to 180, 180 left out, and one
    of the other four arrays does not have the length of the disparities,
    [analyser_par_disparite] raises [IndexError]. *)
Theorem analyser_par_disparite_length_mismatch (np_mean : list R → R)
    (disparites temps_mentale temps_physique erreurs_mentale erreurs_physique
       : list R) :
  Exists (λ d, (0 <= d < 180)%R) disparites →
  ¬ (length temps_mentale = length disparites
     ∧ length temps_physique = length disparites
     ∧ length erreurs_mentale = length disparites
     ∧ length erreurs_physique = length disparites) →
  Experience3.analyser_par_disparite np_mean disparites temps_mentale
    temps_physique erreurs_mentale erreurs_physique
  = Raise IndexError.
Proof.
  intros Hin Hlen. unfold Experience3.analyser_par_disparite. fold edges.
  apply par_bin_index_error; [|done|simpl; lia].
  apply Exists_exists in Hin as (d & Hd & Hrange).
  pose proof (edges_cover d Hrange) as Hedge.
  eapply Exists_impl; [exact Hedge|].
  intros edge Hd'. apply Exists_exists. by exists d.
Qed.

Lemma analyser_par_disparite_length_mismatch_witness :
  Experience3.analyser_par_disparite (λ _, 1%R) [200; 45]%R [2; 3]%R [4]%R
    [0; 1]%R [0; 0]%R
  = Raise IndexError.
Proof.
  apply analyser_par_disparite_length_mismatch.
  - apply Exists_cons_tl, Exists_cons_hd. lra.
  - simpl. intros (_ & Hlen & _). discriminate Hlen.
Defined.

(** ** Convergence of the trajectories ([experiments/experience2.py]) *)

(** Two trajectories that are both shorter than 25 samples, or that both
    have 25 samples at least and the same last 25. *)
Definition same_tail (t t' : list R) : Prop :=
  (length t < 25 ∧ length t' < 25)
  ∨ (25 ≤ length t ∧ 25 ≤ length t'
     ∧ drop (length t - 25) t = drop (length t' - 25) t').

Lemma finales_same_tail (ts ts' : list (list R)) :
  Forall2 same_tail ts ts' → Experience2.finales ts = Experience2.finales ts'.
Proof.
  unfold Experience2.finales.
  induction 1 as [|t t' ts ts' Htail _ IH]; [done|].
  rewrite !filter_cons.
  destruct Htail as [[Hshort Hshort']|(Hlong & Hlong' & Htail)].
  - rewrite !decide_False by lia. exact IH.
  - rewrite !decide_True by lia. rewrite !fmap_cons. by rewrite Htail, IH.
Qed.

Lemma finales_short (ts : list (list R)) :
  Forall (λ t, length t < 25) ts → Experience2.finales ts = [].
Proof.
  unfold Experience2.finales.
  induction 1 as [|t ts Hshort _ IH]; [done|].
  rewrite filter_cons, decide_False by lia. exact IH.
Qed.

Lemma finales_length (ts : list (list R)) :
  Forall (λ f, length f = 25) (Experience2.finales ts).
Proof.
  unfold Experience2.finales.
  induction ts as [|t ts IH]; [by constructor|].
  rewrite filter_cons. case_decide; [|exact IH].
  rewrite fmap_cons. apply Forall_cons. split; [|exact IH].
  rewrite length_drop. lia.
Qed.

(** X23. [analyser_convergence] reads only the last 25 samples of the
    trajectories that have at least 25 samples: two inputs whose
    trajectories are pairwise both shorter than 25 samples, or both of 25
    samples at least with the same last 25, give the same statistics. *)
Theorem analyser_convergence_tails (np_mean np_std : list R → R)
    (same same' different different' : list (list R)) :
  Forall2 same_tail same same' →
  Forall2 same_tail different different' →
  Experience2.analyser_convergence np_mean np_std same different
  = Experience2.analyser_convergence np_mean np_std same' different'.
Proof.
  intros Hsame Hdifferent. unfold Experience2.analyser_convergence.
  by rewrite (finales_same_tail _ _ Hsame), (finales_same_tail _ _ Hdifferent).
Qed.

Lemma analyser_convergence_tails_witness :
  Experience2.analyser_convergence (λ _, 1%R) (λ _, 2%R)
    [replicate 25 3%R; [4%R]] [[]]
  = Experience2.analyser_convergence (λ _, 1%R) (λ _, 2%R)
      [7%R :: 8%R :: replicate 25 3%R; []] [[5; 6]%R].
Proof.
  apply analyser_convergence_tails.
  - apply Forall2_cons. split.
    + right. split; [simpl; lia|]. split; [simpl; lia|]. reflexivity.
    + apply Forall2_cons. split; [|constructor]. left. simpl. lia.
  - apply Forall2_cons. split; [|constructor]. left. simpl. lia.
Defined.

(** X24. When every trajectory of the "same" group has fewer than 25
    samples, the canonical difference and the standard deviation
    [analyser_convergence] reports for this group are both 0, whatever
    [np.mean] and [np.std] compute, and the statistics are those of an empty
    group. *)
Theorem analyser_convergence_short (np_mean np_std : list R → R)
    (same different : list (list R)) :
  Forall (λ t, length t < 25) same →
  Experience2.canonical_same
      (Experience2.analyser_convergence np_mean np_std same different) = 0%R
  ∧ Experience2.std_same
      (Experience2.analyser_convergence np_mean np_std same different) = 0%R
  ∧ Experience2.analyser_convergence np_mean np_std [] different
    = Experience2.analyser_convergence np_mean np_std same different.
Proof.
  intros Hshort. unfold Experience2.analyser_convergence.
  rewrite (finales_short _ Hshort). cbn [Experience2.finales filter fmap].
  change (Experience2.finales []) with (@nil (list R)).
  destruct (Experience2.finales different); done.
Qed.

Lemma analyser_convergence_short_witness :
  Experience2.canonical_same
    (Experience2.analyser_convergence (λ _, 1%R) (λ _, 2%R)
       [[3; 4]%R; []] [replicate 30 5%R]) = 0%R.
Proof.
  apply (analyser_convergence_short (λ _, 1%R) (λ _, 2%R) [[3; 4]%R; []]
           [replicate 30 5%R]).
  repeat constructor; simpl; lia.
Defined.
